(** * aeju-portfolio: the content layer of [src/App.tsx]

    A shallow embedding of the non-presentational logic of [App.tsx]:
    the thumbnail resolver ([getYoutubeId], [getThumbnail]), the
    persistence lifecycle (the load effect, [saveToLocal],
    [resetToDefault]), the admin gate ([handleAdminTrigger],
    [handlePasswordSubmit], [closeAdmin]), the editor's field mutators
    and the asynchronous image upload ([handleFileUpload]).

    JavaScript strings are sequences of UTF-16 code units; they are
    modelled as [list N], so that [length] is JavaScript's [.length]. *)

From Stdlib Require Import String Ascii NArith ZArith List Bool Lia.
From Stdlib Require Decimal DecimalFacts DecimalPos DecimalZ.
From stdpp Require Import base list option numbers.
Import ListNotations.

Open Scope list_scope.

(* ===================================================================== *)
(** * Strings                                                             *)
(* ===================================================================== *)

Module Str.

(** A JavaScript string: its UTF-16 code units. *)
Definition jsstring : Type := list N.

(** The code units of an ASCII literal. *)
Fixpoint u16 (s : string) : jsstring :=
  match s with
  | EmptyString => []
  | String a s' => N_of_ascii a :: u16 s'
  end.

(** JavaScript truthiness of a string: non-empty. *)
Definition truthy (s : jsstring) : bool :=
  match s with [] => false | _ :: _ => true end.

End Str.
Export Str.

(* ===================================================================== *)
(** * A backtracking matcher for the regular expressions of the source   *)
(* ===================================================================== *)

Module Regex.

(** Single-character matchers. *)
Inductive CharSet : Type :=
| CsAny                      (* [.]  : anything but a line terminator *)
| CsChar (c : N)             (* a literal character *)
| CsWord                     (* [\w] : [A-Za-z0-9_] *)
| CsNoneOf (cs : list N).    (* [[^...]] *)

(** LF, CR, LS, PS. *)
Definition isLineTerminator (c : N) : bool :=
  (c =? 10)%N || (c =? 13)%N || (c =? 8232)%N || (c =? 8233)%N.

Definition isWordChar (c : N) : bool :=
  ((65 <=? c)%N && (c <=? 90)%N) || ((97 <=? c)%N && (c <=? 122)%N)
  || ((48 <=? c)%N && (c <=? 57)%N) || (c =? 95)%N.

Definition memN (c : N) (cs : list N) : bool := existsb (N.eqb c) cs.

Definition csMatch (cs : CharSet) (c : N) : bool :=
  match cs with
  | CsAny => negb (isLineTerminator c)
  | CsChar d => (c =? d)%N
  | CsWord => isWordChar c
  | CsNoneOf l => negb (memN c l)
  end.

(** The operators the source's expression uses.  Every starred atom
    of the source is a single-character matcher, and every star is
    greedy. *)
Inductive Re : Type :=
| RBegin                      (* [^] without the m flag *)
| REmpty
| RAtom (cs : CharSet)
| RStar (cs : CharSet)
| RSeq (r1 r2 : Re)
| RAlt (r1 r2 : Re)
| RGroup (n : nat) (r : Re).  (* capturing group number n *)

(** Captures: group number to captured substring. *)
Definition Caps : Type := nat -> option jsstring.
Definition noCaps : Caps := fun _ => None.
Definition setCap (n : nat) (v : jsstring) (c : Caps) : Caps :=
  fun m => if Nat.eqb m n then Some v else c m.

(** A continuation receives the rest of the input, the index reached
    and the captures. *)
Definition Cont : Type := jsstring -> nat -> Caps -> option Caps.

(** Greedy star: as many characters as possible first, then one
    fewer on every failure of the continuation. *)
Fixpoint star (cs : CharSet) (s : jsstring) (pos : nat) (caps : Caps)
         (k : Cont) : option Caps :=
  match s with
  | c :: s' =>
      if csMatch cs c then
        match star cs s' (S pos) caps k with
        | Some r => Some r
        | None => k s pos caps
        end
      else k s pos caps
  | [] => k s pos caps
  end.

Fixpoint rmatch (r : Re) (s : jsstring) (pos : nat) (caps : Caps)
         (k : Cont) : option Caps :=
  match r with
  | RBegin => if Nat.eqb pos 0 then k s pos caps else None
  | REmpty => k s pos caps
  | RAtom cs =>
      match s with
      | c :: s' => if csMatch cs c then k s' (S pos) caps else None
      | [] => None
      end
  | RStar cs => star cs s pos caps k
  | RSeq r1 r2 =>
      rmatch r1 s pos caps (fun s1 p1 c1 => rmatch r2 s1 p1 c1 k)
  | RAlt r1 r2 =>
      match rmatch r1 s pos caps k with
      | Some c => Some c
      | None => rmatch r2 s pos caps k
      end
  | RGroup n r1 =>
      rmatch r1 s pos caps
        (fun s1 p1 c1 => k s1 p1 (setCap n (take (p1 - pos) s) c1))
  end.

(** [RegExp.prototype.exec] of a non-global expression: the match is
    attempted at every start index in turn. *)
Fixpoint execFrom (r : Re) (s : jsstring) (pos : nat) : option Caps :=
  match rmatch r s pos noCaps (fun _ _ c => Some c) with
  | Some c => Some c
  | None =>
      match s with
      | [] => None
      | _ :: s' => execFrom r s' (S pos)
      end
  end.

Definition exec (r : Re) (s : jsstring) : option Caps := execFrom r s 0.

(** A literal: the sequence of its characters. *)
Fixpoint lit (l : jsstring) : Re :=
  match l with
  | [] => REmpty
  | c :: l' => RSeq (RAtom (CsChar c)) (lit l')
  end.

End Regex.
Import Regex.

(* ===================================================================== *)
(** * Data model ([WorkItem], [CareerItem], the content of [SiteData])  *)
(* ===================================================================== *)

Record WorkItem : Type := mkWork {
  id : Z;
  title : jsstring;
  img : jsstring;
  url : jsstring
}.

(** The field [title] of a [CareerItem] is [ctitle] here. *)
Record CareerItem : Type := mkCareer {
  date : jsstring;
  ctitle : jsstring;
  role : jsstring
}.

(** The content of a [SiteData]: what it holds once every reference
    is followed.  Structural equality of two [SiteData] is equality of
    their contents. *)
Record SiteValue : Type := mkValue {
  profileImgV : jsstring;
  bioV : jsstring;
  careerV : list CareerItem;
  worksV : list WorkItem
}.

(* ===================================================================== *)
(** * The thumbnail resolver                                              *)
(* ===================================================================== *)

(** The alternatives of the first group:
    [youtu.be\/|v\/|u\/\w\/|embed\/|watch\?v=|&v=].  The dot of
    [youtu.be] is not escaped in the source: it is the wildcard. *)
Definition delimiters : Re :=
  RAlt (RSeq (lit (u16 "youtu")) (RSeq (RAtom CsAny) (lit (u16 "be/"))))
  (RAlt (lit (u16 "v/"))
  (RAlt (RSeq (lit (u16 "u/")) (RSeq (RAtom CsWord) (lit (u16 "/"))))
  (RAlt (lit (u16 "embed/"))
  (RAlt (lit (u16 "watch?v="))
        (lit (u16 "&v=")))))).

(** The characters [#&?] that end the identifier. *)
Definition stops : list N := u16 "#&?".

(** The expression of [getYoutubeId], piece by piece: [^], [.*], the
    group of the delimiters, the group [[^#&?]*], and a last [.*]. *)
Definition regExp : Re :=
  RSeq RBegin
  (RSeq (RStar CsAny)
  (RSeq (RGroup 1 delimiters)
  (RSeq (RGroup 2 (RStar (CsNoneOf stops)))
        (RStar CsAny)))).

(** [getYoutubeId]: [(match && match[2].length === 11) ? match[2] : null].
    Group 2 takes part in every match ([regExp_group2] below), so that
    [match[2]] is never undefined; that branch returns [None] here. *)
Definition getYoutubeId (url : jsstring) : option jsstring :=
  match exec regExp url with
  | Some m =>
      match m 2%nat with
      | Some g => if Nat.eqb (length g) 11 then Some g else None
      | None => None
      end
  | None => None
  end.

Definition thumbnailOf (ytId : jsstring) : jsstring :=
  u16 "https://img.youtube.com/vi/" ++ ytId ++ u16 "/maxresdefault.jpg".

Definition placeholder : jsstring :=
  u16 "https://placehold.co/600x400/111/333?text=NO+IMAGE".

(** [getThumbnail]: the two [if]s test truthiness; a non-null [ytId]
    is a string, tested for being non-empty. *)
Definition getThumbnail (work : WorkItem) : jsstring :=
  if truthy (img work) then img work
  else match getYoutubeId (url work) with
       | Some ytId =>
           if truthy ytId then thumbnailOf ytId else placeholder
       | None => placeholder
       end.

(* ===================================================================== *)
(** * [JSON.parse] and [JSON.stringify]                                   *)
(* ===================================================================== *)

(** The platform's two functions, as far as the application uses them:
    [JSON.parse] on arbitrary text (the persisted snapshot may hold
    anything), [JSON.stringify] on values of the shape of [SiteData]. *)

Module Json.

(** A parsed value.  An integer literal is [JNum], with the integer
    that the literal writes: the number that [JSON.parse] builds from
    it is that integer when it is a safe integer ([isSafeInteger]
    below), and the nearest double otherwise, which is not computed
    here.  A literal with a fraction or an exponent is kept as its text
    in [JNumLit] (its floating-point value is not modelled).  An object
    is the list of its members in the order of their first occurrence
    in the text. *)
Unset Elimination Schemes.
Inductive JSON : Type :=
| JNull
| JBool (b : bool)
| JNum (n : Z)
| JNumLit (lit : jsstring)
| JStr (s : jsstring)
| JArr (items : list JSON)
| JObj (members : list (jsstring * JSON)).
Set Elimination Schemes.

(** The result of a parser: a value and the rest of the input, a
    syntax error, or not enough fuel. *)
Inductive PResult (A : Type) : Type :=
| POk (v : A) (rest : jsstring)
| PSyntax
| PFuel.
Arguments POk {A} v rest.
Arguments PSyntax {A}.
Arguments PFuel {A}.

Definition isWs (c : N) : bool :=
  (c =? 32)%N || (c =? 9)%N || (c =? 10)%N || (c =? 13)%N.

Fixpoint skipWs (s : jsstring) : jsstring :=
  match s with
  | c :: rest => if isWs c then skipWs rest else s
  | [] => []
  end.

Definition isDigit (c : N) : bool := (48 <=? c)%N && (c <=? 57)%N.

(** ** Strings *)

Definition hexVal (c : N) : option N :=
  if isDigit c then Some (c - 48)%N
  else if (97 <=? c)%N && (c <=? 102)%N then Some (c - 87)%N
  else if (65 <=? c)%N && (c <=? 70)%N then Some (c - 55)%N
  else None.

Definition hex4 (h1 h2 h3 h4 : N) : option N :=
  match hexVal h1, hexVal h2, hexVal h3, hexVal h4 with
  | Some a, Some b, Some c, Some d => Some (((a * 16 + b) * 16 + c) * 16 + d)%N
  | _, _, _, _ => None
  end.

(** The character after a backslash, other than [u]. *)
Definition unescape (e : N) : option N :=
  if (e =? 34)%N then Some 34%N          (* quote *)
  else if (e =? 92)%N then Some 92%N     (* backslash *)
  else if (e =? 47)%N then Some 47%N     (* slash *)
  else if (e =? 98)%N then Some 8%N      (* b *)
  else if (e =? 102)%N then Some 12%N    (* f *)
  else if (e =? 110)%N then Some 10%N    (* n *)
  else if (e =? 114)%N then Some 13%N    (* r *)
  else if (e =? 116)%N then Some 9%N     (* t *)
  else None.

Definition consFst {A} (c : N) (r : option (jsstring * A)) : option (jsstring * A) :=
  match r with
  | Some (s, x) => Some (c :: s, x)
  | None => None
  end.

(** The characters of a string literal after its opening quote, up to
    and including the closing quote. *)
Fixpoint parseChars (s : jsstring) : option (jsstring * jsstring) :=
  match s with
  | [] => None
  | c :: rest =>
      if (c =? 34)%N then Some ([], rest)
      else if (c =? 92)%N then
        match rest with
        | e :: rest1 =>
            if (e =? 117)%N then
              match rest1 with
              | h1 :: h2 :: h3 :: h4 :: rest2 =>
                  match hex4 h1 h2 h3 h4 with
                  | Some u => consFst u (parseChars rest2)
                  | None => None
                  end
              | _ => None
              end
            else
              match unescape e with
              | Some u => consFst u (parseChars rest1)
              | None => None
              end
        | [] => None
        end
      else if (c <? 32)%N then None
      else consFst c (parseChars rest)
  end.

(** ** Numbers *)

Definition digitOf (c : N) : option (Decimal.uint -> Decimal.uint) :=
  if (c =? 48)%N then Some Decimal.D0 else if (c =? 49)%N then Some Decimal.D1
  else if (c =? 50)%N then Some Decimal.D2 else if (c =? 51)%N then Some Decimal.D3
  else if (c =? 52)%N then Some Decimal.D4 else if (c =? 53)%N then Some Decimal.D5
  else if (c =? 54)%N then Some Decimal.D6 else if (c =? 55)%N then Some Decimal.D7
  else if (c =? 56)%N then Some Decimal.D8 else if (c =? 57)%N then Some Decimal.D9
  else None.

(** The longest run of digits at the head of [s], and the rest. *)
Fixpoint spanDigits (s : jsstring) : Decimal.uint * jsstring :=
  match s with
  | c :: rest =>
      match digitOf c with
      | Some d => let (u, r) := spanDigits rest in (d u, r)
      | None => (Decimal.Nil, s)
      end
  | [] => (Decimal.Nil, [])
  end.

Definition isNil (u : Decimal.uint) : bool :=
  match u with Decimal.Nil => true | _ => false end.

(** The integer part: [0], or digits that do not start with [0]. *)
Definition intPartOk (u : Decimal.uint) : bool :=
  match u with
  | Decimal.Nil => false
  | Decimal.D0 Decimal.Nil => true
  | Decimal.D0 _ => false
  | _ => true
  end.

(** The optional fraction: the rest after it, [None] on a dot that no
    digit follows. *)
Definition skipFraction (s : jsstring) : option (bool * jsstring) :=
  match s with
  | c :: rest =>
      if (c =? 46)%N then
        let (u, r) := spanDigits rest in
        if isNil u then None else Some (true, r)
      else Some (false, s)
  | [] => Some (false, [])
  end.

Definition skipSign (s : jsstring) : jsstring :=
  match s with
  | c :: rest => if (c =? 43)%N || (c =? 45)%N then rest else s
  | [] => []
  end.

(** The optional exponent. *)
Definition skipExponent (s : jsstring) : option (bool * jsstring) :=
  match s with
  | c :: rest =>
      if (c =? 101)%N || (c =? 69)%N then
        let (u, r) := spanDigits (skipSign rest) in
        if isNil u then None else Some (true, r)
      else Some (false, s)
  | [] => Some (false, [])
  end.

(** The optional minus sign. *)
Definition takeMinus (s : jsstring) : bool * jsstring :=
  match s with
  | c :: rest => if (c =? 45)%N then (true, rest) else (false, s)
  | [] => (false, [])
  end.

(** A number at the head of [s]. *)
Definition parseNumber (s : jsstring) : option (JSON * jsstring) :=
  let (neg, s1) := takeMinus s in
  let (u, s2) := spanDigits s1 in
  if intPartOk u then
    match skipFraction s2 with
    | Some (frac, s3) =>
        match skipExponent s3 with
        | Some (ex, s4) =>
            if frac || ex
            then Some (JNumLit (take (length s - length s4) s), s4)
            else
              let n := Z.of_uint u in
              Some (JNum (if neg then - n else n)%Z, s4)
        | None => None
        end
    | None => None
    end
  else None.

(** ** Values *)

Fixpoint stripPrefix (l s : jsstring) : option jsstring :=
  match l, s with
  | [], _ => Some s
  | a :: l', c :: s' => if (c =? a)%N then stripPrefix l' s' else None
  | _ :: _, [] => None
  end.

(** A later member of the same name replaces the value of the first. *)
Fixpoint setMember (k : jsstring) (v : JSON) (ms : list (jsstring * JSON))
  : list (jsstring * JSON) :=
  match ms with
  | [] => [(k, v)]
  | (k', v') :: ms' =>
      if bool_decide (k = k') then (k', v) :: ms'
      else (k', v') :: setMember k v ms'
  end.

Definition mkObj (ms : list (jsstring * JSON)) : JSON :=
  JObj (fold_left (fun acc kv => setMember (fst kv) (snd kv) acc) ms []).

Definition bindP {A B} (r : PResult A) (k : A -> jsstring -> PResult B)
  : PResult B :=
  match r with
  | POk v rest => k v rest
  | PSyntax => PSyntax
  | PFuel => PFuel
  end.

Definition ofOption {A} (r : option (A * jsstring)) : PResult A :=
  match r with
  | Some (v, rest) => POk v rest
  | None => PSyntax
  end.

(** Recursive descent.  [parseElems] reads the elements of an array
    after its bracket, up to and including the closing bracket;
    [parseMembers] does the same for the members of an object. *)
Fixpoint parseValue (fuel : nat) (s : jsstring) : PResult JSON :=
  match fuel with
  | 0 => PFuel
  | S fuel' =>
      match skipWs s with
      | [] => PSyntax
      | c :: rest =>
          if (c =? 123)%N then
            match skipWs rest with
            | c' :: rest' =>
                if (c' =? 125)%N then POk (JObj []) rest'
                else bindP (parseMembers fuel' rest)
                           (fun ms r => POk (mkObj ms) r)
            | [] => PSyntax
            end
          else if (c =? 91)%N then
            match skipWs rest with
            | c' :: rest' =>
                if (c' =? 93)%N then POk (JArr []) rest'
                else bindP (parseElems fuel' rest)
                           (fun vs r => POk (JArr vs) r)
            | [] => PSyntax
            end
          else if (c =? 34)%N then
            bindP (ofOption (parseChars rest)) (fun str r => POk (JStr str) r)
          else if (c =? 116)%N then
            bindP (ofOption (option_map (pair tt) (stripPrefix (u16 "rue") rest)))
                  (fun _ r => POk (JBool true) r)
          else if (c =? 102)%N then
            bindP (ofOption (option_map (pair tt) (stripPrefix (u16 "alse") rest)))
                  (fun _ r => POk (JBool false) r)
          else if (c =? 110)%N then
            bindP (ofOption (option_map (pair tt) (stripPrefix (u16 "ull") rest)))
                  (fun _ r => POk JNull r)
          else ofOption (parseNumber (c :: rest))
      end
  end
with parseElems (fuel : nat) (s : jsstring) : PResult (list JSON) :=
  match fuel with
  | 0 => PFuel
  | S fuel' =>
      bindP (parseValue fuel' s) (fun v r =>
        match skipWs r with
        | c :: r' =>
            if (c =? 44)%N then
              bindP (parseElems fuel' r') (fun vs r'' => POk (v :: vs) r'')
            else if (c =? 93)%N then POk [v] r'
            else PSyntax
        | [] => PSyntax
        end)
  end
with parseMembers (fuel : nat) (s : jsstring)
  : PResult (list (jsstring * JSON)) :=
  match fuel with
  | 0 => PFuel
  | S fuel' =>
      match skipWs s with
      | q :: s1 =>
          if (q =? 34)%N then
            bindP (ofOption (parseChars s1)) (fun k s2 =>
              match skipWs s2 with
              | colon :: s3 =>
                  if (colon =? 58)%N then
                    bindP (parseValue fuel' s3) (fun v r =>
                      match skipWs r with
                      | c :: r' =>
                          if (c =? 44)%N then
                            bindP (parseMembers fuel' r')
                                  (fun ms r'' => POk ((k, v) :: ms) r'')
                          else if (c =? 125)%N then POk [(k, v)] r'
                          else PSyntax
                      | [] => PSyntax
                      end)
                  else PSyntax
              | [] => PSyntax
              end)
          else PSyntax
      | [] => PSyntax
      end
  end.

(** [JSON.parse]: one value, then only white space.  [None] is the
    [SyntaxError]; the fuel given is never used up
    ([JSON_parse_fuel] below). *)
Definition JSON_parse (text : jsstring) : option JSON :=
  match parseValue (2 * length text + 1) text with
  | POk v rest =>
      match skipWs rest with
      | [] => Some v
      | _ :: _ => None
      end
  | PSyntax => None
  | PFuel => None
  end.

(** ** [JSON.stringify] on the shape of [SiteData] *)

(** A lowercase hexadecimal digit. *)
Definition hexDigit (d : N) : N :=
  if (d <? 10)%N then (48 + d)%N else (87 + d)%N.

(** [\uXXXX]. *)
Definition unicodeEscape (c : N) : jsstring :=
  [92; 117; hexDigit ((c / 4096) mod 16); hexDigit ((c / 256) mod 16);
   hexDigit ((c / 16) mod 16); hexDigit (c mod 16)]%N.

Definition isHighSurrogate (c : N) : bool := (55296 <=? c)%N && (c <=? 56319)%N.
Definition isLowSurrogate (c : N) : bool := (56320 <=? c)%N && (c <=? 57343)%N.

(** The characters between the quotes: the two-character escapes,
    [\uXXXX] for the other control characters and for a surrogate
    that has no partner, the character itself otherwise. *)
Fixpoint quoteChars (s : jsstring) : jsstring :=
  match s with
  | [] => []
  | c :: rest =>
      if (c =? 8)%N then 92%N :: 98%N :: quoteChars rest
      else if (c =? 9)%N then 92%N :: 116%N :: quoteChars rest
      else if (c =? 10)%N then 92%N :: 110%N :: quoteChars rest
      else if (c =? 12)%N then 92%N :: 102%N :: quoteChars rest
      else if (c =? 13)%N then 92%N :: 114%N :: quoteChars rest
      else if (c =? 34)%N then 92%N :: 34%N :: quoteChars rest
      else if (c =? 92)%N then 92%N :: 92%N :: quoteChars rest
      else if (c <? 32)%N then unicodeEscape c ++ quoteChars rest
      else if isHighSurrogate c then
        match rest with
        | l :: rest' =>
            if isLowSurrogate l then c :: l :: quoteChars rest'
            else unicodeEscape c ++ quoteChars rest
        | [] => unicodeEscape c
        end
      else if isLowSurrogate c then unicodeEscape c ++ quoteChars rest
      else c :: quoteChars rest
  end.

Definition quoteJSONString (s : jsstring) : jsstring :=
  34%N :: quoteChars s ++ [34%N].

Fixpoint charsOfUint (u : Decimal.uint) : jsstring :=
  match u with
  | Decimal.Nil => []
  | Decimal.D0 u' => 48%N :: charsOfUint u'
  | Decimal.D1 u' => 49%N :: charsOfUint u'
  | Decimal.D2 u' => 50%N :: charsOfUint u'
  | Decimal.D3 u' => 51%N :: charsOfUint u'
  | Decimal.D4 u' => 52%N :: charsOfUint u'
  | Decimal.D5 u' => 53%N :: charsOfUint u'
  | Decimal.D6 u' => 54%N :: charsOfUint u'
  | Decimal.D7 u' => 55%N :: charsOfUint u'
  | Decimal.D8 u' => 56%N :: charsOfUint u'
  | Decimal.D9 u' => 57%N :: charsOfUint u'
  end.

(** An integer in decimal. *)
Definition showZ (z : Z) : jsstring :=
  match Z.to_int z with
  | Decimal.Pos u => charsOfUint u
  | Decimal.Neg u => 45%N :: charsOfUint u
  end.

Fixpoint joinComma (items : list jsstring) : jsstring :=
  match items with
  | [] => []
  | [x] => x
  | x :: rest => x ++ 44%N :: joinComma rest
  end.

Definition member (k : string) (v : jsstring) : jsstring :=
  quoteJSONString (u16 k) ++ 58%N :: v.

Definition objectText (members : list jsstring) : jsstring :=
  123%N :: joinComma members ++ [125%N].

Definition arrayText (items : list jsstring) : jsstring :=
  91%N :: joinComma items ++ [93%N].

Definition stringifyCareer (c : CareerItem) : jsstring :=
  objectText [member "date" (quoteJSONString (date c));
              member "title" (quoteJSONString (ctitle c));
              member "role" (quoteJSONString (role c))].

Definition stringifyWork (w : WorkItem) : jsstring :=
  objectText [member "id" (showZ (id w));
              member "title" (quoteJSONString (title w));
              member "img" (quoteJSONString (img w));
              member "url" (quoteJSONString (url w))].

(** [JSON.stringify] of a [SiteData] of content [v]; the members come
    in the order in which the source writes them. *)
Definition JSON_stringify (v : SiteValue) : jsstring :=
  objectText [member "profileImg" (quoteJSONString (profileImgV v));
              member "bio" (quoteJSONString (bioV v));
              member "career" (arrayText (map stringifyCareer (careerV v)));
              member "works" (arrayText (map stringifyWork (worksV v)))].

(** ** Parsed values of the shape of [SiteData] *)

Definition toJSONCareer (c : CareerItem) : JSON :=
  JObj [(u16 "date", JStr (date c)); (u16 "title", JStr (ctitle c));
        (u16 "role", JStr (role c))].

Definition toJSONWork (w : WorkItem) : JSON :=
  JObj [(u16 "id", JNum (id w)); (u16 "title", JStr (title w));
        (u16 "img", JStr (img w)); (u16 "url", JStr (url w))].

Definition toJSON (v : SiteValue) : JSON :=
  JObj [(u16 "profileImg", JStr (profileImgV v)); (u16 "bio", JStr (bioV v));
        (u16 "career", JArr (map toJSONCareer (careerV v)));
        (u16 "works", JArr (map toJSONWork (worksV v)))].

Definition isKey (k : string) (s : jsstring) : bool := bool_decide (s = u16 k).

Definition asCareer (j : JSON) : option CareerItem :=
  match j with
  | JObj [(k1, JStr d); (k2, JStr t); (k3, JStr r)] =>
      if isKey "date" k1 && isKey "title" k2 && isKey "role" k3
      then Some (mkCareer d t r) else None
  | _ => None
  end.

(** The integers that a JavaScript number holds exactly
    ([Number.isSafeInteger]), and that [JSON.parse] therefore reads
    without rounding. *)
Definition isSafeInteger (n : Z) : bool :=
  ((- 9007199254740991 <=? n) && (n <=? 9007199254740991))%Z.

(** The [id] of a work is taken from an integer literal that is read
    without rounding. *)
Definition asWork (j : JSON) : option WorkItem :=
  match j with
  | JObj [(k1, JNum n); (k2, JStr t); (k3, JStr i); (k4, JStr u)] =>
      if isKey "id" k1 && isKey "title" k2 && isKey "img" k3 && isKey "url" k4
         && isSafeInteger n
      then Some (mkWork n t i u) else None
  | _ => None
  end.

(** The content of a parsed value that a [SiteValue] describes in
    full: an object with exactly the members of a [SiteData], in the
    order of [JSON_stringify], whose ids are read without rounding;
    [None] for any other value.  The order of the members and further
    members are part of the object ([JSON.stringify] writes the members
    back in their order of insertion, and the spreads of the handlers
    keep them), so that an object with the four members in another
    order, or with more members, is not the object that a [SiteValue]
    stands for: [load] keeps such a value as the parsed value that it
    is. *)
Definition asSiteValue (j : JSON) : option SiteValue :=
  match j with
  | JObj [(k1, JStr p); (k2, JStr b); (k3, JArr cs); (k4, JArr ws)] =>
      if isKey "profileImg" k1 && isKey "bio" k2 && isKey "career" k3
         && isKey "works" k4
      then
        match mapM asCareer cs, mapM asWork ws with
        | Some cs', Some ws' => Some (mkValue p b cs' ws')
        | _, _ => None
        end
      else None
  | _ => None
  end.

End Json.
Import Json.

(* ===================================================================== *)
(** * The component [App]: its state and its handlers                     *)
(* ===================================================================== *)

Module App.

(** ** Objects and references

    The source updates the items of [career] and [works] in place
    ([newC[idx].date = ...]), and it passes [SiteData] values around
    without copying them ([setEditingData(data)]).  The items therefore
    live in a store and are held by reference.  The [SiteData] objects
    and their two arrays are never written to once built (every
    handler builds new ones with spreads, [filter] or [map]): they are
    values that hold references. *)

Definition loc : Type := nat.

Record Heap : Type := mkHeap {
  careerObjs : list CareerItem;
  workObjs : list WorkItem
}.

Record SiteData : Type := mkSite {
  profileImg : jsstring;
  bio : jsstring;
  career : list loc;
  works : list loc
}.

(** What [d] holds in [h]; [None] on a reference to no object. *)
Definition content (h : Heap) (d : SiteData) : option SiteValue :=
  match mapM (fun l => careerObjs h !! l) (career d),
        mapM (fun l => workObjs h !! l) (works d) with
  | Some cs, Some ws => Some (mkValue (profileImg d) (bio d) cs ws)
  | _, _ => None
  end.

(** Fresh objects for a content, as [JSON.parse] builds them. *)
Definition alloc (h : Heap) (v : SiteValue) : Heap * SiteData :=
  (mkHeap (careerObjs h ++ careerV v) (workObjs h ++ worksV v),
   mkSite (profileImgV v) (bioV v)
          (seq (length (careerObjs h)) (length (careerV v)))
          (seq (length (workObjs h)) (length (worksV v)))).

(** ** [DEFAULT_DATA] *)

(* "복잡한 정보를 누구나 이해할 수 있는 영상으로 만듭니다.\n단순한 나열을 넘어 구조와 맥락을 중심으로 편집합니다." *)
Definition defaultBio : jsstring :=
  [48373; 51105; 54620; 32; 51221; 48372; 47484; 32; 45572; 44396; 45208; 32;
   51060; 54644; 54624; 32; 49688; 32; 51080; 45716; 32; 50689; 49345; 51004;
   47196; 32; 47564; 46317; 45768; 45796; 46; 10; 45800; 49692; 54620; 32;
   45208; 50676; 51012; 32; 45336; 50612; 32; 44396; 51312; 50752; 32; 47589;
   46973; 51012; 32; 51473; 49900; 51004; 47196; 32; 54200; 51665; 54633;
   45768; 45796; 46]%N.

Definition defaultCareer : list CareerItem :=
  [ (* '2022 — 2025', '한국탐사저널리즘센터', '뉴스 및 다큐멘터리 편집 총괄' *)
    mkCareer [50; 48; 50; 50; 32; 8212; 32; 50; 48; 50; 53]%N
             [54620; 44397; 53456; 49324; 51200; 45328; 47532; 51608; 49468;
              53552]%N
             [45684; 49828; 32; 48143; 32; 45796; 53328; 47704; 53552; 47532;
              32; 54200; 51665; 32; 52509; 44292]%N;
    (* '2021', '경기콘텐츠진흥원', '사업기획 및 프로젝트 총괄' *)
    mkCareer (u16 "2021")
             [44221; 44592; 53080; 53584; 52768; 51652; 55141; 50896]%N
             [49324; 50629; 44592; 54925; 32; 48143; 32; 54532; 47196; 51229;
              53944; 32; 52509; 44292]%N;
    (* '2012 — 2017', '농협은행', '수신 및 은행 업무 전반' *)
    mkCareer [50; 48; 49; 50; 32; 8212; 32; 50; 48; 49; 55]%N
             [45453; 54801; 51008; 54665]%N
             [49688; 49888; 32; 48143; 32; 51008; 54665; 32; 50629; 47924; 32;
              51204; 48152]%N ].

Definition defaultWorks : list WorkItem :=
  [ mkWork 1 (u16 "Visual Archive_1") []
           (u16 "https://www.youtube.com/watch?v=aqz-KE-bpKQ");
    mkWork 2 (u16 "Visual Archive_2") []
           (u16 "https://www.youtube.com/watch?v=dQw4w9WgXcQ");
    mkWork 3 (u16 "Visual Archive_3") [] [];
    mkWork 4 (u16 "Visual Archive_4") [] [];
    mkWork 5 (u16 "Visual Archive_5") [] [];
    mkWork 6 (u16 "Visual Archive_6") [] [] ].

Definition defaultProfileImg : jsstring :=
  u16 "https://images.unsplash.com/photo-1573496359142-b8d87734a5a2?q=80&w=1000&auto=format&fit=crop".

(** The objects of the literal [DEFAULT_DATA], built once when the
    module is loaded. *)
Definition initialHeap : Heap := mkHeap defaultCareer defaultWorks.

Definition DEFAULT_DATA : SiteData :=
  mkSite defaultProfileImg defaultBio [0; 1; 2] [0; 1; 2; 3; 4; 5].

(** The content of [DEFAULT_DATA] as the source text gives it. *)
Definition defaultValue : SiteValue :=
  mkValue defaultProfileImg defaultBio defaultCareer defaultWorks.

(** ** State *)

(** What the user is shown on the side: [alert] and [console.error]. *)
Inductive Notice : Type :=
| Alert (msg : jsstring)
| ConsoleError (msg : jsstring).

(** The second argument of [handleFileUpload]. *)
Inductive Target : Type :=
| TProfile
| TWork (wid : Z).

(** A [FileReader] that has not finished: the closure [onloadend],
    with the [editingData] and the [target] it captured. *)
Record Reader : Type := mkReader {
  captured : SiteData;
  target : Target
}.

(** The state hooks of [App], the entry [aeju_portfolio_data] of
    [localStorage], the notices so far (oldest first) and the readers
    in flight. *)
Record AppState : Type := mkApp {
  heap : Heap;
  data : SiteData;
  isAdminOpen : bool;
  isAuth : bool;
  passInput : jsstring;
  editingData : SiteData;
  storage : option jsstring;
  notices : list Notice;
  readers : list Reader
}.

Definition setHeap (h : Heap) (s : AppState) : AppState :=
  mkApp h (data s) (isAdminOpen s) (isAuth s) (passInput s) (editingData s)
        (storage s) (notices s) (readers s).
Definition setData (d : SiteData) (s : AppState) : AppState :=
  mkApp (heap s) d (isAdminOpen s) (isAuth s) (passInput s) (editingData s)
        (storage s) (notices s) (readers s).
Definition setIsAdminOpen (b : bool) (s : AppState) : AppState :=
  mkApp (heap s) (data s) b (isAuth s) (passInput s) (editingData s)
        (storage s) (notices s) (readers s).
Definition setIsAuth (b : bool) (s : AppState) : AppState :=
  mkApp (heap s) (data s) (isAdminOpen s) b (passInput s) (editingData s)
        (storage s) (notices s) (readers s).
Definition setPassInput (v : jsstring) (s : AppState) : AppState :=
  mkApp (heap s) (data s) (isAdminOpen s) (isAuth s) v (editingData s)
        (storage s) (notices s) (readers s).
Definition setEditingData (d : SiteData) (s : AppState) : AppState :=
  mkApp (heap s) (data s) (isAdminOpen s) (isAuth s) (passInput s) d
        (storage s) (notices s) (readers s).
Definition setStorage (v : option jsstring) (s : AppState) : AppState :=
  mkApp (heap s) (data s) (isAdminOpen s) (isAuth s) (passInput s)
        (editingData s) v (notices s) (readers s).
Definition notify (n : Notice) (s : AppState) : AppState :=
  mkApp (heap s) (data s) (isAdminOpen s) (isAuth s) (passInput s)
        (editingData s) (storage s) (notices s ++ [n]) (readers s).
Definition setReaders (r : list Reader) (s : AppState) : AppState :=
  mkApp (heap s) (data s) (isAdminOpen s) (isAuth s) (passInput s)
        (editingData s) (storage s) (notices s) r.

(** The [useState] initial values, over a given [localStorage]. *)
Definition initialState (stored : option jsstring) : AppState :=
  mkApp initialHeap DEFAULT_DATA false false [] DEFAULT_DATA stored [] [].

(** How a handler ends: it returns, or an exception leaves it. *)
Inductive Completion : Type :=
| Returns
| Throws.

(** ** The load effect ([useEffect], on mount) *)

(** [console.error("Failed to parse saved data", e)] *)
Definition parseDiagnostic : Notice :=
  ConsoleError (u16 "Failed to parse saved data").

(** The state after the effect.  [JSON.parse] returns [any]: a parsed
    value that no [SiteValue] describes is stored all the same by
    [setData(parsed)] and [setEditingData(parsed)], and the state is
    then outside [AppState]: it is the state [s] but for [data] and
    [editingData], which both hold [parsed]. *)
Inductive LoadResult : Type :=
| KeptDefault (s : AppState)       (* no [setData]: the initial state stays *)
| LoadedData (s : AppState)        (* [setData(parsed)], [setEditingData(parsed)] *)
| LoadedOther (s : AppState) (parsed : JSON).

(** The body of the effect once [localStorage.getItem] has returned
    [storage s]. *)
Definition load (s : AppState) : LoadResult :=
  match storage s with
  | None => KeptDefault s
  | Some saved =>
      if truthy saved then
        match JSON_parse saved with
        | Some parsed =>
            match asSiteValue parsed with
            | Some v =>
                let (h, d) := alloc (heap s) v in
                LoadedData (setEditingData d (setData d (setHeap h s)))
            | None => LoadedOther s parsed
            end
        | None => KeptDefault (notify parseDiagnostic s)
        end
      else KeptDefault s
  end.

(** The effect as a whole.  [localStorage.getItem] stands before the
    [try]: where the storage cannot be read (the access throws, as it
    does when the browser denies it), the exception leaves the effect;
    [readable] says whether the access returns. *)
Inductive EffectResult : Type :=
| EffectReturns (r : LoadResult)
| EffectThrows.

Definition loadEffect (readable : bool) (s : AppState) : EffectResult :=
  if readable then EffectReturns (load s) else EffectThrows.

(** ** Persistence *)

(* '저장되었습니다.' *)
Definition savedMsg : jsstring :=
  [51200; 51109; 46104; 50632; 49845; 45768; 45796; 46]%N.

(* '초기화되었습니다.' *)
Definition resetMsg : jsstring :=
  [52488; 44592; 54868; 46104; 50632; 49845; 45768; 45796; 46]%N.

(** The text [JSON.stringify(d)] in the store [h]; [None] only when
    [d] holds a reference to no object, which no state that the
    component reaches does ([wellFormed_contents]). *)
Definition stringifyData (h : Heap) (d : SiteData) : option jsstring :=
  option_map JSON_stringify (content h d).

(** [saveToLocal].  [localStorage.setItem] throws when the quota is
    exceeded or storage is disabled; [writable] says whether it
    accepts the write.  An exception leaves the handler after
    [setData(newData)], which stays queued and is applied. *)
Definition saveToLocal (newData : SiteData) (writable : bool) (s : AppState)
  : AppState * Completion :=
  let s1 := setData newData s in
  if writable then
    let s2 := setStorage (stringifyData (heap s) newData) s1 in
    (notify (Alert savedMsg)
       (setPassInput [] (setIsAuth false (setIsAdminOpen false s2))),
     Returns)
  else (s1, Throws).

(** [resetToDefault]; [confirmed] is the answer to [window.confirm]. *)
Definition resetToDefault (confirmed : bool) (s : AppState) : AppState :=
  if confirmed then
    notify (Alert resetMsg)
      (setIsAuth false
        (setIsAdminOpen false
          (setEditingData DEFAULT_DATA
            (setData DEFAULT_DATA
              (setStorage None s)))))
  else s.

(** ** The admin gate *)

Definition handleAdminTrigger (s : AppState) : AppState :=
  setPassInput [] (setIsAdminOpen true (setEditingData (data s) s)).

(* 'Key가 올바르지 않습니다.' *)
Definition badKeyMsg : jsstring :=
  [75; 101; 121; 44032; 32; 50732; 48148; 47476; 51648; 32; 50506; 49845;
   45768; 45796; 46]%N.

(** The key that [handlePasswordSubmit] compares with. *)
Definition secret : jsstring := u16 "0818".

Definition handlePasswordSubmit (s : AppState) : AppState :=
  if bool_decide (passInput s = secret) then setIsAuth true s
  else setPassInput [] (notify (Alert badKeyMsg) s).

Definition closeAdmin (s : AppState) : AppState :=
  setPassInput [] (setIsAuth false (setIsAdminOpen false s)).

(** ** The editor's handlers *)

Inductive CareerField : Type := CDate | CTitle | CRole.
Inductive WorkField : Type := WTitle | WImg | WUrl.

Definition assignCareer (f : CareerField) (v : jsstring) (c : CareerItem)
  : CareerItem :=
  match f with
  | CDate => mkCareer v (ctitle c) (role c)
  | CTitle => mkCareer (date c) v (role c)
  | CRole => mkCareer (date c) (ctitle c) v
  end.

Definition assignWork (f : WorkField) (v : jsstring) (w : WorkItem)
  : WorkItem :=
  match f with
  | WTitle => mkWork (id w) v (img w) (url w)
  | WImg => mkWork (id w) (title w) v (url w)
  | WUrl => mkWork (id w) (title w) (img w) v
  end.

(** [setEditingData({...editingData, profileImg: v})] *)
Definition setProfileImage (v : jsstring) (s : AppState) : AppState :=
  let e := editingData s in
  setEditingData (mkSite v (bio e) (career e) (works e)) s.

(** [setEditingData({...editingData, bio: v})] *)
Definition setBio (v : jsstring) (s : AppState) : AppState :=
  let e := editingData s in
  setEditingData (mkSite (profileImg e) v (career e) (works e)) s.

(** [const newC = [...editingData.career]; newC[idx].date = v;
    setEditingData({...editingData, career: newC})], and the same for
    [title] and [role].  [newC] holds the references of
    [editingData.career]: the assignment writes to the object that
    both arrays hold.  Out of range, [newC[idx]] is [undefined] and
    the assignment throws a [TypeError]. *)
Definition updateCareerItem (idx : nat) (f : CareerField) (v : jsstring)
           (s : AppState) : AppState * Completion :=
  let e := editingData s in
  let newC := career e in
  match newC !! idx with
  | Some l =>
      let h := heap s in
      let h' := mkHeap (alter (assignCareer f v) l (careerObjs h)) (workObjs h) in
      (setEditingData (mkSite (profileImg e) (bio e) newC (works e))
         (setHeap h' s),
       Returns)
  | None => (s, Throws)
  end.

(** [const newW = [...editingData.works]; newW[idx].title = v;
    setEditingData({...editingData, works: newW})], and the same for
    [img] and [url]. *)
Definition updateWorkField (idx : nat) (f : WorkField) (v : jsstring)
           (s : AppState) : AppState * Completion :=
  let e := editingData s in
  let newW := works e in
  match newW !! idx with
  | Some l =>
      let h := heap s in
      let h' := mkHeap (careerObjs h) (alter (assignWork f v) l (workObjs h)) in
      (setEditingData (mkSite (profileImg e) (bio e) (career e) newW)
         (setHeap h' s),
       Returns)
  | None => (s, Throws)
  end.

(** The new entry of CREATE NEW ENTRY, [now] being [Date.now()]. *)
Definition newWork (now : Z) : WorkItem :=
  mkWork now (u16 "New Archive") [] [].

(** [const newWorks = [...editingData.works, { id: Date.now(), ... }];
    setEditingData({...editingData, works: newWorks})] *)
Definition addWork (now : Z) (s : AppState) : AppState :=
  let e := editingData s in
  let h := heap s in
  let l := length (workObjs h) in
  setEditingData (mkSite (profileImg e) (bio e) (career e) (works e ++ [l]))
    (setHeap (mkHeap (careerObjs h) (workObjs h ++ [newWork now])) s).

(** [arr.filter((_, i) => p(i))], the index starting at [i]. *)
Fixpoint filterIndex {A} (p : nat -> bool) (i : nat) (l : list A) : list A :=
  match l with
  | [] => []
  | x :: rest =>
      if p i then x :: filterIndex p (S i) rest
      else filterIndex p (S i) rest
  end.

(** [const newW = editingData.works.filter((_, i) => i !== idx);
    setEditingData({...editingData, works: newW})] *)
Definition removeWork (idx : nat) (s : AppState) : AppState :=
  let e := editingData s in
  let newW := filterIndex (fun i => negb (Nat.eqb i idx)) 0 (works e) in
  setEditingData (mkSite (profileImg e) (bio e) (career e) newW) s.

(** ** Image upload *)

(** [handleFileUpload]: without a file it returns; with one it starts
    a [FileReader] whose [onloadend] closes over the [editingData] of
    the render in which the file was chosen. *)
Definition handleFileUpload (hasFile : bool) (t : Target) (s : AppState)
  : AppState :=
  if hasFile then setReaders (readers s ++ [mkReader (editingData s) t]) s
  else s.

(** [editingData.works.map(w => w.id === target.id ? { ...w, img:
    base64 } : w)]: a matching item is replaced by a new object. *)
Fixpoint swapThumbnail (wid : Z) (base64 : jsstring) (h : Heap)
         (ws : list loc) : Heap * list loc :=
  match ws with
  | [] => (h, [])
  | l :: rest =>
      match workObjs h !! l with
      | Some w =>
          if Z.eqb (id w) wid then
            let l' := length (workObjs h) in
            let h1 := mkHeap (careerObjs h)
                             (workObjs h ++ [assignWork WImg base64 w]) in
            let (h2, rest') := swapThumbnail wid base64 h1 rest in
            (h2, l' :: rest')
          else
            let (h2, rest') := swapThumbnail wid base64 h rest in
            (h2, l :: rest')
      | None =>
          let (h2, rest') := swapThumbnail wid base64 h rest in
          (h2, l :: rest')
      end
  end.

(** [reader.onloadend] of the reader number [i], [base64] being
    [reader.result]: the result goes into the captured [editingData],
    and that becomes the [editingData] of the component.  The source
    takes [reader.result] for a string ([as string]), which it is when
    the read succeeds; after a read that fails it is [null], which is
    no value of a [SiteData], and that completion is not covered. *)
Definition readerDone (i : nat) (base64 : jsstring) (s : AppState) : AppState :=
  match readers s !! i with
  | None => s
  | Some r =>
      let e := captured r in
      let s1 := setReaders (delete i (readers s)) s in
      match target r with
      | TProfile =>
          setEditingData (mkSite base64 (bio e) (career e) (works e)) s1
      | TWork wid =>
          let (h, newWorks) := swapThumbnail wid base64 (heap s) (works e) in
          setEditingData (mkSite (profileImg e) (bio e) (career e) newWorks)
            (setHeap h s1)
      end
  end.

(** ** Events *)

(** What can happen to the mounted component. *)
Inductive Event : Type :=
| AdminTrigger                                   (* the admin icon *)
| TypePass (v : jsstring)                        (* the key input *)
| PasswordSubmit                                 (* VERIFY *)
| CloseAdmin                                     (* EXIT, the cross, CANCEL *)
| SetProfileImage (v : jsstring)
| SetBio (v : jsstring)
| UpdateCareerItem (idx : nat) (f : CareerField) (v : jsstring)
| UpdateWorkField (idx : nat) (f : WorkField) (v : jsstring)
| AddWork (now : Z)                              (* CREATE NEW ENTRY *)
| RemoveWork (idx : nat)                         (* PURGE *)
| Commit (writable : bool)                       (* COMMIT ARCHIVE *)
| FactoryReset (confirmed : bool)                (* FACTORY RESET *)
| ChooseFile (t : Target)                        (* a file input changes *)
| ReaderDone (i : nat) (base64 : jsstring).      (* [onloadend] *)

(** The controls of the render of [s]: the modal covers the page, shows
    the key form until [isAuth], the editor after; a field input or a
    PURGE button exists for each entry of the working copy, with the
    index of that entry.  These are the controls whose handlers read
    the state [s].  While the modal leaves, [AnimatePresence] keeps its
    last render on screen until the exit animation ends: the handlers
    of those controls read the state of that earlier render, and a
    click on one of them is no event of [Event]. *)
Definition available (s : AppState) (e : Event) : bool :=
  match e with
  | AdminTrigger => negb (isAdminOpen s)
  | TypePass _ | PasswordSubmit => isAdminOpen s && negb (isAuth s)
  | CloseAdmin => isAdminOpen s
  | ReaderDone i _ => bool_decide (i < length (readers s))
  | UpdateCareerItem idx _ _ =>
      isAdminOpen s && isAuth s
      && bool_decide (idx < length (career (editingData s)))
  | UpdateWorkField idx _ _ | RemoveWork idx =>
      isAdminOpen s && isAuth s
      && bool_decide (idx < length (works (editingData s)))
  | _ => isAdminOpen s && isAuth s
  end.

Definition handle (e : Event) (s : AppState) : AppState * Completion :=
  match e with
  | AdminTrigger => (handleAdminTrigger s, Returns)
  | TypePass v => (setPassInput v s, Returns)
  | PasswordSubmit => (handlePasswordSubmit s, Returns)
  | CloseAdmin => (closeAdmin s, Returns)
  | SetProfileImage v => (setProfileImage v s, Returns)
  | SetBio v => (setBio v s, Returns)
  | UpdateCareerItem idx f v => updateCareerItem idx f v s
  | UpdateWorkField idx f v => updateWorkField idx f v s
  | AddWork now => (addWork now s, Returns)
  | RemoveWork idx => (removeWork idx s, Returns)
  | Commit writable => saveToLocal (editingData s) writable s
  | FactoryReset confirmed => (resetToDefault confirmed s, Returns)
  | ChooseFile t => (handleFileUpload true t s, Returns)
  | ReaderDone i base64 => (readerDone i base64 s, Returns)
  end.

(** One event, if its control is on screen. *)
Definition step (s : AppState) (e : Event) : option AppState :=
  if available s e then Some (fst (handle e s)) else None.

Fixpoint runEvents (s : AppState) (es : list Event) : option AppState :=
  match es with
  | [] => Some s
  | e :: rest =>
      match step s e with
      | Some s' => runEvents s' rest
      | None => None
      end
  end.

(** The committed content: what the page shows. *)
Definition committed (s : AppState) : option SiteValue :=
  content (heap s) (data s).

(** The working copy's content: what the editor shows. *)
Definition working (s : AppState) : option SiteValue :=
  content (heap s) (editingData s).

(** The state of the gate. *)
Inductive Gate : Type := Closed | Locked | Unlocked.

Definition gate (s : AppState) : Gate :=
  if isAdminOpen s then (if isAuth s then Unlocked else Locked) else Closed.

End App.
Import App.

(* ===================================================================== *)
(** * Notions the statements about [App] use                              *)
(* ===================================================================== *)

Module AppSpec.

(** Every reference of [d] is to an object of [h]. *)
Definition validSite (h : Heap) (d : SiteData) : Prop :=
  Forall (fun l => l < length (careerObjs h)) (career d) /\
  Forall (fun l => l < length (workObjs h)) (works d).

(** The state holds no reference to no object. *)
Definition wellFormed (s : AppState) : Prop :=
  validSite (heap s) (data s) /\
  validSite (heap s) (editingData s) /\
  Forall (fun r => validSite (heap s) (captured r)) (readers s) /\
  validSite (heap s) DEFAULT_DATA.

(** [h'] has every object of [h]: no object is ever removed from the
    store. *)
Definition heapLe (h h' : Heap) : Prop :=
  length (careerObjs h) <= length (careerObjs h') /\
  length (workObjs h) <= length (workObjs h').

(** An integer that a JavaScript number holds exactly, and that
    [JSON.stringify] prints in decimal. *)
Definition safeInteger (z : Z) : Prop :=
  (- 9007199254740991 <= z <= 9007199254740991)%Z.

(** A content whose every [id] is such an integer. *)
Definition serializable (v : SiteValue) : Prop :=
  Forall (fun w => safeInteger (id w)) (worksV v).

(** A handler that took [s] to [s'] and ended with [c] reported
    something: it threw, or it left a new notice. *)
Definition reported (s s' : AppState) (c : Completion) : Prop :=
  c = Throws \/ notices s' <> notices s.

(** The editor's events whose handlers build new objects and write to
    none that exists. *)
Definition copyOnWrite (e : Event) : bool :=
  match e with
  | SetProfileImage _ | SetBio _ | AddWork _ | RemoveWork _ => true
  | _ => false
  end.

(** Opening the editor: the admin icon, the key, VERIFY. *)
Definition unlock : list Event :=
  [AdminTrigger; TypePass secret; PasswordSubmit].

(** The [id]s of a content's works, in order. *)
Definition ids (v : SiteValue) : list Z := map id (worksV v).

(** A content with other works. *)
Definition withWorks (ws : list WorkItem) (v : SiteValue) : SiteValue :=
  mkValue (profileImgV v) (bioV v) (careerV v) ws.

(** The default content with another date in its first career item. *)
Definition defaultWithFirstDate (v : jsstring) : SiteValue :=
  mkValue defaultProfileImg defaultBio
    (match defaultCareer with
     | c :: rest => assignCareer CDate v c :: rest
     | [] => []
     end)
    defaultWorks.

End AppSpec.
Import AppSpec.

(* ===================================================================== *)
(** * The render of the page over a parsed value                          *)
(* ===================================================================== *)

(** After [setData(parsed)] the component renders with [data] holding
    whatever [JSON.parse] built.  The render reads [data] in this
    order: [{data.bio}], [src={data.profileImg}], [data.career.map]
    with the children [{job.date}], [{job.title}], [{job.role}], and
    [data.works.map] with [key={work.id}], [src={getThumbnail(work)}],
    [alt={work.title}] and the children [{work.id}], [{work.title}].
    Nothing in the component catches an exception of the render: the
    page is then not rendered. *)

Module Render.

(** What an expression of the render evaluates to: a parsed value, or
    [undefined]. *)
Inductive Value : Type :=
| Undefined
| Parsed (j : JSON).

(** An evaluation returns, or throws a [TypeError]. *)
Inductive Access (A : Type) : Type :=
| Got (a : A)
| TypeError.
Arguments Got {A} a.
Arguments TypeError {A}.

Inductive RenderOutcome : Type :=
| Rendered
| RenderThrows.

(** The value of the member [k] of an object. *)
Fixpoint ownMember (k : jsstring) (ms : list (jsstring * JSON)) : option JSON :=
  match ms with
  | [] => None
  | (k', v) :: rest => if bool_decide (k = k') then Some v else ownMember k rest
  end.

(** [v.k], for the names that the render reads ([bio], [profileImg],
    [career], [works], [date], [title], [role], [id], [img], [url]):
    no prototype defines one of them, so that on an array, a string, a
    number or a boolean the value is [undefined]; on [null] and on
    [undefined] the read throws. *)
Definition getField (v : Value) (k : string) : Access Value :=
  match v with
  | Undefined => TypeError
  | Parsed JNull => TypeError
  | Parsed (JObj ms) =>
      Got (match ownMember (u16 k) ms with
           | Some x => Parsed x
           | None => Undefined
           end)
  | Parsed _ => Got Undefined
  end.

(** A parsed value as a React child [{v}]: a string or a number is
    text, [null] and a boolean render nothing, an array renders its
    items, an object is refused (Objects are not valid as a React
    child). *)
Fixpoint childOk (j : JSON) : bool :=
  match j with
  | JObj _ => false
  | JArr items => forallb childOk items
  | _ => true
  end.

Definition renderChild (v : Value) : RenderOutcome :=
  match v with
  | Undefined => Rendered
  | Parsed j => if childOk j then Rendered else RenderThrows
  end.

(** The truthiness of a value; [None] where it depends on the
    floating-point value of a literal with a fraction or an exponent,
    which is not modelled. *)
Definition truthyValue (v : Value) : option bool :=
  match v with
  | Undefined => Some false
  | Parsed JNull => Some false
  | Parsed (JBool b) => Some b
  | Parsed (JNum n) => Some (negb (n =? 0)%Z)
  | Parsed (JNumLit _) => None
  | Parsed (JStr s) => Some (truthy s)
  | Parsed (JArr _) => Some true
  | Parsed (JObj _) => Some true
  end.

(** One step after another; [None] where the outcome is not
    determined. *)
Definition andThen (a b : option RenderOutcome) : option RenderOutcome :=
  match a with
  | Some Rendered => b
  | Some RenderThrows => Some RenderThrows
  | None => None
  end.

(** [url.match(regExp)] in [getYoutubeId]: on a string it returns; on
    [undefined] and [null] the read of [match] throws, and on any other
    value [url.match] is no function. *)
Definition matchAccess (url : Value) : RenderOutcome :=
  match url with
  | Parsed (JStr _) => Rendered
  | _ => RenderThrows
  end.

(** [getThumbnail(work)], as far as it returns or throws: [work.img]
    is returned when truthy, and [getYoutubeId(work.url)] is called
    otherwise.  What it returns goes into the attribute [src], which
    takes any value. *)
Definition thumbnailAccess (work : Value) : option RenderOutcome :=
  match getField work "img" with
  | TypeError => Some RenderThrows
  | Got i =>
      match truthyValue i with
      | Some true => Some Rendered
      | Some false =>
          match getField work "url" with
          | TypeError => Some RenderThrows
          | Got u => Some (matchAccess u)
          end
      | None => None
      end
  end.

(** The callback of [data.career.map]. *)
Definition renderJob (job : JSON) : option RenderOutcome :=
  match getField (Parsed job) "date", getField (Parsed job) "title",
        getField (Parsed job) "role" with
  | Got d, Got t, Got r =>
      andThen (Some (renderChild d))
        (andThen (Some (renderChild t)) (Some (renderChild r)))
  | _, _, _ => Some RenderThrows
  end.

(** The callback of [data.works.map]. *)
Definition renderWork (work : JSON) : option RenderOutcome :=
  match getField (Parsed work) "id", getField (Parsed work) "title" with
  | Got wid, Got t =>
      andThen (thumbnailAccess (Parsed work))
        (andThen (Some (renderChild wid)) (Some (renderChild t)))
  | _, _ => Some RenderThrows
  end.

(** [v.map(callback)]: on an array the callback runs on every item, in
    order; on [undefined] and [null] the read of [map] throws, and on
    any other value [v.map] is no function. *)
Definition renderItems (callback : JSON -> option RenderOutcome) (v : Value)
  : option RenderOutcome :=
  match v with
  | Parsed (JArr items) =>
      fold_right (fun item rest => andThen (callback item) rest)
                 (Some Rendered) items
  | _ => Some RenderThrows
  end.

(** The render of the page with [data] holding [parsed]. *)
Definition renderPage (parsed : JSON) : option RenderOutcome :=
  match getField (Parsed parsed) "bio", getField (Parsed parsed) "career",
        getField (Parsed parsed) "works" with
  | Got b, Got cs, Got ws =>
      andThen (Some (renderChild b))
        (andThen (renderItems renderJob cs) (renderItems renderWork ws))
  | _, _, _ => Some RenderThrows
  end.

(** [parsed] is an object that holds an array under [career] and an
    array under [works]. *)
Definition hasLists (parsed : JSON) : bool :=
  match parsed with
  | JObj ms =>
      match ownMember (u16 "career") ms, ownMember (u16 "works") ms with
      | Some (JArr _), Some (JArr _) => true
      | _, _ => false
      end
  | _ => false
  end.

(** The render that follows the load effect. *)
Definition renderAfter (r : LoadResult) : option RenderOutcome :=
  match r with
  | KeptDefault s | LoadedData s =>
      match committed s with
      | Some v => renderPage (toJSON v)
      | None => None
      end
  | LoadedOther _ parsed => renderPage parsed
  end.

End Render.
Import Render.

(* ===================================================================== *)
(** * The page and the editor form: what the render reads               *)
(* ===================================================================== *)

Module Page.

(** [s.startsWith(prefix)] *)
Fixpoint startsWith (prefix s : jsstring) : bool :=
  match prefix, s with
  | [], _ => true
  | a :: prefix', c :: s' => (c =? a)%N && startsWith prefix' s'
  | _ :: _, [] => false
  end.

(** The text input of the portrait:
    [value={editingData.profileImg.startsWith('data:')
            ? 'Local file uploaded' : editingData.profileImg}] *)
Definition profileInputValue (e : SiteData) : jsstring :=
  if startsWith (u16 "data:") (profileImg e) then u16 "Local file uploaded"
  else profileImg e.

(** The image input of a work:
    [value={w.img.startsWith('data:') ? 'Local file' : w.img}] *)
Definition workImgInputValue (w : WorkItem) : jsstring :=
  if startsWith (u16 "data:") (img w) then u16 "Local file"
  else img w.

(** What a click on a card of the grid does. *)
Inductive LinkEffect : Type :=
| WindowOpen (href target features : jsstring)   (* [window.open] *)
| LinkAlert (msg : jsstring).                    (* [alert] *)

(* '영상 링크가 등록되지 않았습니다.' *)
Definition noLinkMsg : jsstring :=
  [50689; 49345; 32; 47553; 53356; 44032; 32; 46321; 47197; 46104; 51648; 32;
   50506; 50520; 49845; 45768; 45796; 46]%N.

(** [openWorkLink] *)
Definition openWorkLink (url : jsstring) : LinkEffect :=
  if truthy url then WindowOpen url (u16 "_blank") (u16 "noopener,noreferrer")
  else LinkAlert noLinkMsg.

(** A card of the grid, [data.works.map((work, i) => ...)]: its [key],
    the [src] and the [alt] of its image, and its [onClick]. *)
Record Card : Type := mkCard {
  cardKey : Z;
  cardSrc : jsstring;
  cardAlt : jsstring;
  cardClick : LinkEffect
}.

Definition workCard (work : WorkItem) : Card :=
  mkCard (id work) (getThumbnail work) (title work) (openWorkLink (url work)).

Definition worksGrid (v : SiteValue) : list Card := map workCard (worksV v).

End Page.
Import Page.

(* ===================================================================== *)
(** * Notions the statements about sessions use                          *)
(* ===================================================================== *)

Module SessionSpec.

(** The component once mounted: the state after the load effect, when
    that leaves a [SiteData]. *)
Definition mounted (s : AppState) : Prop :=
  exists stored,
    load (initialState stored) = KeptDefault s \/
    load (initialState stored) = LoadedData s.

(** The field inputs of a career item or of a work: their handlers
    assign to the item object. *)
Definition editsInPlace (e : Event) : bool :=
  match e with
  | UpdateCareerItem _ _ _ | UpdateWorkField _ _ _ => true
  | _ => false
  end.

(** The events whose handlers call [setData]. *)
Definition setsData (e : Event) : bool :=
  match e with
  | Commit _ | FactoryReset true => true
  | _ => false
  end.

(** The objects of the literal [DEFAULT_DATA] are as the source text
    gives them. *)
Definition defaultsIntact (h : Heap) : Prop :=
  take 3 (careerObjs h) = defaultCareer /\
  take 6 (workObjs h) = defaultWorks.

(** The works of a content after [works.map(w => w.id === wid ?
    { ...w, img: base64 } : w)]. *)
Definition withThumbnail (wid : Z) (base64 : jsstring) (ws : list WorkItem)
  : list WorkItem :=
  map (fun w => if Z.eqb (id w) wid then assignWork WImg base64 w else w) ws.

(** A state that the component reaches: some events after a mount. *)
Definition reachable (s : AppState) : Prop :=
  exists s0 es, mounted s0 /\ runEvents s0 es = Some s.

(** No object is held twice by an array of [d]. *)
Definition distinctRefs (d : SiteData) : Prop :=
  NoDup (career d) /\ NoDup (works d).

(** No array of the state holds an object twice. *)
Definition unshared (s : AppState) : Prop :=
  distinctRefs (data s) /\ distinctRefs (editingData s) /\
  Forall (fun r => distinctRefs (captured r)) (readers s).

(** The [id]s of the works that [d] holds in [h], in order. *)
Definition workIds (h : Heap) (d : SiteData) : option (list Z) :=
  option_map (map id) (mapM (fun l => workObjs h !! l) (works d)).

(** The works that [d] holds have pairwise distinct [id]s: the [key]s
    of the grid are distinct. *)
Definition distinctIdsIn (h : Heap) (d : SiteData) : Prop :=
  forall zs, workIds h d = Some zs -> NoDup zs.

Definition distinctIds (s : AppState) : Prop :=
  distinctIdsIn (heap s) (data s) /\
  distinctIdsIn (heap s) (editingData s) /\
  Forall (fun r => distinctIdsIn (heap s) (captured r)) (readers s) /\
  distinctIdsIn (heap s) DEFAULT_DATA.

(** The clock value of a CREATE NEW ENTRY is the [id] of no work of
    the working copy. *)
Definition freshStamp (s : AppState) (e : Event) : Prop :=
  match e with
  | AddWork now => forall w, working s = Some w -> ~ In now (ids w)
  | _ => True
  end.

(** Every CREATE NEW ENTRY of a run happens at a fresh clock value. *)
Fixpoint freshRun (s : AppState) (es : list Event) : Prop :=
  match es with
  | [] => True
  | e :: rest =>
      freshStamp s e /\
      match step s e with
      | Some s' => freshRun s' rest
      | None => True
      end
  end.

(** The events that write or delete the snapshot. *)
Definition touchesStorage (e : Event) : bool :=
  match e with
  | Commit true | FactoryReset true => true
  | _ => false
  end.

End SessionSpec.
Import SessionSpec.

(* ===================================================================== *)
(** * What the expression of [getYoutubeId] computes: the notions        *)
(* ===================================================================== *)

Module ResolverSpec.

(** Length of the longest prefix of [s] made of characters of [cs]. *)
Fixpoint runLen (cs : CharSet) (s : jsstring) : nat :=
  match s with
  | c :: s' => if csMatch cs c then S (runLen cs s') else 0
  | [] => 0
  end.

(** The first success of [f] at [n], [n - 1], ..., [0]. *)
Fixpoint tryDown {A} (f : nat -> option A) (n : nat) : option A :=
  match f n with
  | Some r => Some r
  | None => match n with 0 => None | S m => tryDown f m end
  end.

Fixpoint isPrefixb (l s : jsstring) : bool :=
  match l, s with
  | [], _ => true
  | a :: l', c :: s' => (c =? a)%N && isPrefixb l' s'
  | _ :: _, [] => false
  end.

(** The short-link delimiter [youtu.be/] with its wildcard. *)
Definition shortLink (s : jsstring) : bool :=
  isPrefixb (u16 "youtu") s &&
  match drop 5 s with
  | c :: t => negb (isLineTerminator c) && isPrefixb (u16 "be/") t
  | [] => false
  end.

(** The delimiter [u/\w/]. *)
Definition userForm (s : jsstring) : bool :=
  isPrefixb (u16 "u/") s &&
  match drop 2 s with
  | c :: t => isWordChar c && isPrefixb (u16 "/") t
  | [] => false
  end.

(** The length of the delimiter at the head of [s], if there is one. *)
Definition delimLen (s : jsstring) : option nat :=
  if shortLink s then Some 9
  else if isPrefixb (u16 "v/") s then Some 2
  else if userForm s then Some 4
  else if isPrefixb (u16 "embed/") s then Some 6
  else if isPrefixb (u16 "watch?v=") s then Some 8
  else if isPrefixb (u16 "&v=") s then Some 3
  else None.

(** The largest index [j <= i] at which a delimiter starts, with the
    delimiter's length. *)
Fixpoint lastDelim (s : jsstring) (i : nat) : option (nat * nat) :=
  match delimLen (drop i s) with
  | Some n => Some (i, n)
  | None => match i with 0 => None | S j => lastDelim s j end
  end.

(** The longest run of non-stop characters of [s]. *)
Definition idRun (s : jsstring) : jsstring :=
  take (runLen (CsNoneOf stops) s) s.

(** ** The URL shapes, declaratively *)

(** The delimiters that may precede a video identifier. *)
Inductive Delim : jsstring -> Prop :=
| DShort c : isLineTerminator c = false ->
             Delim (u16 "youtu" ++ c :: u16 "be/")   (* short link *)
| DV : Delim (u16 "v/")
| DUser c : isWordChar c = true ->
            Delim (u16 "u/" ++ c :: u16 "/")
| DEmbed : Delim (u16 "embed/")                      (* embed form *)
| DWatch : Delim (u16 "watch?v=")                    (* watch parameter *)
| DAmp : Delim (u16 "&v=").

Definition noLineTerminator (s : jsstring) : Prop :=
  Forall (fun c => isLineTerminator c = false) s.

Definition noStop (s : jsstring) : Prop :=
  Forall (fun c => memN c stops = false) s.

(** [rest] is empty or starts with one of [#&?]. *)
Definition stopsAtHead (rest : jsstring) : Prop :=
  match rest with
  | [] => True
  | c :: _ => memN c stops = true
  end.

(** [url] reads [pre ++ d ++ ident ++ rest], where [pre] has no line
    terminator, [d] is the last delimiter that such a prefix precedes,
    and [ident] is the longest run of characters other than [#&?]. *)
Definition Extracts (url ident : jsstring) : Prop :=
  exists pre d rest,
    url = pre ++ d ++ ident ++ rest /\
    noLineTerminator pre /\ Delim d /\
    noStop ident /\ stopsAtHead rest /\
    (forall pre' d' rest',
        url = pre' ++ d' ++ rest' -> noLineTerminator pre' -> Delim d' ->
        length pre' <= length pre).

(** The identifier the expression captures, whatever its length. *)
Definition extract (url : jsstring) : option jsstring :=
  match lastDelim url (runLen CsAny url) with
  | Some (i, n) => Some (idRun (drop (i + n) url))
  | None => None
  end.

End ResolverSpec.
Import ResolverSpec.

(* ===================================================================== *)
(** * The matcher and the resolver: facts                                 *)
(* ===================================================================== *)

Module ResolverFacts.

Lemma truthy_true s : truthy s = true <-> s <> [].
Proof. destruct s; simpl; split; congruence. Qed.

Lemma tryDown_S {A} (f : nat -> option A) n :
  tryDown f (S n) =
  match tryDown (fun i => f (S i)) n with
  | Some r => Some r
  | None => f 0
  end.
Proof.
  induction n as [|n IH].
  - simpl. destruct (f 1); [reflexivity|]. destruct (f 0); reflexivity.
  - change (tryDown f (S (S n))) with
      (match f (S (S n)) with Some r => Some r | None => tryDown f (S n) end).
    rewrite IH. simpl. destruct (f (S (S n))); reflexivity.
Qed.

Lemma tryDown_ext {A} (f g : nat -> option A) n :
  (forall i, i <= n -> f i = g i) -> tryDown f n = tryDown g n.
Proof.
  induction n as [|n IH]; intros H; simpl.
  - rewrite (H 0) by lia. reflexivity.
  - rewrite (H (S n)) by lia. rewrite IH; [reflexivity|].
    intros i Hi. apply H. lia.
Qed.

(** The greedy star backtracks from the longest run downwards. *)
Lemma star_tryDown cs s pos caps k :
  star cs s pos caps k =
  tryDown (fun i => k (drop i s) (pos + i) caps) (runLen cs s).
Proof.
  revert pos. induction s as [|c s IH]; intros pos; simpl.
  - rewrite Nat.add_0_r. destruct (k [] pos caps); reflexivity.
  - destruct (csMatch cs c).
    + rewrite tryDown_S, IH. simpl.
      rewrite (tryDown_ext _ (fun i => k (drop i s) (pos + S i) caps)).
      * rewrite Nat.add_0_r. reflexivity.
      * intros i _. f_equal. lia.
    + simpl. rewrite Nat.add_0_r. destruct (k (c :: s) pos caps); reflexivity.
Qed.

(** With a continuation that succeeds, the star keeps the longest run. *)
Lemma star_greedy cs s pos caps k r :
  k (drop (runLen cs s) s) (pos + runLen cs s) caps = Some r ->
  star cs s pos caps k = Some r.
Proof.
  intros H. rewrite star_tryDown.
  destruct (runLen cs s); simpl in *; rewrite H; reflexivity.
Qed.

Lemma isPrefixb_spec l s :
  isPrefixb l s = true <-> exists t, s = l ++ t.
Proof.
  revert s. induction l as [|a l IH]; intros s; simpl.
  - split; [intros _; exists s; reflexivity | reflexivity].
  - destruct s as [|c s].
    + split; [discriminate | intros [t Ht]; discriminate].
    + rewrite andb_true_iff, N.eqb_eq, IH. split.
      * intros [-> [t ->]]. exists t. reflexivity.
      * intros [t Ht]. injection Ht as -> ->. split; [reflexivity | eauto].
Qed.

Lemma rmatch_lit l s pos caps k :
  rmatch (lit l) s pos caps k =
  if isPrefixb l s then k (drop (length l) s) (pos + length l) caps
  else None.
Proof.
  revert s pos. induction l as [|a l IH]; intros s pos; simpl.
  - rewrite Nat.add_0_r. reflexivity.
  - destruct s as [|c s]; [reflexivity|]. simpl.
    destruct (c =? a)%N; simpl; [|reflexivity].
    rewrite IH. replace (S pos + length l) with (pos + S (length l)) by lia.
    reflexivity.
Qed.

Lemma isPrefixb_u16_cons a l c s :
  isPrefixb (u16 (String a l)) (c :: s) =
  (c =? N_of_ascii a)%N && isPrefixb (u16 l) s.
Proof. reflexivity. Qed.

Lemma rmatch_RAlt r1 r2 s pos caps k :
  rmatch (RAlt r1 r2) s pos caps k =
  match rmatch r1 s pos caps k with
  | Some c => Some c
  | None => rmatch r2 s pos caps k
  end.
Proof. reflexivity. Qed.

Lemma rmatch_lit_atom_lit a cs b s pos caps k :
  rmatch (RSeq (lit a) (RSeq (RAtom cs) (lit b))) s pos caps k =
  if isPrefixb a s &&
     match drop (length a) s with
     | c :: t => csMatch cs c && isPrefixb b t
     | [] => false
     end
  then k (drop (length a + S (length b)) s)
         (pos + (length a + S (length b))) caps
  else None.
Proof.
  cbn [rmatch]. rewrite rmatch_lit.
  destruct (isPrefixb a s); [|reflexivity]. cbn [andb].
  rewrite <- (drop_drop s (S (length b)) (length a)), Nat.add_comm.
  destruct (drop (length a) s) as [|c t]; [reflexivity|].
  destruct (csMatch cs c); [|reflexivity]. cbn [andb].
  rewrite rmatch_lit. destruct (isPrefixb b t); [|reflexivity].
  cbn [drop]. f_equal. lia.
Qed.

(** One alternative decided by the first character [v] of the input. *)
Ltac head_case c v :=
  destruct (N.eqb_spec c v) as [->|?];
  [ cbn [N.eqb Pos.eqb andb];
    match goal with
    | |- context [if ?b then ?K else None] =>
        destruct b; [destruct K|]; reflexivity
    end
  | cbn [andb] ].

Lemma rmatch_delimiters s pos caps k :
  rmatch delimiters s pos caps k =
  match delimLen s with
  | Some n => k (drop n s) (pos + n) caps
  | None => None
  end.
Proof.
  unfold delimiters, delimLen, shortLink, userForm.
  rewrite !rmatch_RAlt, !rmatch_lit_atom_lit, !rmatch_lit.
  destruct s as [|c s]; [reflexivity|].
  rewrite !isPrefixb_u16_cons.
  repeat match goal with
         | |- context [length (u16 ?l)] =>
             let n := eval compute in (length (u16 l)) in
             change (length (u16 l)) with n
         | |- context [N_of_ascii ?a] =>
             let v := eval vm_compute in (N_of_ascii a) in
             change (N_of_ascii a) with v
         end.
  cbn [csMatch Nat.add].
  head_case c 121%N. head_case c 118%N. head_case c 117%N.
  head_case c 101%N. head_case c 119%N. head_case c 38%N.
  reflexivity.
Qed.

Lemma star_total cs s pos caps :
  star cs s pos caps (fun _ _ c => Some c) = Some caps.
Proof. apply star_greedy. reflexivity. Qed.

Lemma rmatch_tail s pos caps :
  rmatch (RSeq (RGroup 2 (RStar (CsNoneOf stops))) (RStar CsAny))
         s pos caps (fun _ _ c => Some c)
  = Some (setCap 2 (idRun s) caps).
Proof.
  cbn [rmatch]. apply star_greedy. rewrite star_total.
  unfold idRun. do 3 f_equal. lia.
Qed.

Lemma rmatch_regExp s pos :
  rmatch regExp s pos noCaps (fun _ _ c => Some c) =
  if Nat.eqb pos 0 then
    match lastDelim s (runLen CsAny s) with
    | Some (i, n) =>
        Some (setCap 2 (idRun (drop (i + n) s))
                (setCap 1 (take n (drop i s)) noCaps))
    | None => None
    end
  else None.
Proof.
  change (rmatch regExp s pos noCaps (fun _ _ c => Some c)) with
    (if Nat.eqb pos 0 then
       star CsAny s pos noCaps (fun s1 p1 c1 =>
         rmatch delimiters s1 p1 c1 (fun s2 p2 c2 =>
           rmatch (RSeq (RGroup 2 (RStar (CsNoneOf stops))) (RStar CsAny))
                  s2 p2 (setCap 1 (take (p2 - p1) s1) c2)
                  (fun _ _ c => Some c)))
     else None).
  destruct (Nat.eqb_spec pos 0) as [->|]; [|reflexivity].
  rewrite star_tryDown.
  generalize (runLen CsAny s) as m. intros m.
  induction m as [|m IH]; cbn [tryDown lastDelim];
    rewrite rmatch_delimiters;
    (destruct (delimLen (drop _ s)) as [n|]; [|try exact IH; reflexivity]);
    rewrite rmatch_tail, drop_drop; cbn [Nat.add];
    do 4 f_equal; lia.
Qed.

Lemma execFrom_regExp_S s pos : execFrom regExp s (S pos) = None.
Proof.
  revert pos. induction s as [|c s IH]; intros pos;
    cbn [execFrom]; rewrite rmatch_regExp; cbn [Nat.eqb]; auto.
Qed.

Lemma exec_regExp s :
  exec regExp s =
  match lastDelim s (runLen CsAny s) with
  | Some (i, n) =>
      Some (setCap 2 (idRun (drop (i + n) s))
              (setCap 1 (take n (drop i s)) noCaps))
  | None => None
  end.
Proof.
  unfold exec. destruct s as [|c s]; cbn [execFrom];
    rewrite rmatch_regExp; cbn [Nat.eqb].
  - destruct (lastDelim _ _) as [[i n]|]; reflexivity.
  - rewrite execFrom_regExp_S.
    destruct (lastDelim _ _) as [[i n]|]; reflexivity.
Qed.

(** Group 2 takes part in every match. *)
Lemma regExp_group2 s m : exec regExp s = Some m -> m 2 <> None.
Proof.
  rewrite exec_regExp. destruct (lastDelim _ _) as [[i n]|]; [|discriminate].
  intros [= <-]. discriminate.
Qed.

(** [getYoutubeId] without the matcher. *)
Lemma getYoutubeId_eq s :
  getYoutubeId s =
  match lastDelim s (runLen CsAny s) with
  | Some (i, n) =>
      let g := idRun (drop (i + n) s) in
      if Nat.eqb (length g) 11 then Some g else None
  | None => None
  end.
Proof.
  unfold getYoutubeId. rewrite exec_regExp.
  destruct (lastDelim _ _) as [[i n]|]; reflexivity.
Qed.

Lemma delimLen_Delim d t : Delim d -> delimLen (d ++ t) = Some (length d).
Proof.
  intros [c Hc| |c Hc| | |]; unfold delimLen, shortLink, userForm; simpl;
    rewrite ?Hc; reflexivity.
Qed.

Lemma Delim_delimLen s n :
  delimLen s = Some n -> exists d t, s = d ++ t /\ Delim d /\ length d = n.
Proof.
  unfold delimLen, shortLink, userForm.
  destruct (isPrefixb (u16 "youtu") s && _) eqn:E1.
  { intros [= <-]. apply andb_true_iff in E1 as [E1 E2].
    apply isPrefixb_spec in E1 as [t ->].
    change 5 with (length (u16 "youtu")) in E2. rewrite drop_app_length in E2.
    destruct t as [|c t]; [discriminate|].
    apply andb_true_iff in E2 as [E2 E3].
    apply negb_true_iff in E2. apply isPrefixb_spec in E3 as [t' ->].
    exists (u16 "youtu" ++ c :: u16 "be/"), t'.
    split; [reflexivity|]. split; [now constructor | reflexivity]. }
  destruct (isPrefixb (u16 "v/") s) eqn:E2.
  { intros [= <-]. apply isPrefixb_spec in E2 as [t ->].
    exists (u16 "v/"), t. repeat split; constructor. }
  destruct (isPrefixb (u16 "u/") s && _) eqn:E3.
  { intros [= <-]. apply andb_true_iff in E3 as [E3 E4].
    apply isPrefixb_spec in E3 as [t ->].
    change 2 with (length (u16 "u/")) in E4. rewrite drop_app_length in E4.
    destruct t as [|c t]; [discriminate|].
    apply andb_true_iff in E4 as [E4 E5].
    apply isPrefixb_spec in E5 as [t' ->].
    exists (u16 "u/" ++ c :: u16 "/"), t'.
    split; [reflexivity|]. split; [now constructor | reflexivity]. }
  destruct (isPrefixb (u16 "embed/") s) eqn:E4.
  { intros [= <-]. apply isPrefixb_spec in E4 as [t ->].
    exists (u16 "embed/"), t. repeat split; constructor. }
  destruct (isPrefixb (u16 "watch?v=") s) eqn:E5.
  { intros [= <-]. apply isPrefixb_spec in E5 as [t ->].
    exists (u16 "watch?v="), t. repeat split; constructor. }
  destruct (isPrefixb (u16 "&v=") s) eqn:E6; [|discriminate].
  intros [= <-]. apply isPrefixb_spec in E6 as [t ->].
  exists (u16 "&v="), t. repeat split; constructor.
Qed.

Lemma lastDelim_Some s m i n :
  lastDelim s m = Some (i, n) <->
  i <= m /\ delimLen (drop i s) = Some n /\
  forall j, i < j <= m -> delimLen (drop j s) = None.
Proof.
  induction m as [|m IH]; cbn [lastDelim].
  - destruct (delimLen (drop 0 s)) as [n0|] eqn:E.
    + split.
      * intros [= <- <-]. repeat split; [lia | exact E | intros; lia].
      * intros (Hi & Hn & _). assert (i = 0) as -> by lia.
        rewrite E in Hn. congruence.
    + split; [discriminate|]. intros (Hi & Hn & _).
      assert (i = 0) as -> by lia. congruence.
  - destruct (delimLen (drop (S m) s)) as [n0|] eqn:E.
    + split.
      * intros [= <- <-]. repeat split; [lia | exact E | intros; lia].
      * intros (Hi & Hn & Hj).
        destruct (Nat.eq_dec i (S m)) as [->|Hne]; [congruence|].
        rewrite (Hj (S m)) in E by lia. discriminate.
    + rewrite IH. split.
      * intros (Hi & Hn & Hj). repeat split; [lia | exact Hn |].
        intros j Hjr. destruct (Nat.eq_dec j (S m)) as [->|]; [exact E|].
        apply Hj. lia.
      * intros (Hi & Hn & Hj).
        destruct (Nat.eq_dec i (S m)) as [->|Hne]; [congruence|].
        repeat split; [lia | exact Hn |]. intros j Hjr. apply Hj. lia.
Qed.

Lemma lastDelim_None s m :
  lastDelim s m = None <-> forall j, j <= m -> delimLen (drop j s) = None.
Proof.
  induction m as [|m IH]; cbn [lastDelim].
  - destruct (delimLen (drop 0 s)) eqn:E.
    + split; [discriminate|]. intros H. rewrite (H 0) in E by lia. discriminate.
    + split; [|reflexivity]. intros _ j Hj. assert (j = 0) as -> by lia. exact E.
  - destruct (delimLen (drop (S m) s)) eqn:E.
    + split; [discriminate|]. intros H. rewrite (H (S m)) in E by lia.
      discriminate.
    + rewrite IH. split.
      * intros H j Hj. destruct (Nat.eq_dec j (S m)) as [->|]; [exact E|].
        apply H. lia.
      * intros H j Hj. apply H. lia.
Qed.

Lemma run_le_length cs s : runLen cs s <= length s.
Proof. induction s as [|c s IH]; simpl; [lia|]. destruct (csMatch cs c); simpl; lia. Qed.

Lemma run_prefix cs pre t :
  Forall (fun c => csMatch cs c = true) pre -> length pre <= runLen cs (pre ++ t).
Proof.
  induction 1 as [|c pre Hc _ IH]; simpl; [lia|]. rewrite Hc. lia.
Qed.

Lemma run_take cs s i :
  i <= runLen cs s -> Forall (fun c => csMatch cs c = true) (take i s).
Proof.
  revert i. induction s as [|c s IH]; intros [|i] Hi; simpl in *;
    try constructor; try lia.
  - destruct (csMatch cs c); [reflexivity | lia].
  - apply IH. destruct (csMatch cs c); lia.
Qed.

Lemma run_app_stop cs a rest :
  Forall (fun c => csMatch cs c = true) a ->
  match rest with [] => True | c :: _ => csMatch cs c = false end ->
  runLen cs (a ++ rest) = length a.
Proof.
  induction 1 as [|c a Hc _ IH]; intros Hr; simpl.
  - destruct rest as [|c rest]; [reflexivity|]. simpl. now rewrite Hr.
  - rewrite Hc, IH by assumption. reflexivity.
Qed.

Lemma run_drop_stop cs s :
  match drop (runLen cs s) s with [] => True | c :: _ => csMatch cs c = false end.
Proof.
  induction s as [|c s IH]; simpl; [exact I|].
  destruct (csMatch cs c) eqn:E; simpl; [exact IH | exact E].
Qed.

Lemma noLineTerminator_csAny s :
  noLineTerminator s <-> Forall (fun c => csMatch CsAny c = true) s.
Proof.
  unfold noLineTerminator. apply Forall_iff. intros c. simpl.
  rewrite negb_true_iff. reflexivity.
Qed.

Lemma noStop_cs s :
  noStop s <-> Forall (fun c => csMatch (CsNoneOf stops) c = true) s.
Proof.
  unfold noStop. apply Forall_iff. intros c. simpl.
  rewrite negb_true_iff. reflexivity.
Qed.

Lemma stopsAtHead_cs rest :
  stopsAtHead rest <->
  match rest with
  | [] => True
  | c :: _ => csMatch (CsNoneOf stops) c = false
  end.
Proof.
  destruct rest as [|c rest]; simpl; [reflexivity|].
  rewrite negb_false_iff. reflexivity.
Qed.

Lemma idRun_app a rest : noStop a -> stopsAtHead rest -> idRun (a ++ rest) = a.
Proof.
  intros Ha Hr. unfold idRun.
  rewrite run_app_stop; [apply take_app_length | now apply noStop_cs
                        | now apply stopsAtHead_cs].
Qed.

Lemma idRun_split s :
  s = idRun s ++ drop (runLen (CsNoneOf stops) s) s /\
  noStop (idRun s) /\ stopsAtHead (drop (runLen (CsNoneOf stops) s) s).
Proof.
  unfold idRun. split; [symmetry; apply take_drop|]. split.
  - apply noStop_cs, run_take. lia.
  - apply stopsAtHead_cs, run_drop_stop.
Qed.

Lemma getYoutubeId_extract url :
  getYoutubeId url =
  match extract url with
  | Some g => if Nat.eqb (length g) 11 then Some g else None
  | None => None
  end.
Proof.
  rewrite getYoutubeId_eq. unfold extract.
  destruct (lastDelim _ _) as [[i n]|]; reflexivity.
Qed.

Lemma extract_sound url ident : extract url = Some ident -> Extracts url ident.
Proof.
  unfold extract.
  destruct (lastDelim url (runLen CsAny url)) as [[i n]|] eqn:E; [|discriminate].
  intros [= <-]. apply lastDelim_Some in E as (Hi & Hn & Hmax).
  apply Delim_delimLen in Hn as (d & t & Hd & HD & <-).
  pose proof (run_le_length CsAny url) as Hlen.
  assert (Ht : drop (i + length d) url = t).
  { rewrite <- drop_drop, Hd. apply drop_app_length. }
  rewrite Ht.
  destruct (idRun_split t) as (Hsplit & Hns & Hst).
  exists (take i url), d, (drop (runLen (CsNoneOf stops) t) t).
  split; [|split; [|split; [|split; [|split]]]]; try assumption.
  - rewrite <- Hsplit, <- Hd. symmetry. apply take_drop.
  - apply noLineTerminator_csAny, run_take, Hi.
  - intros pre' d' rest' Hurl Hpre' HD'.
    rewrite length_take, Nat.min_l by lia.
    destruct (Nat.le_gt_cases (length pre') i) as [|Hgt]; [assumption|].
    assert (Hle : length pre' <= runLen CsAny url).
    { rewrite Hurl. apply run_prefix, noLineTerminator_csAny, Hpre'. }
    specialize (Hmax (length pre') (conj Hgt Hle)).
    rewrite Hurl, drop_app_length, delimLen_Delim in Hmax by assumption.
    discriminate.
Qed.

Lemma extract_complete url ident : Extracts url ident -> extract url = Some ident.
Proof.
  intros (pre & d & rest & Hurl & Hpre & HD & Hns & Hst & Hmax).
  unfold extract.
  assert (E : lastDelim url (runLen CsAny url) = Some (length pre, length d)).
  { apply lastDelim_Some. split; [|split].
    - rewrite Hurl. apply run_prefix, noLineTerminator_csAny, Hpre.
    - rewrite Hurl, drop_app_length. apply delimLen_Delim, HD.
    - intros j [Hj1 Hj2].
      destruct (delimLen (drop j url)) as [n|] eqn:E; [|reflexivity].
      apply Delim_delimLen in E as (d' & t' & Hd' & HD' & _).
      pose proof (run_le_length CsAny url) as Hlen.
      assert (length (take j url) <= length pre).
      { apply (Hmax (take j url) d' t').
        - rewrite <- Hd'. symmetry. apply take_drop.
        - apply noLineTerminator_csAny, run_take, Hj2.
        - exact HD'. }
      rewrite length_take, Nat.min_l in H by lia. lia. }
  rewrite E. f_equal.
  rewrite Hurl, <- drop_drop, drop_app_length, drop_app_length.
  apply idRun_app; assumption.
Qed.

(** The expression captures exactly the identifier of [Extracts]. *)
Lemma extract_Extracts url ident : extract url = Some ident <-> Extracts url ident.
Proof. split; [apply extract_sound | apply extract_complete]. Qed.

Lemma Extracts_functional url a b : Extracts url a -> Extracts url b -> a = b.
Proof.
  intros Ha Hb. apply extract_complete in Ha, Hb. congruence.
Qed.

(** [getYoutubeId] returns the captured identifier exactly when it has
    eleven characters. *)
Lemma getYoutubeId_spec url ident :
  getYoutubeId url = Some ident <-> Extracts url ident /\ length ident = 11.
Proof.
  rewrite getYoutubeId_extract, <- extract_Extracts.
  destruct (extract url) as [g|]; [|split; [discriminate | intros [? _]; discriminate]].
  destruct (Nat.eqb_spec (length g) 11) as [Hl|Hl]; split.
  - intros [= <-]. auto.
  - intros [[= <-] _]. reflexivity.
  - discriminate.
  - intros [[= <-] ?]. contradiction.
Qed.

Lemma getYoutubeId_None url :
  getYoutubeId url = None <->
  forall ident, Extracts url ident -> length ident <> 11.
Proof.
  split.
  - intros HN ident HE Hl.
    assert (getYoutubeId url = Some ident) by (apply getYoutubeId_spec; auto).
    congruence.
  - intros H. destruct (getYoutubeId url) as [g|] eqn:E; [|reflexivity].
    apply getYoutubeId_spec in E as [HE Hl]. destruct (H g HE Hl).
Qed.

(** ** The shapes on examples *)

Example getYoutubeId_short_link :
  getYoutubeId (u16 "https://youtu.be/aqz-KE-bpKQ?t=42")
  = Some (u16 "aqz-KE-bpKQ").
Proof. vm_compute. reflexivity. Qed.

Example getYoutubeId_embed :
  getYoutubeId (u16 "https://www.youtube.com/embed/dQw4w9WgXcQ")
  = Some (u16 "dQw4w9WgXcQ").
Proof. vm_compute. reflexivity. Qed.

Example getYoutubeId_watch_after_parameter :
  getYoutubeId (u16 "https://www.youtube.com/watch?feature=share&v=dQw4w9WgXcQ#t=1")
  = Some (u16 "dQw4w9WgXcQ").
Proof. vm_compute. reflexivity. Qed.

(** Twelve characters after the delimiter: no identifier. *)
Example getYoutubeId_other_length :
  getYoutubeId (u16 "https://www.youtube.com/watch?v=aqz-KE-bpKQX") = None.
Proof. vm_compute. reflexivity. Qed.

(** The last delimiter decides. *)
Example getYoutubeId_last_delimiter :
  getYoutubeId (u16 "https://www.youtube.com/watch?v=aqz-KE-bpKQ&v=short") = None.
Proof. vm_compute. reflexivity. Qed.

Example getYoutubeId_no_delimiter :
  getYoutubeId (u16 "https://vimeo.com/76979871") = None.
Proof. vm_compute. reflexivity. Qed.

End ResolverFacts.
Import ResolverFacts.

(* ===================================================================== *)
(** * [JSON.parse] after [JSON.stringify]                                 *)
(* ===================================================================== *)

Module JsonFacts.

(** ** String literals *)

Lemma hexVal_hexDigit d : (d < 16)%N -> hexVal (hexDigit d) = Some d.
Proof.
  intros H. assert (Hn : N.to_nat d < 16) by lia.
  rewrite <- (N2Nat.id d). generalize dependent (N.to_nat d). clear.
  intros n Hn. do 16 (destruct n as [|n]; [reflexivity|]). lia.
Qed.

Lemma hex4_unicodeEscape c rest :
  (c < 65536)%N ->
  parseChars (unicodeEscape c ++ rest) =
  consFst c (parseChars rest).
Proof.
  intros Hc. unfold unicodeEscape. cbn [app parseChars].
  change (92 =? 34)%N with false. change (92 =? 92)%N with true.
  change (117 =? 117)%N with true. cbv iota.
  unfold hex4.
  rewrite !hexVal_hexDigit by (apply N.mod_lt; discriminate).
  replace ((((c / 4096) mod 16 * 16 + (c / 256) mod 16) * 16
            + (c / 16) mod 16) * 16 + c mod 16)%N with c; [reflexivity|].
  pose proof (N.Div0.div_mod c 16) as H1.
  pose proof (N.Div0.div_mod (c / 16) 16) as H2.
  rewrite (N.Div0.div_div c 16 16) in H2. change (16 * 16)%N with 256%N in H2.
  pose proof (N.Div0.div_mod (c / 256) 16) as H3.
  rewrite (N.Div0.div_div c 256 16) in H3.
  change (256 * 16)%N with 4096%N in H3.
  assert (H4 : (c / 4096 < 16)%N).
  { apply N.Div0.div_lt_upper_bound. exact Hc. }
  rewrite (N.mod_small (c / 4096) 16) by exact H4. lia.
Qed.

Lemma parseChars_quoteChars s rest :
  parseChars (quoteChars s ++ 34%N :: rest) = Some (s, rest).
Proof.
  remember (length s) as n eqn:Hn.
  revert s Hn. induction n as [n IH] using lt_wf_ind. intros s ->.
  destruct s as [|c s]; [reflexivity|].
  assert (IHs : forall t, length t <= length s ->
                  parseChars (quoteChars t ++ 34%N :: rest) = Some (t, rest)).
  { intros t Ht. apply (IH (length t)); [simpl; lia | reflexivity]. }
  cbn [quoteChars].
  destruct (N.eqb_spec c 8) as [->|?]; [cbn; rewrite IHs by lia; reflexivity|].
  destruct (N.eqb_spec c 9) as [->|?]; [cbn; rewrite IHs by lia; reflexivity|].
  destruct (N.eqb_spec c 10) as [->|?]; [cbn; rewrite IHs by lia; reflexivity|].
  destruct (N.eqb_spec c 12) as [->|?]; [cbn; rewrite IHs by lia; reflexivity|].
  destruct (N.eqb_spec c 13) as [->|?]; [cbn; rewrite IHs by lia; reflexivity|].
  destruct (N.eqb_spec c 34) as [->|?]; [cbn; rewrite IHs by lia; reflexivity|].
  destruct (N.eqb_spec c 92) as [->|?]; [cbn; rewrite IHs by lia; reflexivity|].
  assert (Hplain : forall t, (32 <= c)%N ->
            parseChars (c :: t) = consFst c (parseChars t)).
  { intros t Hc. cbn [parseChars].
    destruct (N.eqb_spec c 34); [contradiction|].
    destruct (N.eqb_spec c 92); [contradiction|].
    destruct (N.ltb_spec c 32); [lia | reflexivity]. }
  destruct (N.ltb_spec c 32) as [Hlt|Hge].
  { rewrite <- app_assoc, hex4_unicodeEscape by lia.
    rewrite IHs by lia. reflexivity. }
  unfold isHighSurrogate, isLowSurrogate.
  destruct ((55296 <=? c)%N && (c <=? 56319)%N) eqn:Hhi.
  { apply andb_true_iff in Hhi as [H1 H2].
    apply N.leb_le in H1, H2.
    destruct s as [|l s].
    - rewrite hex4_unicodeEscape by lia. reflexivity.
    - destruct ((56320 <=? l)%N && (l <=? 57343)%N) eqn:Hlo.
      + apply andb_true_iff in Hlo as [H3 H4]. apply N.leb_le in H3, H4.
        change ((c :: l :: quoteChars s) ++ 34%N :: rest)
          with (c :: l :: (quoteChars s ++ 34%N :: rest)).
        rewrite Hplain by lia.
        assert (Hl : parseChars (l :: quoteChars s ++ 34%N :: rest)
                     = consFst l (parseChars (quoteChars s ++ 34%N :: rest))).
        { cbn [parseChars].
          destruct (N.eqb_spec l 34); [lia|].
          destruct (N.eqb_spec l 92); [lia|].
          destruct (N.ltb_spec l 32); [lia | reflexivity]. }
        rewrite Hl, IHs by (simpl; lia). reflexivity.
      + rewrite <- app_assoc, hex4_unicodeEscape by lia.
        rewrite IHs by lia. reflexivity. }
  destruct ((56320 <=? c)%N && (c <=? 57343)%N) eqn:Hlo.
  { apply andb_true_iff in Hlo as [H3 H4]. apply N.leb_le in H3, H4.
    rewrite <- app_assoc, hex4_unicodeEscape by lia.
    rewrite IHs by lia. reflexivity. }
  change ((c :: quoteChars s) ++ 34%N :: rest)
    with (c :: (quoteChars s ++ 34%N :: rest)).
  rewrite Hplain, IHs by lia. reflexivity.
Qed.

(** ** Fuel *)

Lemma bindP_not_fuel {A B} (r : PResult A) (k : A -> jsstring -> PResult B) :
  bindP r k <> PFuel -> r <> PFuel.
Proof. destruct r; simpl; congruence. Qed.

(** The three parsers, one step unfolded. *)
Lemma parseValue_S f s :
  parseValue (S f) s =
  match skipWs s with
  | [] => PSyntax
  | c :: rest =>
      if (c =? 123)%N then
        match skipWs rest with
        | c' :: rest' =>
            if (c' =? 125)%N then POk (JObj []) rest'
            else bindP (parseMembers f rest) (fun ms r => POk (mkObj ms) r)
        | [] => PSyntax
        end
      else if (c =? 91)%N then
        match skipWs rest with
        | c' :: rest' =>
            if (c' =? 93)%N then POk (JArr []) rest'
            else bindP (parseElems f rest) (fun vs r => POk (JArr vs) r)
        | [] => PSyntax
        end
      else if (c =? 34)%N then
        bindP (ofOption (parseChars rest)) (fun str r => POk (JStr str) r)
      else if (c =? 116)%N then
        bindP (ofOption (option_map (pair tt) (stripPrefix (u16 "rue") rest)))
              (fun _ r => POk (JBool true) r)
      else if (c =? 102)%N then
        bindP (ofOption (option_map (pair tt) (stripPrefix (u16 "alse") rest)))
              (fun _ r => POk (JBool false) r)
      else if (c =? 110)%N then
        bindP (ofOption (option_map (pair tt) (stripPrefix (u16 "ull") rest)))
              (fun _ r => POk JNull r)
      else ofOption (parseNumber (c :: rest))
  end.
Proof. reflexivity. Qed.

Lemma parseElems_S f s :
  parseElems (S f) s =
  bindP (parseValue f s) (fun v r =>
    match skipWs r with
    | c :: r' =>
        if (c =? 44)%N then
          bindP (parseElems f r') (fun vs r'' => POk (v :: vs) r'')
        else if (c =? 93)%N then POk [v] r'
        else PSyntax
    | [] => PSyntax
    end).
Proof. reflexivity. Qed.

Lemma parseMembers_S f s :
  parseMembers (S f) s =
  match skipWs s with
  | q :: s1 =>
      if (q =? 34)%N then
        bindP (ofOption (parseChars s1)) (fun k s2 =>
          match skipWs s2 with
          | colon :: s3 =>
              if (colon =? 58)%N then
                bindP (parseValue f s3) (fun v r =>
                  match skipWs r with
                  | c :: r' =>
                      if (c =? 44)%N then
                        bindP (parseMembers f r')
                              (fun ms r'' => POk ((k, v) :: ms) r'')
                      else if (c =? 125)%N then POk [(k, v)] r'
                      else PSyntax
                  | [] => PSyntax
                  end)
              else PSyntax
          | [] => PSyntax
          end)
      else PSyntax
  | [] => PSyntax
  end.
Proof. reflexivity. Qed.

(** More fuel does not change a result. *)
Lemma parse_mono_S f :
  (forall s, parseValue f s <> PFuel -> parseValue (S f) s = parseValue f s) /\
  (forall s, parseElems f s <> PFuel -> parseElems (S f) s = parseElems f s) /\
  (forall s, parseMembers f s <> PFuel ->
             parseMembers (S f) s = parseMembers f s).
Proof.
  induction f as [|f (IHv & IHe & IHm)].
  { repeat split; intros s H; contradiction H; reflexivity. }
  split; [|split]; intros s.
  - rewrite (parseValue_S (S f)), (parseValue_S f).
    destruct (skipWs s) as [|c rest]; [reflexivity|].
    destruct (c =? 123)%N.
    { destruct (skipWs rest) as [|c' rest']; [reflexivity|].
      destruct (c' =? 125)%N; [reflexivity|].
      intros H. apply bindP_not_fuel in H. rewrite IHm by exact H. reflexivity. }
    destruct (c =? 91)%N; [|reflexivity].
    destruct (skipWs rest) as [|c' rest']; [reflexivity|].
    destruct (c' =? 93)%N; [reflexivity|].
    intros H. apply bindP_not_fuel in H. rewrite IHe by exact H. reflexivity.
  - rewrite (parseElems_S (S f)), (parseElems_S f). intros H.
    pose proof (bindP_not_fuel _ _ H) as Hv. rewrite IHv by exact Hv.
    destruct (parseValue f s) as [v r| |]; [|reflexivity|reflexivity].
    cbn [bindP] in *. destruct (skipWs r) as [|c r']; [reflexivity|].
    destruct (c =? 44)%N; [|reflexivity].
    apply bindP_not_fuel in H. rewrite IHe by exact H. reflexivity.
  - rewrite (parseMembers_S (S f)), (parseMembers_S f).
    destruct (skipWs s) as [|q s1]; [reflexivity|].
    destruct (q =? 34)%N; [|reflexivity].
    destruct (parseChars s1) as [[k s2]|]; [|reflexivity]. cbn [ofOption bindP].
    destruct (skipWs s2) as [|colon s3]; [reflexivity|].
    destruct (colon =? 58)%N; [|reflexivity]. intros H.
    pose proof (bindP_not_fuel _ _ H) as Hv. rewrite IHv by exact Hv.
    destruct (parseValue f s3) as [v r| |]; [|reflexivity|reflexivity].
    cbn [bindP] in *. destruct (skipWs r) as [|c r']; [reflexivity|].
    destruct (c =? 44)%N; [|reflexivity].
    apply bindP_not_fuel in H. rewrite IHm by exact H. reflexivity.
Qed.

Lemma parseValue_mono f f' s :
  f <= f' -> parseValue f s <> PFuel -> parseValue f' s = parseValue f s.
Proof.
  induction 1 as [|f' _ IH]; intros H; [reflexivity|].
  rewrite <- (IH H). apply parse_mono_S. rewrite (IH H). exact H.
Qed.

(** ** Every parser consumes input *)

Lemma skipWs_length s : length (skipWs s) <= length s.
Proof.
  induction s as [|c s IH]; simpl; [lia|]. destruct (isWs c); simpl; lia.
Qed.

Lemma consFst_Some {A} c (r : option (jsstring * A)) str x :
  consFst c r = Some (str, x) -> exists str', r = Some (str', x).
Proof. destruct r as [[s' x']|]; simpl; [|discriminate]. intros [= _ ->]. eauto. Qed.

Lemma parseChars_length s str r :
  parseChars s = Some (str, r) -> length r < length s.
Proof.
  remember (length s) as n eqn:Hn. revert s str r Hn.
  induction n as [n IH] using lt_wf_ind. intros s str r -> H.
  destruct s as [|c s]; [discriminate|]. cbn [parseChars] in H.
  destruct (c =? 34)%N; [injection H as _ ->; simpl; lia|].
  destruct (c =? 92)%N.
  - destruct s as [|e s1]; [discriminate|].
    destruct (e =? 117)%N.
    + destruct s1 as [|h1 [|h2 [|h3 [|h4 s2]]]]; try discriminate.
      destruct (hex4 h1 h2 h3 h4); [|discriminate].
      apply consFst_Some in H as [str' H].
      apply (IH (length s2)) in H; simpl; lia.
    + destruct (unescape e); [|discriminate].
      apply consFst_Some in H as [str' H].
      apply (IH (length s1)) in H; simpl; lia.
  - destruct (c <? 32)%N; [discriminate|].
    apply consFst_Some in H as [str' H].
    apply (IH (length s)) in H; simpl; lia.
Qed.

Lemma spanDigits_length s u r :
  spanDigits s = (u, r) ->
  length r <= length s /\ (u <> Decimal.Nil -> length r < length s).
Proof.
  revert u r. induction s as [|c s IH]; intros u r; cbn [spanDigits].
  - intros [= <- <-]. split; [lia | congruence].
  - destruct (digitOf c) as [d|].
    + destruct (spanDigits s) as [u' r'] eqn:E. intros [= <- <-].
      destruct (IH _ _ eq_refl). simpl. split; lia.
    + intros [= <- <-]. split; [lia | congruence].
Qed.

Lemma skipFraction_length s b r :
  skipFraction s = Some (b, r) -> length r <= length s.
Proof.
  destruct s as [|c s]; cbn [skipFraction]; [intros [= _ <-]; lia|].
  destruct (c =? 46)%N; [|intros [= _ <-]; lia].
  destruct (spanDigits s) as [u r'] eqn:E. destruct (isNil u); [discriminate|].
  intros [= _ <-]. apply spanDigits_length in E as [E _]. simpl. lia.
Qed.

Lemma skipSign_length s : length (skipSign s) <= length s.
Proof.
  destruct s as [|c s]; simpl; [lia|].
  destruct ((c =? 43)%N || (c =? 45)%N); simpl; lia.
Qed.

Lemma skipExponent_length s b r :
  skipExponent s = Some (b, r) -> length r <= length s.
Proof.
  destruct s as [|c s]; cbn [skipExponent]; [intros [= _ <-]; lia|].
  destruct ((c =? 101)%N || (c =? 69)%N); [|intros [= _ <-]; lia].
  destruct (spanDigits (skipSign s)) as [u r'] eqn:E.
  destruct (isNil u); [discriminate|].
  intros [= _ <-]. apply spanDigits_length in E as [E _].
  pose proof (skipSign_length s). simpl. lia.
Qed.

Lemma parseNumber_length s j r :
  parseNumber s = Some (j, r) -> length r < length s.
Proof.
  unfold parseNumber.
  assert (Hp : length (snd (takeMinus s)) <= length s).
  { destruct s as [|c s]; simpl; [lia|].
    destruct (c =? 45)%N; simpl; lia. }
  destruct (takeMinus s) as [neg s1]. simpl in Hp.
  destruct (spanDigits s1) as [u s2] eqn:E1.
  apply spanDigits_length in E1 as [_ E1].
  destruct (intPartOk u) eqn:Hu; [|discriminate].
  assert (u <> Decimal.Nil) by (intros ->; discriminate).
  destruct (skipFraction s2) as [[frac s3]|] eqn:E2; [|discriminate].
  apply skipFraction_length in E2.
  destruct (skipExponent s3) as [[ex s4]|] eqn:E3; [|discriminate].
  apply skipExponent_length in E3.
  destruct (frac || ex); intros [= _ <-]; specialize (E1 H); lia.
Qed.

Lemma stripPrefix_length l s r : stripPrefix l s = Some r -> length r <= length s.
Proof.
  revert s. induction l as [|a l IH]; intros [|c s]; simpl;
    try discriminate; try (intros [= <-]; simpl; lia).
  destruct (c =? a)%N; [|discriminate]. intros H. apply IH in H. lia.
Qed.

Lemma parse_consumes f :
  (forall s v r, parseValue f s = POk v r -> length r < length s) /\
  (forall s v r, parseElems f s = POk v r -> length r < length s) /\
  (forall s v r, parseMembers f s = POk v r -> length r < length s).
Proof.
  induction f as [|f (IHv & IHe & IHm)]; [repeat split; discriminate|].
  split; [|split]; intros s v r.
  - rewrite parseValue_S. pose proof (skipWs_length s) as Hs.
    destruct (skipWs s) as [|c rest]; [discriminate|]. simpl in Hs.
    assert (Hlit : forall l (j : JSON),
      bindP (ofOption (option_map (pair tt) (stripPrefix l rest)))
            (fun _ r0 => POk j r0) = POk v r -> length r < length s).
    { intros l j. destruct (stripPrefix l rest) as [t|] eqn:E; [|discriminate].
      intros [= _ <-]. apply stripPrefix_length in E. lia. }
    destruct (c =? 123)%N.
    { pose proof (skipWs_length rest) as Hr.
      destruct (skipWs rest) as [|c' rest']; [discriminate|]. simpl in Hr.
      destruct (c' =? 125)%N; [intros [= _ <-]; lia|].
      destruct (parseMembers f rest) as [ms r0| |] eqn:E; try discriminate.
      intros [= _ <-]. apply IHm in E. lia. }
    destruct (c =? 91)%N.
    { pose proof (skipWs_length rest) as Hr.
      destruct (skipWs rest) as [|c' rest']; [discriminate|]. simpl in Hr.
      destruct (c' =? 93)%N; [intros [= _ <-]; lia|].
      destruct (parseElems f rest) as [ms r0| |] eqn:E; try discriminate.
      intros [= _ <-]. apply IHe in E. lia. }
    destruct (c =? 34)%N.
    { destruct (parseChars rest) as [[str r0]|] eqn:E; [|discriminate].
      intros [= _ <-]. apply parseChars_length in E. lia. }
    destruct (c =? 116)%N; [apply Hlit|].
    destruct (c =? 102)%N; [apply Hlit|].
    destruct (c =? 110)%N; [apply Hlit|].
    destruct (parseNumber (c :: rest)) as [[j r0]|] eqn:E; [|discriminate].
    intros [= _ <-]. apply parseNumber_length in E. simpl in E. lia.
  - rewrite parseElems_S.
    destruct (parseValue f s) as [v0 r0| |] eqn:E; try discriminate.
    apply IHv in E. cbn [bindP]. pose proof (skipWs_length r0) as Hr.
    destruct (skipWs r0) as [|c r']; [discriminate|]. simpl in Hr.
    destruct (c =? 44)%N.
    { destruct (parseElems f r') as [vs r1| |] eqn:E1; try discriminate.
      intros [= _ <-]. apply IHe in E1. lia. }
    destruct (c =? 93)%N; [|discriminate]. intros [= _ <-]. lia.
  - rewrite parseMembers_S. pose proof (skipWs_length s) as Hs.
    destruct (skipWs s) as [|q s1]; [discriminate|]. simpl in Hs.
    destruct (q =? 34)%N; [|discriminate].
    destruct (parseChars s1) as [[k s2]|] eqn:E; [|discriminate].
    apply parseChars_length in E. cbn [ofOption bindP].
    pose proof (skipWs_length s2) as Hs2.
    destruct (skipWs s2) as [|colon s3]; [discriminate|]. simpl in Hs2.
    destruct (colon =? 58)%N; [|discriminate].
    destruct (parseValue f s3) as [v0 r0| |] eqn:E0; try discriminate.
    apply IHv in E0. cbn [bindP]. pose proof (skipWs_length r0) as Hr.
    destruct (skipWs r0) as [|c r']; [discriminate|]. simpl in Hr.
    destruct (c =? 44)%N.
    { destruct (parseMembers f r') as [ms r1| |] eqn:E1; try discriminate.
      intros [= _ <-]. apply IHm in E1. lia. }
    destruct (c =? 125)%N; [|discriminate]. intros [= _ <-]. lia.
Qed.

(** ** The fuel of [JSON_parse] is enough *)

Lemma bindP_fuel_inv {A B} (r : PResult A) (k : A -> jsstring -> PResult B) :
  r <> PFuel -> (forall v rest, r = POk v rest -> k v rest <> PFuel) ->
  bindP r k <> PFuel.
Proof. destruct r; simpl; intros H1 H2; [apply H2; reflexivity | | ]; congruence. Qed.

Lemma ofOption_not_fuel {A} (r : option (A * jsstring)) : ofOption r <> PFuel.
Proof. destruct r as [[v t]|]; discriminate. Qed.

Lemma parse_fuel f :
  (forall s, 2 * length s + 1 <= f -> parseValue f s <> PFuel) /\
  (forall s, 2 * length s + 2 <= f -> parseElems f s <> PFuel) /\
  (forall s, 2 * length s + 2 <= f -> parseMembers f s <> PFuel).
Proof.
  induction f as [|f (IHv & IHe & IHm)]; [repeat split; intros s; lia|].
  destruct (parse_consumes f) as (Cv & Ce & Cm).
  split; [|split]; intros s Hf.
  - rewrite parseValue_S. pose proof (skipWs_length s) as Hs.
    destruct (skipWs s) as [|c rest]; [discriminate|]. simpl in Hs.
    assert (Hlit : forall l (j : JSON),
      bindP (ofOption (option_map (pair tt) (stripPrefix l rest)))
            (fun _ r0 => POk j r0) <> PFuel).
    { intros l j. destruct (stripPrefix l rest); discriminate. }
    destruct (c =? 123)%N.
    { destruct (skipWs rest) as [|c' rest']; [discriminate|].
      destruct (c' =? 125)%N; [discriminate|].
      apply bindP_fuel_inv; [apply IHm; lia | discriminate]. }
    destruct (c =? 91)%N.
    { destruct (skipWs rest) as [|c' rest']; [discriminate|].
      destruct (c' =? 93)%N; [discriminate|].
      apply bindP_fuel_inv; [apply IHe; lia | discriminate]. }
    destruct (c =? 34)%N.
    { apply bindP_fuel_inv; [apply ofOption_not_fuel | discriminate]. }
    destruct (c =? 116)%N; [apply Hlit|].
    destruct (c =? 102)%N; [apply Hlit|].
    destruct (c =? 110)%N; [apply Hlit|].
    apply ofOption_not_fuel.
  - rewrite parseElems_S. apply bindP_fuel_inv; [apply IHv; lia|].
    intros v r E. apply Cv in E. pose proof (skipWs_length r) as Hr.
    destruct (skipWs r) as [|c r']; [discriminate|]. simpl in Hr.
    destruct (c =? 44)%N.
    { apply bindP_fuel_inv; [apply IHe; lia | discriminate]. }
    destruct (c =? 93)%N; discriminate.
  - rewrite parseMembers_S. pose proof (skipWs_length s) as Hs.
    destruct (skipWs s) as [|q s1]; [discriminate|]. simpl in Hs.
    destruct (q =? 34)%N; [|discriminate].
    apply bindP_fuel_inv; [apply ofOption_not_fuel|].
    intros k s2 E. destruct (parseChars s1) as [[k' s2']|] eqn:E1; [|discriminate].
    injection E as -> ->. apply parseChars_length in E1.
    pose proof (skipWs_length s2) as Hs2.
    destruct (skipWs s2) as [|colon s3]; [discriminate|]. simpl in Hs2.
    destruct (colon =? 58)%N; [|discriminate].
    apply bindP_fuel_inv; [apply IHv; lia|].
    intros v r E. apply Cv in E. pose proof (skipWs_length r) as Hr.
    destruct (skipWs r) as [|c r']; [discriminate|]. simpl in Hr.
    destruct (c =? 44)%N.
    { apply bindP_fuel_inv; [apply IHm; lia | discriminate]. }
    destruct (c =? 125)%N; discriminate.
Qed.

(** [JSON_parse] never runs out of fuel: [None] is a syntax error. *)
Lemma JSON_parse_fuel text :
  parseValue (2 * length text + 1) text <> PFuel.
Proof. apply parse_fuel. lia. Qed.

(** With more fuel than [JSON_parse] gives, the result is the same. *)
Lemma JSON_parse_stable text f :
  2 * length text + 1 <= f ->
  parseValue f text = parseValue (2 * length text + 1) text.
Proof. intros H. apply parseValue_mono; [exact H | apply JSON_parse_fuel]. Qed.

(** ** Values of the shape of [SiteData] *)

Lemma parseValue_quote f rest :
  parseValue (S f) (34%N :: rest) =
  bindP (ofOption (parseChars rest)) (fun str r => POk (JStr str) r).
Proof. reflexivity. Qed.

Lemma parseValue_brace f c rest :
  isWs c = false -> (c =? 125)%N = false ->
  parseValue (S f) (123%N :: c :: rest) =
  bindP (parseMembers f (c :: rest)) (fun ms r => POk (mkObj ms) r).
Proof.
  intros Hw Hc. rewrite parseValue_S. cbn [skipWs]. change (isWs 123) with false.
  cbv iota. change (123 =? 123)%N with true. cbv iota. cbn [skipWs]. rewrite Hw, Hc. reflexivity.
Qed.

Lemma parseValue_bracket f c rest :
  isWs c = false -> (c =? 93)%N = false ->
  parseValue (S f) (91%N :: c :: rest) =
  bindP (parseElems f (c :: rest)) (fun vs r => POk (JArr vs) r).
Proof.
  intros Hw Hc. rewrite parseValue_S. cbn [skipWs]. change (isWs 91) with false.
  cbv iota. change (91 =? 123)%N with false. change (91 =? 91)%N with true.
  cbv iota. cbn [skipWs]. rewrite Hw, Hc. reflexivity.
Qed.

Lemma parseValue_empty_array f rest :
  parseValue (S f) (91%N :: 93%N :: rest) = POk (JArr []) rest.
Proof. reflexivity. Qed.

Lemma parseValue_string f s rest :
  parseValue (S f) (quoteJSONString s ++ rest) = POk (JStr s) rest.
Proof.
  unfold quoteJSONString. rewrite <- app_comm_cons, <- app_assoc.
  rewrite parseValue_quote. cbn [app]. rewrite parseChars_quoteChars. reflexivity.
Qed.

(** One member that a comma follows, and the last member. *)
Lemma parseMembers_more f k vtext v rest :
  parseValue f (vtext ++ 44%N :: rest) = POk v (44%N :: rest) ->
  parseMembers (S f) (member k vtext ++ 44%N :: rest) =
  bindP (parseMembers f rest) (fun ms r => POk ((u16 k, v) :: ms) r).
Proof.
  intros Hv. unfold member, quoteJSONString.
  rewrite <- !app_comm_cons, <- !app_assoc. cbn [app].
  rewrite parseMembers_S. cbn [skipWs]. change (isWs 34) with false. cbv iota.
  change (34 =? 34)%N with true. cbv iota.
  rewrite parseChars_quoteChars. cbn [ofOption bindP skipWs].
  change (isWs 58) with false. cbv iota. change (58 =? 58)%N with true. cbv iota.
  rewrite Hv. cbn [bindP skipWs]. change (isWs 44) with false. cbv iota.
  change (44 =? 44)%N with true. reflexivity.
Qed.

Lemma parseMembers_last f k vtext v rest :
  parseValue f (vtext ++ 125%N :: rest) = POk v (125%N :: rest) ->
  parseMembers (S f) (member k vtext ++ 125%N :: rest) = POk [(u16 k, v)] rest.
Proof.
  intros Hv. unfold member, quoteJSONString.
  rewrite <- !app_comm_cons, <- !app_assoc. cbn [app].
  rewrite parseMembers_S. cbn [skipWs]. change (isWs 34) with false. cbv iota.
  change (34 =? 34)%N with true. cbv iota.
  rewrite parseChars_quoteChars. cbn [ofOption bindP skipWs].
  change (isWs 58) with false. cbv iota. change (58 =? 58)%N with true. cbv iota.
  rewrite Hv. cbn [bindP skipWs]. change (isWs 125) with false. cbv iota.
  change (125 =? 44)%N with false. change (125 =? 125)%N with true. reflexivity.
Qed.

Lemma digitOf_charsOfUint u :
  u <> Decimal.Nil ->
  exists c t, charsOfUint u = c :: t /\ digitOf c <> None.
Proof.
  destruct u; [congruence| ..]; intros _; eexists _, _;
    (split; [reflexivity | discriminate]).
Qed.

Lemma spanDigits_charsOfUint u rest :
  match rest with [] => True | c :: _ => digitOf c = None end ->
  spanDigits (charsOfUint u ++ rest) = (u, rest).
Proof.
  intros Hr. induction u; cbn [charsOfUint app spanDigits];
    try (change (digitOf _) with (Some Decimal.D0) ||
         change (digitOf _) with (Some Decimal.D1) ||
         change (digitOf _) with (Some Decimal.D2) ||
         change (digitOf _) with (Some Decimal.D3) ||
         change (digitOf _) with (Some Decimal.D4) ||
         change (digitOf _) with (Some Decimal.D5) ||
         change (digitOf _) with (Some Decimal.D6) ||
         change (digitOf _) with (Some Decimal.D7) ||
         change (digitOf _) with (Some Decimal.D8) ||
         change (digitOf _) with (Some Decimal.D9));
    try (rewrite IHu; reflexivity).
  destruct rest as [|c rest]; [reflexivity|]. cbn [spanDigits].
  rewrite Hr. reflexivity.
Qed.

Lemma intPartOk_to_uint p : intPartOk (Pos.to_uint p) = true.
Proof.
  pose proof (DecimalPos.Unsigned.to_uint_nonnil p) as Hnil.
  pose proof (DecimalPos.Unsigned.to_uint_nonzero p) as Hz.
  pose proof (DecimalPos.Unsigned.to_of (Pos.to_uint p)) as Hn.
  rewrite DecimalPos.Unsigned.of_to in Hn. cbn [N.to_uint] in Hn.
  destruct (Pos.to_uint p) as [|u| | | | | | | | |]; try reflexivity;
    [congruence|].
  rewrite DecimalFacts.unorm_D0 in Hn. unfold Decimal.unorm in Hn.
  destruct (Decimal.nzhead u) eqn:E; try discriminate.
  - injection Hn as ->. reflexivity.
  - exfalso. revert E. apply DecimalFacts.nzhead_nonzero.
Qed.

Lemma takeMinus_digits u rest :
  u <> Decimal.Nil ->
  takeMinus (charsOfUint u ++ rest) = (false, charsOfUint u ++ rest).
Proof.
  intros Hu. destruct (digitOf_charsOfUint u Hu) as (c & t & Hc & Hd).
  rewrite Hc. cbn [app takeMinus].
  destruct (N.eqb_spec c 45) as [->|_]; [contradiction Hd|]; reflexivity.
Qed.

(** A number that a comma follows. *)
Lemma parseNumber_showZ z rest :
  parseNumber (showZ z ++ 44%N :: rest) = Some (JNum z, 44%N :: rest).
Proof.
  unfold parseNumber, showZ.
  destruct z as [|p|p]; cbn [Z.to_int].
  - reflexivity.
  - rewrite takeMinus_digits by apply DecimalPos.Unsigned.to_uint_nonnil.
    rewrite spanDigits_charsOfUint by reflexivity.
    rewrite intPartOk_to_uint. cbn.
    unfold Z.of_uint. rewrite DecimalPos.Unsigned.of_to. reflexivity.
  - cbn [app takeMinus]. change (45 =? 45)%N with true. cbv iota.
    rewrite spanDigits_charsOfUint by reflexivity.
    rewrite intPartOk_to_uint. cbn.
    unfold Z.of_uint. rewrite DecimalPos.Unsigned.of_to. reflexivity.
Qed.

Lemma parseValue_number f z rest :
  parseValue (S f) (showZ z ++ 44%N :: rest) = POk (JNum z) (44%N :: rest).
Proof.
  rewrite parseValue_S.
  assert (H : exists c t, showZ z = c :: t /\
                (c = 45%N \/ digitOf c <> None)).
  { unfold showZ. destruct z as [|p|p]; cbn [Z.to_int].
    - exists 48%N, []. split; [reflexivity | right; discriminate].
    - destruct (digitOf_charsOfUint (Pos.to_uint p)
                  (DecimalPos.Unsigned.to_uint_nonnil p)) as (c & t & Hc & Hd).
      exists c, t. auto.
    - eexists _, _. split; [reflexivity | left; reflexivity]. }
  destruct H as (c & t & Hc & Hd).
  pose proof (parseNumber_showZ z rest) as Hn. rewrite Hc in *. cbn [app] in *.
  assert (Hhead : isWs c = false /\ (c =? 123)%N = false /\ (c =? 91)%N = false
                  /\ (c =? 34)%N = false /\ (c =? 116)%N = false
                  /\ (c =? 102)%N = false /\ (c =? 110)%N = false).
  { destruct Hd as [->|Hd]; [repeat split|].
    unfold digitOf in Hd.
    repeat match type of Hd with
           | (if (c =? ?k)%N then _ else _) <> None =>
               destruct (N.eqb_spec c k) as [->|_]; [repeat split|]
           end.
    contradiction Hd; reflexivity. }
  destruct Hhead as (H0 & H1 & H2 & H3 & H4 & H5 & H6).
  cbn [skipWs]. rewrite H0, H1, H2, H3, H4, H5, H6, Hn. reflexivity.
Qed.

Lemma member_head k vtext more :
  member k vtext ++ more =
  34%N :: quoteChars (u16 k) ++ 34%N :: 58%N :: vtext ++ more.
Proof.
  unfold member, quoteJSONString.
  rewrite <- !app_comm_cons, <- !app_assoc. reflexivity.
Qed.

(** An object that starts with a member. *)
Lemma parseValue_object f k vtext more :
  parseValue (S f) (123%N :: member k vtext ++ more) =
  bindP (parseMembers f (member k vtext ++ more))
        (fun ms r => POk (mkObj ms) r).
Proof. rewrite member_head. apply parseValue_brace; reflexivity. Qed.

Lemma objectText_3 a b c rest :
  objectText [a; b; c] ++ rest =
  123%N :: a ++ 44%N :: b ++ 44%N :: c ++ 125%N :: rest.
Proof.
  unfold objectText. cbn [joinComma].
  rewrite <- !app_comm_cons. f_equal.
  repeat (rewrite <- app_assoc; cbn [app]). reflexivity.
Qed.

Lemma objectText_4 a b c d rest :
  objectText [a; b; c; d] ++ rest =
  123%N :: a ++ 44%N :: b ++ 44%N :: c ++ 44%N :: d ++ 125%N :: rest.
Proof.
  unfold objectText. cbn [joinComma].
  rewrite <- !app_comm_cons. f_equal.
  repeat (rewrite <- app_assoc; cbn [app]). reflexivity.
Qed.

Lemma parseValue_career c rest f :
  5 <= f -> parseValue f (stringifyCareer c ++ rest) = POk (toJSONCareer c) rest.
Proof.
  assert (H5 : parseValue 5 (stringifyCareer c ++ rest)
               = POk (toJSONCareer c) rest).
  { unfold stringifyCareer. rewrite objectText_3, parseValue_object.
    rewrite (parseMembers_more _ _ _ _ _ (parseValue_string _ _ _)).
    rewrite (parseMembers_more _ _ _ _ _ (parseValue_string _ _ _)).
    rewrite (parseMembers_last _ _ _ _ _ (parseValue_string _ _ _)).
    reflexivity. }
  intros Hf.
  rewrite (parseValue_mono 5 f); [exact H5 | exact Hf | rewrite H5; discriminate].
Qed.

Lemma parseValue_work w rest f :
  6 <= f -> parseValue f (stringifyWork w ++ rest) = POk (toJSONWork w) rest.
Proof.
  assert (H6 : parseValue 6 (stringifyWork w ++ rest)
               = POk (toJSONWork w) rest).
  { unfold stringifyWork. rewrite objectText_4, parseValue_object.
    rewrite (parseMembers_more _ _ _ _ _ (parseValue_number _ _ _)).
    rewrite (parseMembers_more _ _ _ _ _ (parseValue_string _ _ _)).
    rewrite (parseMembers_more _ _ _ _ _ (parseValue_string _ _ _)).
    rewrite (parseMembers_last _ _ _ _ _ (parseValue_string _ _ _)).
    reflexivity. }
  intros Hf.
  rewrite (parseValue_mono 6 f); [exact H6 | exact Hf | rewrite H6; discriminate].
Qed.

(** ** Arrays of objects *)

Section Arrays.

Context {A : Type} (show : A -> jsstring) (toJ : A -> JSON) (n0 : nat).

Hypothesis show_parse : forall x rest f,
  n0 <= f -> parseValue f (show x ++ rest) = POk (toJ x) rest.

Hypothesis show_brace : forall x, exists t, show x = 123%N :: t.

Lemma parseElems_list items rest f :
  items <> [] -> n0 + length items <= f ->
  parseElems f (joinComma (map show items) ++ 93%N :: rest)
  = POk (map toJ items) rest.
Proof.
  revert f. induction items as [|x items IH]; intros f Hne Hf; [congruence|].
  destruct f as [|f]; [simpl in Hf; lia|]. rewrite parseElems_S.
  destruct items as [|y items].
  - cbn [map joinComma]. rewrite show_parse by (simpl in Hf; lia). reflexivity.
  - change (joinComma (map show (x :: y :: items)))
      with (show x ++ 44%N :: joinComma (map show (y :: items))).
    rewrite <- app_assoc. cbn [app].
    rewrite show_parse by (simpl in Hf; lia).
    cbn [bindP skipWs]. change (isWs 44) with false. cbv iota.
    change (44 =? 44)%N with true. cbv iota.
    rewrite IH; [reflexivity | discriminate | simpl in *; lia].
Qed.

Lemma parseValue_array items rest f :
  n0 + length items + 1 <= f ->
  parseValue f (arrayText (map show items) ++ rest)
  = POk (JArr (map toJ items)) rest.
Proof.
  intros Hf. destruct f as [|f]; [lia|].
  destruct items as [|x items]; [reflexivity|].
  unfold arrayText. rewrite <- app_comm_cons, <- app_assoc. cbn [app].
  pose proof (parseElems_list (x :: items) rest f) as HE.
  destruct (show_brace x) as [t Ht].
  change (joinComma (map show (x :: items)))
    with (joinComma (show x :: map show items)) in *.
  destruct (map show items) as [|y ys] eqn:Em.
  - cbn [joinComma app] in *. rewrite Ht in *. cbn [app] in *.
    rewrite parseValue_bracket by reflexivity.
    rewrite HE; [reflexivity | discriminate | simpl in *; lia].
  - cbn [joinComma] in *. rewrite Ht in *. rewrite <- !app_comm_cons in *.
    rewrite parseValue_bracket by reflexivity.
    rewrite HE; [reflexivity | discriminate | simpl in *; lia].
Qed.

End Arrays.

Lemma stringifyCareer_brace c : exists t, stringifyCareer c = 123%N :: t.
Proof. eexists. reflexivity. Qed.

Lemma stringifyWork_brace w : exists t, stringifyWork w = 123%N :: t.
Proof. eexists. reflexivity. Qed.

(** ** The whole document *)

Lemma parseValue_stringify v f :
  12 + length (careerV v) + length (worksV v) <= f ->
  parseValue f (JSON_stringify v) = POk (toJSON v) [].
Proof.
  intros Hf. rewrite <- (app_nil_r (JSON_stringify v)).
  unfold JSON_stringify. rewrite objectText_4.
  destruct f as [|f]; [lia|]. rewrite parseValue_object.
  destruct f as [|f]; [lia|].
  destruct f as [|f]; [lia|].
  rewrite (parseMembers_more _ _ _ _ _ (parseValue_string _ _ _)).
  destruct f as [|f]; [lia|].
  rewrite (parseMembers_more _ _ _ _ _ (parseValue_string _ _ _)).
  destruct f as [|f]; [lia|].
  rewrite (parseMembers_more _ _ _ (JArr (map toJSONCareer (careerV v)))).
  2:{ apply (parseValue_array stringifyCareer toJSONCareer 5).
      - intros x rest f'. apply parseValue_career.
      - apply stringifyCareer_brace.
      - lia. }
  rewrite (parseMembers_last _ _ _ (JArr (map toJSONWork (worksV v)))).
  2:{ apply (parseValue_array stringifyWork toJSONWork 6).
      - intros x rest f'. apply parseValue_work.
      - apply stringifyWork_brace.
      - lia. }
  reflexivity.
Qed.

(** [JSON.parse(JSON.stringify(d))] is the value of the content of [d]. *)
Lemma JSON_parse_stringify v : JSON_parse (JSON_stringify v) = Some (toJSON v).
Proof.
  unfold JSON_parse.
  set (text := JSON_stringify v).
  set (need := 12 + length (careerV v) + length (worksV v)).
  assert (H : parseValue (2 * length text + 1) text = POk (toJSON v) []).
  { rewrite <- (JSON_parse_stable text (Nat.max need (2 * length text + 1)))
      by lia.
    apply parseValue_stringify. fold need. lia. }
  rewrite H. reflexivity.
Qed.

Lemma mapM_asCareer cs : mapM asCareer (map toJSONCareer cs) = Some cs.
Proof.
  induction cs as [|c cs IH]; [reflexivity|].
  cbn [map mapM]. rewrite IH. destruct c. reflexivity.
Qed.

Lemma isSafeInteger_spec n : isSafeInteger n = true <-> safeInteger n.
Proof.
  unfold isSafeInteger, safeInteger.
  rewrite andb_true_iff, !Z.leb_le. reflexivity.
Qed.

Lemma mapM_asWork ws :
  Forall (fun w => safeInteger (id w)) ws ->
  mapM asWork (map toJSONWork ws) = Some ws.
Proof.
  induction 1 as [|w ws Hw _ IH]; [reflexivity|].
  cbn [map mapM]. rewrite IH. destruct w as [n t i u].
  apply isSafeInteger_spec in Hw. cbn [id] in Hw.
  unfold toJSONWork, asWork. cbn [id title img url].
  change (isKey "id" (u16 "id") && isKey "title" (u16 "title")
            && isKey "img" (u16 "img") && isKey "url" (u16 "url"))
    with true.
  rewrite Hw. reflexivity.
Qed.

Lemma asSiteValue_toJSON v : serializable v -> asSiteValue (toJSON v) = Some v.
Proof.
  intros Hs. pose proof (mapM_asWork (worksV v) Hs) as Hw. revert Hw.
  destruct v as [p b cs ws]. unfold toJSON, asSiteValue.
  cbn [profileImgV bioV careerV worksV]. intros Hw.
  change (isKey "profileImg" (u16 "profileImg") && isKey "bio" (u16 "bio")
            && isKey "career" (u16 "career") && isKey "works" (u16 "works"))
    with true.
  cbv iota. rewrite mapM_asCareer, Hw. reflexivity.
Qed.

(** ** [JSON.parse] on examples *)

Example JSON_parse_rejects :
  map JSON_parse [u16 ""; u16 "{"; u16 "[1,]"; u16 "01"; u16 "nul";
                  u16 "1."; u16 "-"; u16 "[1 2]"; u16 "{1:2}"; u16 "1 x"]
  = [None; None; None; None; None; None; None; None; None; None].
Proof. vm_compute. reflexivity. Qed.

Example JSON_parse_accepts :
  map JSON_parse [u16 "null"; u16 " true "; u16 "-12"; u16 "[]";
                  u16 "[1, [2], {}]"; u16 "1.5e3"]
  = [Some JNull; Some (JBool true); Some (JNum (-12)); Some (JArr []);
     Some (JArr [JNum 1; JArr [JNum 2]; JObj []]);
     Some (JNumLit (u16 "1.5e3"))].
Proof. vm_compute. reflexivity. Qed.

End JsonFacts.
Import JsonFacts.

(* ===================================================================== *)
(** * The store, the handlers and the reachable states: facts             *)
(* ===================================================================== *)

Module StoreFacts.

Lemma mapM_lookup_valid {A} (xs : list A) (ls : list loc) :
  Forall (fun l => l < length xs) ls <-> is_Some (mapM (fun l => xs !! l) ls).
Proof.
  rewrite mapM_is_Some. apply Forall_iff. intros l. simpl.
  rewrite lookup_lt_is_Some. reflexivity.
Qed.

Lemma content_valid h d : validSite h d <-> is_Some (content h d).
Proof.
  unfold validSite, content. rewrite !mapM_lookup_valid.
  destruct (mapM _ (career d)), (mapM _ (works d)); split;
    try (intros [[? ?] [? ?]]; discriminate);
    try (intros [? ?]; discriminate); eauto.
Qed.

Lemma mapM_lookup_app {A} (xs ys : list A) (ls : list loc) :
  Forall (fun l => l < length xs) ls ->
  mapM (fun l => (xs ++ ys) !! l) ls = mapM (fun l => xs !! l) ls.
Proof.
  induction 1 as [|l ls Hl _ IH]; [reflexivity|].
  cbn [mapM]. rewrite IH, lookup_app_l by exact Hl. reflexivity.
Qed.

(** New objects do not change what older references hold. *)
Lemma content_grow h d cs ws :
  validSite h d ->
  content (mkHeap (careerObjs h ++ cs) (workObjs h ++ ws)) d = content h d.
Proof.
  intros [Hc Hw]. unfold content. cbn [careerObjs workObjs].
  rewrite !mapM_lookup_app by assumption. reflexivity.
Qed.

Lemma mapM_lookup_seq {A} (xs ys : list A) :
  mapM (fun l => (xs ++ ys) !! l) (seq (length xs) (length ys)) = Some ys.
Proof.
  apply mapM_Some. revert xs. induction ys as [|y ys IH]; intros xs.
  - constructor.
  - cbn [length seq]. constructor.
    + rewrite lookup_app_r, Nat.sub_diag by lia. reflexivity.
    + specialize (IH (xs ++ [y])). rewrite length_app in IH. cbn [length] in IH.
      rewrite Nat.add_1_r in IH.
      rewrite <- app_assoc in IH. exact IH.
Qed.

(** The objects that [JSON.parse] builds hold the parsed content. *)
Lemma content_alloc h v :
  content (fst (alloc h v)) (snd (alloc h v)) = Some v.
Proof.
  unfold alloc, content. cbn [fst snd careerObjs workObjs career works
                               profileImg bio].
  rewrite !mapM_lookup_seq. destruct v. reflexivity.
Qed.

End StoreFacts.
Import StoreFacts.

Module AppFacts.

(** ** Persistence *)

Lemma JSON_stringify_truthy v : truthy (JSON_stringify v) = true.
Proof. reflexivity. Qed.

(** The load effect on a snapshot of the shape of [SiteData]. *)
Lemma load_shaped s saved parsed v :
  storage s = Some saved -> truthy saved = true ->
  JSON_parse saved = Some parsed -> asSiteValue parsed = Some v ->
  exists s', load s = LoadedData s' /\ notices s' = notices s /\
             committed s' = Some v /\ working s' = Some v.
Proof.
  intros H1 H2 H3 H4. unfold load. rewrite H1, H2, H3, H4.
  pose proof (content_alloc (heap s) v) as Hc.
  destruct (alloc (heap s) v) as [h d]. cbn [fst snd] in Hc.
  eexists. split; [reflexivity|]. split; [reflexivity|]. split; exact Hc.
Qed.

(** What the load effect does with the text that [saveToLocal] wrote. *)
Lemma load_stringify v stored :
  serializable v ->
  stored = Some (JSON_stringify v) ->
  exists s, load (initialState stored) = LoadedData s /\
            committed s = Some v /\ working s = Some v.
Proof.
  intros Hs ->.
  destruct (load_shaped (initialState (Some (JSON_stringify v)))
              (JSON_stringify v) (toJSON v) v) as (s & H1 & _ & H2 & H3);
    [reflexivity | reflexivity | apply JSON_parse_stringify
    | apply asSiteValue_toJSON, Hs |].
  exists s. auto.
Qed.

(** ** The render of a content *)

Lemma renderJob_toJSON c : renderJob (toJSONCareer c) = Some Rendered.
Proof. destruct c. reflexivity. Qed.

Lemma renderWork_toJSON w : renderWork (toJSONWork w) = Some Rendered.
Proof.
  destruct w as [n t i u]. unfold renderWork, toJSONWork, thumbnailAccess.
  cbn [id title img url]. cbn. destruct i; reflexivity.
Qed.

Lemma renderItems_map {A} (callback : JSON -> option RenderOutcome)
      (toJ : A -> JSON) (xs : list A) :
  (forall x, callback (toJ x) = Some Rendered) ->
  renderItems callback (Parsed (JArr (map toJ xs))) = Some Rendered.
Proof.
  intros H. cbn [renderItems]. induction xs as [|x xs IH]; [reflexivity|].
  cbn [map fold_right]. rewrite H. exact IH.
Qed.

(** The render of a [SiteData] never throws: its strings are text, and
    its arrays have [map]. *)
Lemma renderPage_toJSON v : renderPage (toJSON v) = Some Rendered.
Proof.
  destruct v as [p b cs ws].
  assert (E1 : getField (Parsed (toJSON (mkValue p b cs ws))) "bio"
               = Got (Parsed (JStr b))) by reflexivity.
  assert (E2 : getField (Parsed (toJSON (mkValue p b cs ws))) "career"
               = Got (Parsed (JArr (map toJSONCareer cs)))) by reflexivity.
  assert (E3 : getField (Parsed (toJSON (mkValue p b cs ws))) "works"
               = Got (Parsed (JArr (map toJSONWork ws)))) by reflexivity.
  unfold renderPage. rewrite E1, E2, E3.
  rewrite (renderItems_map _ _ _ renderJob_toJSON).
  rewrite (renderItems_map _ _ _ renderWork_toJSON). reflexivity.
Qed.

Lemma saveToLocal_fails d s : saveToLocal d false s = (setData d s, Throws).
Proof. reflexivity. Qed.

Lemma resetToDefault_twice s :
  resetToDefault true (resetToDefault true s)
  = notify (Alert resetMsg) (resetToDefault true s).
Proof. reflexivity. Qed.

(** ** Removing by index *)

Lemma filterIndex_delete {A} (l : list A) k idx :
  filterIndex (fun i => negb (Nat.eqb i (k + idx))) k l = delete idx l.
Proof.
  revert k idx. induction l as [|x l IH]; intros k idx; [reflexivity|].
  cbn [filterIndex]. destruct idx as [|idx].
  - rewrite Nat.add_0_r, Nat.eqb_refl. cbn [negb delete list_delete].
    clear IH. revert k. induction l as [|y l IH]; intros k; [reflexivity|].
    cbn [filterIndex]. destruct (Nat.eqb_spec (S k) k) as [E|_]; [lia|].
    cbn [negb]. f_equal.
    assert (H : forall j, k < j ->
              filterIndex (fun i => negb (Nat.eqb i k)) j l = l).
    { clear. induction l as [|z l IH]; intros j Hj; [reflexivity|].
      cbn [filterIndex]. destruct (Nat.eqb_spec j k); [lia|].
      cbn [negb]. f_equal. apply IH. lia. }
    apply H. lia.
  - destruct (Nat.eqb_spec k (k + S idx)); [lia|]. cbn [negb delete list_delete].
    f_equal. replace (k + S idx) with (S k + idx) by lia. apply IH.
Qed.

Lemma removeWork_works idx s :
  works (editingData (removeWork idx s)) = delete idx (works (editingData s)).
Proof. apply (filterIndex_delete _ 0 idx). Qed.

Lemma mapM_delete {A B} (f : A -> option B) l k i :
  mapM f l = Some k -> mapM f (delete i l) = Some (delete i k).
Proof. rewrite !mapM_Some. apply Forall2_delete. Qed.

Lemma mapM_snoc {A B} (f : A -> option B) l k x y :
  mapM f l = Some k -> f x = Some y -> mapM f (l ++ [x]) = Some (k ++ [y]).
Proof.
  rewrite !mapM_Some. intros H Hx. apply Forall2_app; [exact H|].
  constructor; [exact Hx | constructor].
Qed.

Lemma content_Some h d v :
  content h d = Some v ->
  mapM (fun l => careerObjs h !! l) (career d) = Some (careerV v) /\
  mapM (fun l => workObjs h !! l) (works d) = Some (worksV v) /\
  profileImgV v = profileImg d /\ bioV v = bio d.
Proof.
  unfold content.
  destruct (mapM _ (career d)), (mapM _ (works d)); try discriminate.
  intros [= <-]. auto.
Qed.

End AppFacts.
Import AppFacts.


Module Invariant.

Lemma heapLe_refl h : heapLe h h.
Proof. split; lia. Qed.

Lemma heapLe_trans h1 h2 h3 : heapLe h1 h2 -> heapLe h2 h3 -> heapLe h1 h3.
Proof. intros [? ?] [? ?]. split; lia. Qed.

Lemma validSite_mono h h' d : heapLe h h' -> validSite h d -> validSite h' d.
Proof.
  intros [Hc Hw] [Vc Vw]. split.
  - eapply list.Forall_impl; [exact Vc|]. intros l Hl. simpl in *. lia.
  - eapply list.Forall_impl; [exact Vw|]. intros l Hl. simpl in *. lia.
Qed.

Lemma wellFormed_mono s h' d e rs :
  wellFormed s -> heapLe (heap s) h' ->
  validSite h' d -> validSite h' e -> Forall (fun r => validSite h' (captured r)) rs ->
  wellFormed (mkApp h' d (isAdminOpen s) (isAuth s) (passInput s) e
                    (storage s) (notices s) rs).
Proof.
  intros (_ & _ & _ & Hdef) Hle Hd He Hrs.
  repeat split; cbn [heap data editingData readers]; try apply Hd;
    try apply He; try exact Hrs; apply (validSite_mono _ _ _ Hle Hdef).
Qed.

Lemma swapThumbnail_valid wid base64 ws :
  forall h, Forall (fun l => l < length (workObjs h)) ws ->
  let r := swapThumbnail wid base64 h ws in
  heapLe h (fst r) /\ careerObjs (fst r) = careerObjs h /\
  Forall (fun l => l < length (workObjs (fst r))) (snd r).
Proof.
  induction ws as [|l ws IH]; intros h Hv; cbn zeta.
  - cbn [swapThumbnail fst snd]. split; [apply heapLe_refl|]. split; auto.
  - apply list.Forall_cons in Hv as [Hl Hv]. cbn [swapThumbnail].
    match goal with
    | |- context [match ?x with Some _ => _ | None => _ end] =>
        destruct x as [w|]
    end.
    + destruct (Z.eqb (id w) wid).
      * set (h1 := mkHeap (careerObjs h)
                          (workObjs h ++ [assignWork WImg base64 w])).
        assert (Hv1 : Forall (fun l => l < length (workObjs h1)) ws).
        { eapply list.Forall_impl; [exact Hv|]. intros x Hx. subst h1.
          cbn [workObjs]. rewrite length_app. simpl in *. lia. }
        specialize (IH h1 Hv1). cbn zeta in IH.
        destruct (swapThumbnail wid base64 h1 ws) as [h2 rest'].
        cbn [fst snd] in *. destruct IH as ([Hc Hw] & Hcar & Hrest).
        subst h1. cbn [careerObjs workObjs] in *. rewrite length_app in Hw.
        cbn [length] in Hw. repeat split; try lia; try assumption.
        apply list.Forall_cons. split; [lia | exact Hrest].
      * specialize (IH h Hv). cbn zeta in IH.
        destruct (swapThumbnail wid base64 h ws) as [h2 rest'].
        cbn [fst snd] in *. destruct IH as ([Hc Hw] & Hcar & Hrest).
        repeat split; try lia; try assumption.
        apply list.Forall_cons. split; [lia | exact Hrest].
    + specialize (IH h Hv). cbn zeta in IH.
      destruct (swapThumbnail wid base64 h ws) as [h2 rest'].
      cbn [fst snd] in *. destruct IH as ([Hc Hw] & Hcar & Hrest).
      repeat split; try lia; try assumption.
      apply list.Forall_cons. split; [lia | exact Hrest].
Qed.

Lemma wellFormed_initial stored : wellFormed (initialState stored).
Proof.
  unfold wellFormed, validSite. cbn.
  repeat split; repeat constructor.
Qed.

Lemma Forall_delete {A} (P : A -> Prop) l i : Forall P l -> Forall P (delete i l).
Proof.
  intros H. rewrite delete_take_drop. apply Forall_app.
  split; [apply Forall_take | apply Forall_drop]; exact H.
Qed.

(** Every handler keeps the state well formed. *)
Lemma wellFormed_handle e s : wellFormed s -> wellFormed (fst (handle e s)).
Proof.
  intros Hwf. pose proof Hwf as (Hd & He & Hr & Hdef).
  destruct e; cbn [handle fst]; try exact Hwf;
    try (repeat split; assumption).
  - (* AdminTrigger *)
    repeat split; cbn; try apply Hd; try apply Hdef; exact Hr.
  - (* PasswordSubmit *)
    unfold handlePasswordSubmit. case_bool_decide; exact Hwf.
  - (* UpdateCareerItem *)
    unfold updateCareerItem.
    destruct (career (editingData s) !! idx) as [l|]; [|exact Hwf].
    cbn [fst].
    assert (Hle : forall d, validSite (heap s) d ->
              validSite (mkHeap (alter (assignCareer f v) l
                                   (careerObjs (heap s)))
                                (workObjs (heap s))) d).
    { intros d. apply validSite_mono. split; cbn; rewrite ?length_alter; lia. }
    repeat split; cbn; try apply Hle; try assumption;
      try (apply (Hle _ Hd)); try (apply (Hle _ He)); try (apply (Hle _ Hdef)).
    eapply list.Forall_impl; [exact Hr|]. intros r. apply Hle.
  - (* UpdateWorkField *)
    unfold updateWorkField.
    destruct (works (editingData s) !! idx) as [l|]; [|exact Hwf].
    cbn [fst].
    assert (Hle : forall d, validSite (heap s) d ->
              validSite (mkHeap (careerObjs (heap s))
                                (alter (assignWork f v) l (workObjs (heap s))))
                        d).
    { intros d. apply validSite_mono. split; cbn; rewrite ?length_alter; lia. }
    repeat split; cbn; try apply Hle; try assumption;
      try (apply (Hle _ Hd)); try (apply (Hle _ He)); try (apply (Hle _ Hdef)).
    eapply list.Forall_impl; [exact Hr|]. intros r. apply Hle.
  - (* AddWork *)
    unfold addWork.
    assert (Hle : forall d, validSite (heap s) d ->
              validSite (mkHeap (careerObjs (heap s))
                                (workObjs (heap s) ++ [newWork now])) d).
    { intros d. apply validSite_mono. split; cbn; rewrite ?length_app; lia. }
    repeat split; cbn; try (apply (Hle _ Hd)); try (apply (Hle _ He));
      try (apply (Hle _ Hdef)).
    + apply Forall_app. split; [apply (Hle _ He)|].
      repeat constructor. rewrite length_app. simpl. lia.
    + eapply list.Forall_impl; [exact Hr|]. intros r. apply Hle.
  - (* RemoveWork *)
    repeat split; cbn; try apply Hd; try apply He; try apply Hdef;
      try exact Hr.
    change (Forall (fun l => l < length (workObjs (heap s)))
              (works (editingData (removeWork idx s)))).
    rewrite removeWork_works. apply Forall_delete, He.
  - (* Commit *)
    unfold saveToLocal. destruct writable; cbn [fst];
      repeat split; cbn; try apply He; try apply Hdef; exact Hr.
  - (* FactoryReset *)
    destruct confirmed; [|exact Hwf].
    repeat split; cbn; try apply Hdef; exact Hr.
  - (* ChooseFile *)
    repeat split; cbn; try apply Hd; try apply He; try apply Hdef.
    apply Forall_app. split; [exact Hr|]. repeat constructor; apply He.
  - (* ReaderDone *)
    unfold readerDone. destruct (readers s !! i) as [r|] eqn:Ei; [|exact Hwf].
    assert (Hcap : validSite (heap s) (captured r)).
    { eapply Forall_lookup_1 in Hr; [exact Hr | exact Ei]. }
    assert (Hr' : Forall (fun r => validSite (heap s) (captured r))
                         (delete i (readers s))) by (apply Forall_delete, Hr).
    destruct (target r) as [|wid].
    + repeat split; cbn; try apply Hd; try apply Hcap; try apply Hdef;
        exact Hr'.
    + pose proof (swapThumbnail_valid wid base64 (works (captured r))
                    (heap s) (proj2 Hcap)) as Hs.
      cbn zeta in Hs.
      destruct (swapThumbnail wid base64 (heap s) (works (captured r)))
        as [h newWorks].
      cbn [fst snd] in Hs. destruct Hs as (Hle & Hcar & Hnew).
      apply (wellFormed_mono s h (data s)
               (mkSite (profileImg (captured r)) (bio (captured r))
                       (career (captured r)) newWorks)
               (delete i (readers s))); try assumption.
      * apply (validSite_mono _ _ _ Hle Hd).
      * split; cbn; [|exact Hnew]. rewrite Hcar. apply Hcap.
      * eapply list.Forall_impl; [exact Hr'|]. intros x.
        apply (validSite_mono _ _ _ Hle).
Qed.

Lemma wellFormed_runEvents es :
  forall s s', wellFormed s -> runEvents s es = Some s' -> wellFormed s'.
Proof.
  induction es as [|e es IH]; intros s s' Hwf; cbn [runEvents].
  - intros [= <-]. exact Hwf.
  - unfold step. destruct (available s e); [|discriminate].
    apply IH, wellFormed_handle, Hwf.
Qed.

Lemma seq_valid n m : Forall (fun l => l < n + m) (seq n m).
Proof.
  apply List.Forall_forall. intros l Hl. apply in_seq in Hl. lia.
Qed.

Lemma wellFormed_alloc s v :
  wellFormed s ->
  wellFormed (setEditingData (snd (alloc (heap s) v))
                (setData (snd (alloc (heap s) v))
                   (setHeap (fst (alloc (heap s) v)) s))).
Proof.
  intros Hwf. pose proof Hwf as (Hd & He & Hr & Hdef).
  assert (Hle : heapLe (heap s) (fst (alloc (heap s) v))).
  { split; cbn; rewrite length_app; lia. }
  assert (Hnew : validSite (fst (alloc (heap s) v)) (snd (alloc (heap s) v))).
  { split; cbn; rewrite length_app; apply seq_valid. }
  apply (wellFormed_mono s _ _ _ (readers s) Hwf Hle Hnew Hnew).
  eapply list.Forall_impl; [exact Hr|]. intros r.
  apply (validSite_mono _ _ _ Hle).
Qed.

Lemma wellFormed_load stored s :
  load (initialState stored) = LoadedData s \/
  load (initialState stored) = KeptDefault s -> wellFormed s.
Proof.
  unfold load.
  pose proof (wellFormed_initial stored) as Hi.
  destruct (storage (initialState stored)) as [saved|];
    [|intros [[=]|[= <-]]; exact Hi].
  destruct (truthy saved); [|intros [[=]|[= <-]]; exact Hi].
  destruct (JSON_parse saved) as [parsed|].
  - destruct (asSiteValue parsed) as [v|]; [|intros [[=]|[=]]].
    pose proof (wellFormed_alloc _ v Hi) as Ha.
    destruct (alloc (heap (initialState stored)) v) as [h d].
    intros [[= <-]|[=]]. exact Ha.
  - intros [[=]|[= <-]]. exact Hi.
Qed.

(** In a well-formed state the committed data and the working copy
    have a content: [JSON.stringify] in [saveToLocal] is defined. *)
Lemma wellFormed_contents s :
  wellFormed s -> is_Some (committed s) /\ is_Some (working s).
Proof.
  intros (Hd & He & _). split; apply content_valid; assumption.
Qed.

End Invariant.
Import Invariant.

Module EditFacts.

(** ** What a session does to the committed data *)

Lemma committed_setBio v s : committed (setBio v s) = committed s.
Proof. reflexivity. Qed.

Lemma committed_setProfileImage v s :
  committed (setProfileImage v s) = committed s.
Proof. reflexivity. Qed.

Lemma committed_removeWork idx s : committed (removeWork idx s) = committed s.
Proof. reflexivity. Qed.

Lemma committed_addWork now s :
  wellFormed s -> committed (addWork now s) = committed s.
Proof.
  intros (Hd & _). unfold committed, addWork.
  cbn [heap data setEditingData setHeap].
  rewrite <- (content_grow (heap s) (data s) [] [newWork now] Hd).
  rewrite app_nil_r. reflexivity.
Qed.

Lemma committed_closeAdmin s : committed (closeAdmin s) = committed s.
Proof. reflexivity. Qed.

(** A session that only sets the bio or the profile image, adds works
    and removes works leaves the committed content as it was, and so
    does its cancellation. *)
Lemma cancel_isolation_copyOnWrite es :
  forall s s',
    wellFormed s -> forallb copyOnWrite es = true ->
    runEvents s es = Some s' ->
    committed s' = committed s /\ committed (closeAdmin s') = committed s.
Proof.
  induction es as [|e es IH]; intros s s' Hwf Hes; cbn [runEvents].
  - intros [= <-]. auto.
  - cbn [forallb] in Hes. apply andb_true_iff in Hes as [He Hes].
    unfold step. destruct (available s e); [|discriminate]. intros Hrun.
    destruct (IH _ _ (wellFormed_handle e s Hwf) Hes Hrun) as [H1 H2].
    assert (Hc : committed (fst (handle e s)) = committed s).
    { destruct e; try discriminate He; cbn [handle fst];
        try reflexivity. apply committed_addWork, Hwf. }
    rewrite H1, H2, Hc. auto.
Qed.

(** Right after the editor opens, the working copy is the committed
    data itself ([setEditingData(data)]): a field edit in place leaves
    the two the same, so that the committed content follows the
    working copy. *)
Lemma edit_in_place_is_committed idx f v s :
  data s = editingData s ->
  let s' := fst (updateCareerItem idx f v s) in
  data s' = editingData s' /\ committed s' = working s'.
Proof.
  intros H. cbn zeta. unfold updateCareerItem.
  destruct (career (editingData s) !! idx) as [l|]; cbn [fst].
  - assert (E : data s = mkSite (profileImg (editingData s))
                                (bio (editingData s))
                                (career (editingData s))
                                (works (editingData s))).
    { rewrite H. destruct (editingData s). reflexivity. }
    unfold committed, working.
    cbn [data editingData heap setEditingData setHeap]. rewrite E. auto.
  - unfold committed, working. rewrite H. auto.
Qed.

Lemma handleAdminTrigger_shares s :
  data (handleAdminTrigger s) = editingData (handleAdminTrigger s).
Proof. reflexivity. Qed.

(** ** Reset *)

Lemma resetToDefault_state s :
  let s' := resetToDefault true s in
  storage s' = None /\ data s' = DEFAULT_DATA /\
  editingData s' = DEFAULT_DATA /\ gate s' = Closed /\
  heap s' = heap s /\ notices s' = notices s ++ [Alert resetMsg].
Proof. repeat split. Qed.

Lemma resetToDefault_declined s : resetToDefault false s = s.
Proof. reflexivity. Qed.

(** When no edit in place has touched the objects of [DEFAULT_DATA],
    a reset restores the content of the source text. *)
Lemma resetToDefault_content s :
  take 3 (careerObjs (heap s)) = defaultCareer ->
  take 6 (workObjs (heap s)) = defaultWorks ->
  committed (resetToDefault true s) = Some defaultValue.
Proof.
  intros Hc Hw. unfold committed, content.
  cbn [heap data resetToDefault notify setIsAuth setIsAdminOpen
       setEditingData setData setStorage DEFAULT_DATA career works
       profileImg bio].
  destruct (careerObjs (heap s)) as [|c0 [|c1 [|c2 cs]]]; try discriminate.
  destruct (workObjs (heap s)) as [|w0 [|w1 [|w2 [|w3 [|w4 [|w5 ws]]]]]];
    try discriminate.
  cbn in Hc, Hw. rewrite ?take_0 in Hc, Hw.
  injection Hc as -> -> ->. injection Hw as -> -> -> -> -> ->.
  reflexivity.
Qed.

(** ** Image upload *)

(** The result of a read goes into the working copy that the reader
    captured, whatever the working copy is by then and whether or not
    a session is open. *)
Lemma readerDone_profile i base64 s r :
  readers s !! i = Some r -> target r = TProfile ->
  editingData (readerDone i base64 s)
  = mkSite base64 (bio (captured r)) (career (captured r))
           (works (captured r)).
Proof. intros H1 H2. unfold readerDone. rewrite H1, H2. reflexivity. Qed.

End EditFacts.
Import EditFacts.

(* ===================================================================== *)
(** * The claims                                                          *)
(* ===================================================================== *)

(** C1. [getThumbnail] follows the fallback chain, first match wins:
    a non-empty [img] is returned verbatim; otherwise, when the
    expression of [getYoutubeId] extracts an identifier of exactly
    eleven characters from [url], the result is the text
    [https://img.youtube.com/vi/], then that identifier, then
    [/maxresdefault.jpg]; otherwise (no identifier, or one of another
    length) the result is the fixed placeholder
    [https://placehold.co/600x400/111/333?text=NO+IMAGE].  The three
    examples of the specification are the last three conjuncts. *)
Theorem C1_getThumbnail_fallback_chain :
  (forall work, img work <> [] -> getThumbnail work = img work) /\
  (forall work ident,
      img work = [] -> Extracts (url work) ident -> length ident = 11 ->
      getThumbnail work
      = u16 "https://img.youtube.com/vi/" ++ ident ++ u16 "/maxresdefault.jpg") /\
  (forall work,
      img work = [] ->
      (forall ident, Extracts (url work) ident -> length ident <> 11) ->
      getThumbnail work
      = u16 "https://placehold.co/600x400/111/333?text=NO+IMAGE") /\
  (forall i t,
      getThumbnail
        (mkWork i t [] (u16 "https://www.youtube.com/watch?v=aqz-KE-bpKQ"))
      = u16 "https://img.youtube.com/vi/aqz-KE-bpKQ/maxresdefault.jpg") /\
  (forall i t,
      getThumbnail (mkWork i t [] [])
      = u16 "https://placehold.co/600x400/111/333?text=NO+IMAGE") /\
  (forall i t anything,
      getThumbnail (mkWork i t (u16 "X") anything) = u16 "X").
Proof.
  split; [|split; [|split; [|split; [|split]]]].
  - intros work H. unfold getThumbnail.
    destruct (img work); [contradiction | reflexivity].
  - intros work ident Himg HE Hl. unfold getThumbnail. rewrite Himg. simpl.
    rewrite (proj2 (getYoutubeId_spec _ _) (conj HE Hl)).
    destruct ident; [discriminate | reflexivity].
  - intros work Himg H. unfold getThumbnail. rewrite Himg. simpl.
    rewrite (proj2 (getYoutubeId_None _) H). reflexivity.
  - intros i t. vm_compute. reflexivity.
  - intros i t. vm_compute. reflexivity.
  - intros i t anything. reflexivity.
Qed.

(** C2 at a failing input. A fresh mount without snapshot; the editor
    is opened, the date of the first career item is set to "X", the
    session is cancelled. The committed data is the same [SiteData]
    as before, and its content is not: the first career item, which
    the working copy shared, carries the edit. *)
Theorem C2_cancel_keeps_career_edit :
  exists s1,
    runEvents (initialState None)
      (unlock ++ [UpdateCareerItem 0 CDate (u16 "X"); CloseAdmin]) = Some s1 /\
    gate s1 = Closed /\
    storage s1 = None /\
    data s1 = data (initialState None) /\
    committed (initialState None) = Some defaultValue /\
    committed s1 = Some (defaultWithFirstDate (u16 "X")) /\
    committed s1 <> committed (initialState None).
Proof.
  eexists. split; [vm_compute; reflexivity|].
  repeat split; try (vm_compute; reflexivity). vm_compute. discriminate.
Qed.

(** The same through a work item: its title is edited, the session is
    cancelled, and the committed title is the edited one. *)
Lemma cancel_keeps_work_edit :
  exists s1,
    runEvents (initialState None)
      (unlock ++ [UpdateWorkField 0 WTitle (u16 "X"); CloseAdmin]) = Some s1 /\
    option_map (fun v => map title (take 1 (worksV v))) (committed s1)
    = Some [u16 "X"].
Proof. eexists. split; vm_compute; reflexivity. Qed.

(** C3. Round trip: when [saveToLocal] commits a [SiteData] of content
    [v] (every reference resolves; every id is an integer that
    JavaScript holds exactly) and the write succeeds, the snapshot is
    [JSON.stringify] of [v], and the load effect of a fresh mount over
    that snapshot yields a state whose data has content [v]. *)
Theorem C3_commit_then_load_roundtrip (s : AppState) (newData : SiteData)
        (v : SiteValue) :
  content (heap s) newData = Some v ->
  serializable v ->
  let s' := fst (saveToLocal newData true s) in
  storage s' = Some (JSON_stringify v) /\
  committed s' = Some v /\
  exists s'', load (initialState (storage s')) = LoadedData s'' /\
              committed s'' = Some v /\ working s'' = Some v.
Proof.
  intros Hc Hs. cbn zeta.
  assert (Hst : storage (fst (saveToLocal newData true s))
                = Some (JSON_stringify v)).
  { cbn. unfold stringifyData. rewrite Hc. reflexivity. }
  split; [exact Hst|]. split; [exact Hc|].
  apply load_stringify; [exact Hs | exact Hst].
Qed.

Lemma C3_roundtrip_default :
  content (heap (initialState None)) DEFAULT_DATA = Some defaultValue /\
  serializable defaultValue /\
  exists s'',
    load (initialState
            (storage (fst (saveToLocal DEFAULT_DATA true (initialState None)))))
    = LoadedData s'' /\
    committed s'' = Some defaultValue /\ working s'' = Some defaultValue.
Proof.
  assert (H1 : content (heap (initialState None)) DEFAULT_DATA
               = Some defaultValue) by reflexivity.
  assert (H2 : serializable defaultValue).
  { unfold serializable, safeInteger. repeat constructor; simpl; lia. }
  split; [exact H1|]. split; [exact H2|].
  exact (proj2 (proj2 (C3_commit_then_load_roundtrip
                         (initialState None) DEFAULT_DATA defaultValue H1 H2))).
Defined.

(** The load effect on every snapshot. With no snapshot, or with the
    empty string as snapshot, the data stays the default and nothing is
    reported. With a non-empty snapshot that [JSON.parse] rejects, the
    data stays the default and one diagnostic is logged. With a
    snapshot that [JSON.parse] accepts, the data becomes the parsed
    value, whatever it is (no validation takes place), nothing is
    reported, and the render that follows reads that value. *)
Lemma load_outcomes (stored : option jsstring) :
  let s0 := initialState stored in
  data s0 = DEFAULT_DATA /\ committed s0 = Some defaultValue /\
  match stored with
  | None => load s0 = KeptDefault s0
  | Some [] => load s0 = KeptDefault s0
  | Some (c :: saved) =>
      match JSON_parse (c :: saved) with
      | None =>
          load s0 = KeptDefault (notify parseDiagnostic s0) /\
          parseValue (2 * length (c :: saved) + 1) (c :: saved) <> PFuel
      | Some parsed =>
          match asSiteValue parsed with
          | Some v =>
              exists s, load s0 = LoadedData s /\ notices s = [] /\
                        committed s = Some v /\ working s = Some v
          | None =>
              load s0 = LoadedOther s0 parsed /\
              renderAfter (load s0) = renderPage parsed
          end
      end
  end.
Proof.
  cbn zeta. split; [reflexivity|]. split; [reflexivity|].
  destruct stored as [[|c saved]|]; try reflexivity.
  destruct (JSON_parse (c :: saved)) as [parsed|] eqn:Ep.
  - destruct (asSiteValue parsed) as [v|] eqn:Ev.
    + destruct (load_shaped (initialState (Some (c :: saved)))
                  (c :: saved) parsed v) as (s & H1 & H2 & H3 & H4);
        try reflexivity; try assumption.
      exists s. auto.
    + unfold load. cbn [storage initialState truthy]. rewrite Ep, Ev.
      split; reflexivity.
  - split; [|apply JSON_parse_fuel].
    unfold load. cbn [storage initialState truthy]. rewrite Ep. reflexivity.
Qed.

(** C4 at a failing input. The snapshot is the text [null], which is
    present and is no [SiteData]. [JSON.parse] accepts it, so that the
    [catch] is not entered: the effect returns after [setData(null)]
    and [setEditingData(null)], with no diagnostic, and the render that
    follows throws at [data.bio]. The page shows neither the default
    nor the snapshot. The same happens with the snapshot [{}], at
    [data.career.map]; and where [localStorage.getItem] itself throws,
    the exception leaves the effect. *)
Theorem C4_null_snapshot_crashes :
  let s0 := initialState (Some (u16 "null")) in
  let s1 := initialState (Some (u16 "{}")) in
  JSON_parse (u16 "null") = Some JNull /\
  loadEffect true s0 = EffectReturns (LoadedOther s0 JNull) /\
  notices s0 = [] /\
  renderAfter (load s0) = Some RenderThrows /\
  load s0 <> KeptDefault (notify parseDiagnostic s0) /\
  load s0 <> KeptDefault s0 /\
  loadEffect true s1 = EffectReturns (LoadedOther s1 (JObj [])) /\
  renderAfter (load s1) = Some RenderThrows /\
  loadEffect false (initialState None) = EffectThrows.
Proof.
  cbn zeta. repeat split; try (vm_compute; reflexivity);
    vm_compute; discriminate.
Qed.

(** C5 at a failing input. A fresh mount without snapshot; the editor
    is opened, the bio is set to "B", and COMMIT ARCHIVE is pressed
    while [localStorage.setItem] throws. The handler is left by the
    exception: the data in memory is the new one, the snapshot is the
    previous one (none), the editor is still open and no alert says
    that anything was saved; the next mount shows the default. *)
Theorem C5_failed_write_diverges :
  exists s1 s2,
    runEvents (initialState None) (unlock ++ [SetBio (u16 "B")]) = Some s1 /\
    handle (Commit false) s1 = (s2, Throws) /\
    committed s1 = Some defaultValue /\
    storage s1 = None /\
    committed s2
    = Some (mkValue defaultProfileImg (u16 "B") defaultCareer defaultWorks) /\
    storage s2 = None /\
    gate s2 = Unlocked /\ notices s2 = [] /\
    load (initialState (storage s2)) = KeptDefault (initialState None).
Proof.
  eexists _, _. split; [vm_compute; reflexivity|].
  split; [vm_compute; reflexivity|]. repeat split; vm_compute; reflexivity.
Qed.

(** C6, as the code has it. CREATE NEW ENTRY appends exactly one
    [WorkItem] to the working copy and leaves the entries before it
    and the committed data as they were; the new entry has the title
    'New Archive', an empty [img], an empty [url], and [Date.now()] as
    its [id]; the ids of the working copy stay pairwise distinct
    whenever that timestamp is none of them. *)
Theorem C6_addWork_appends (now : Z) (s : AppState) (v : SiteValue) :
  working s = Some v ->
  let s' := addWork now s in
  working s' = Some (withWorks (worksV v ++ [newWork now]) v) /\
  (forall c, committed s = Some c -> committed s' = Some c) /\
  id (newWork now) = now /\
  title (newWork now) = u16 "New Archive" /\
  img (newWork now) = [] /\ url (newWork now) = [] /\
  (NoDup (ids v) -> now ∉ ids v ->
   NoDup (ids (withWorks (worksV v ++ [newWork now]) v))).
Proof.
  intros Hw. cbn zeta.
  pose proof (proj2 (content_valid _ _) (ex_intro _ v Hw)) as Hvalid.
  split; [|split; [|repeat split]].
  - unfold working, addWork in *. cbn [heap editingData setEditingData setHeap].
    apply content_Some in Hw as (Hc & Hws & Hp & Hb).
    unfold content. cbn [careerObjs workObjs career works profileImg bio].
    rewrite Hc.
    rewrite (mapM_snoc _ _ (worksV v) _ (newWork now)).
    + unfold withWorks. rewrite Hp, Hb. reflexivity.
    + rewrite mapM_lookup_app; [exact Hws | apply Hvalid].
    + rewrite lookup_app_r, Nat.sub_diag by lia. reflexivity.
  - intros c Hc. unfold committed, addWork in *.
    cbn [heap data setEditingData setHeap].
    pose proof (proj2 (content_valid _ _) (ex_intro _ c Hc)) as Hd.
    rewrite <- Hc.
    rewrite <- (content_grow (heap s) (data s) [] [newWork now] Hd).
    rewrite app_nil_r. reflexivity.
  - intros Hnd Hnot. unfold ids, withWorks in *. cbn [worksV].
    rewrite map_app. cbn [map newWork id].
    apply list.NoDup_app. split; [exact Hnd|]. split.
    + intros x Hx Hx'. apply list_elem_of_singleton in Hx'. subst. contradiction.
    + apply list.NoDup_singleton.
Qed.

Lemma C6_addWork_on_default :
  working (initialState None) = Some defaultValue /\
  working (addWork 1762000000000 (initialState None))
  = Some (withWorks (defaultWorks ++ [newWork 1762000000000]) defaultValue).
Proof.
  assert (H : working (initialState None) = Some defaultValue) by reflexivity.
  split; [exact H|].
  exact (proj1 (C6_addWork_appends 1762000000000 (initialState None)
                  defaultValue H)).
Defined.

(** C6 fails as stated: the title of the new entry is not empty, and
    two entries created within the same millisecond have the same id. *)
Lemma C6_title_not_empty_and_ids_collide :
  title (newWork 1762000000000) = u16 "New Archive" /\
  title (newWork 1762000000000) <> [] /\
  option_map ids
    (working (addWork 1762000000000
                (addWork 1762000000000 (initialState None))))
  = Some [1; 2; 3; 4; 5; 6; 1762000000000; 1762000000000]%Z /\
  ~ NoDup [1; 2; 3; 4; 5; 6; 1762000000000; 1762000000000]%Z.
Proof.
  split; [reflexivity|]. split; [discriminate|].
  split; [vm_compute; reflexivity|].
  intros H. do 6 (apply list.NoDup_cons in H as [_ H]).
  apply list.NoDup_cons in H as [H _]. apply H. constructor.
Qed.



(** An index out of bounds, which no PURGE button carries, would leave
    the working list as it is. *)
Lemma removeWork_out_of_bounds idx s :
  length (works (editingData s)) <= idx ->
  works (editingData (removeWork idx s)) = works (editingData s).
Proof.
  intros H. rewrite removeWork_works, delete_take_drop, take_ge, drop_ge by lia.
  apply app_nil_r.
Qed.

(** C8. With the key form on screen, VERIFY opens the editor if and
    only if the key input equals the configured key; with any other
    input the gate stays locked, the input is cleared and one alert
    is shown. *)
Theorem C8_verify_exact_match (s : AppState) :
  gate s = Locked ->
  let s' := handlePasswordSubmit s in
  (gate s' = Unlocked <-> passInput s = secret) /\
  (passInput s <> secret ->
   gate s' = Locked /\ passInput s' = [] /\
   notices s' = notices s ++ [Alert badKeyMsg]) /\
  data s' = data s /\ editingData s' = editingData s /\
  storage s' = storage s /\ heap s' = heap s.
Proof.
  intros Hl. cbn zeta.
  assert (Hs : isAdminOpen s = true /\ isAuth s = false).
  { unfold gate in Hl. destruct (isAdminOpen s), (isAuth s);
      try discriminate; auto. }
  destruct Hs as [Ho Ha].
  unfold handlePasswordSubmit. destruct (decide (passInput s = secret)) as [E|E].
  - rewrite bool_decide_eq_true_2 by exact E. cbv iota.
    assert (Hg : gate (setIsAuth true s) = Unlocked).
    { unfold gate. cbn [setIsAuth isAdminOpen isAuth]. rewrite Ho. reflexivity. }
    split; [split; auto|]. split; [intros H; contradiction|]. repeat split.
  - rewrite bool_decide_eq_false_2 by exact E. cbv iota.
    assert (Hg : gate (setPassInput [] (notify (Alert badKeyMsg) s)) = Locked).
    { unfold gate. cbn [setPassInput notify isAdminOpen isAuth].
      rewrite Ho, Ha. reflexivity. }
    split; [split; [rewrite Hg; discriminate | intros; contradiction]|].
    split; [intros _; repeat split; exact Hg|]. repeat split.
Qed.

Lemma C8_verify_on_fresh_form :
  gate (handleAdminTrigger (initialState None)) = Locked /\
  gate (handlePasswordSubmit (handleAdminTrigger (initialState None))) = Locked /\
  gate (handlePasswordSubmit
          (setPassInput secret (handleAdminTrigger (initialState None))))
  = Unlocked.
Proof.
  split; [reflexivity|]. split.
  - pose proof (C8_verify_exact_match
                  (handleAdminTrigger (initialState None)) eq_refl) as H.
    cbn zeta in H. apply H. discriminate.
  - apply (C8_verify_exact_match
             (setPassInput secret (handleAdminTrigger (initialState None)))
             eq_refl).
    reflexivity.
Defined.

(** C9 at a failing input. A fresh mount without snapshot; the editor
    is opened, the date of the first career item is set to "X", and
    FACTORY RESET is confirmed. The snapshot is gone and the data is
    [DEFAULT_DATA], whose first career item still carries the edit:
    the content is not the one of the source text. *)
Theorem C9_reset_after_edit_in_place :
  exists s1,
    runEvents (initialState None)
      (unlock ++ [UpdateCareerItem 0 CDate (u16 "X"); FactoryReset true])
    = Some s1 /\
    storage s1 = None /\
    data s1 = DEFAULT_DATA /\
    committed s1 = Some (defaultWithFirstDate (u16 "X")) /\
    committed s1 <> Some defaultValue /\
    committed (resetToDefault true s1) = committed s1.
Proof.
  eexists. split; [vm_compute; reflexivity|].
  repeat split; try (vm_compute; reflexivity). vm_compute. discriminate.
Qed.

(** C10 at a failing input. In a first session the bio is set to
    "draft" and a profile image is chosen; the session is cancelled
    before the file is read. A second session is opened: its working
    copy is the committed data. Then the read of the first session
    completes: the working copy of the second session becomes the one
    of the cancelled session with the image in it, and COMMIT ARCHIVE
    persists the cancelled draft. *)
Theorem C10_late_read_replaces_live_session :
  exists s1 s2 s3,
    runEvents (initialState None)
      (unlock ++ [SetBio (u16 "draft"); ChooseFile TProfile; CloseAdmin]
       ++ unlock) = Some s1 /\
    gate s1 = Unlocked /\ working s1 = Some defaultValue /\
    step s1 (ReaderDone 0 (u16 "data:image/png;base64,AAAA")) = Some s2 /\
    gate s2 = Unlocked /\
    working s2
    = Some (mkValue (u16 "data:image/png;base64,AAAA") (u16 "draft")
                    defaultCareer defaultWorks) /\
    step s2 (Commit true) = Some s3 /\
    committed s3 = working s2.
Proof.
  eexists _, _, _. split; [vm_compute; reflexivity|].
  do 2 (split; [vm_compute; reflexivity|]).
  split; [vm_compute; reflexivity|].
  do 2 (split; [vm_compute; reflexivity|]).
  split; vm_compute; reflexivity.
Qed.

(** The same when no session is open any more: the read completes
    after CANCEL and still writes the working copy. *)
Lemma late_read_after_cancel :
  exists s1 s2,
    runEvents (initialState None)
      (unlock ++ [ChooseFile TProfile; CloseAdmin]) = Some s1 /\
    gate s1 = Closed /\
    step s1 (ReaderDone 0 (u16 "data:image/png;base64,AAAA")) = Some s2 /\
    working s2 <> working s1.
Proof.
  eexists _, _. split; [vm_compute; reflexivity|].
  split; [vm_compute; reflexivity|]. split; [vm_compute; reflexivity|].
  vm_compute. discriminate.
Qed.

(* ===================================================================== *)
(** * Further properties of the resolver and of the page                 *)
(* ===================================================================== *)

Module PageFacts.

Lemma getYoutubeId_length url ident :
  getYoutubeId url = Some ident -> length ident = 11.
Proof. intros H. apply getYoutubeId_spec in H. apply H. Qed.

(** Every delimiter holds a slash or an equals sign. *)
Lemma Delim_slash_or_equals d :
  Delim d -> exists c, In c d /\ memN c (u16 "/=") = true.
Proof.
  intros [c Hc| |c Hc| | |].
  - exists 47%N. split; [|reflexivity]. simpl. tauto.
  - exists 47%N. split; [|reflexivity]. simpl. tauto.
  - exists 47%N. split; [|reflexivity]. simpl. tauto.
  - exists 47%N. split; [|reflexivity]. simpl. tauto.
  - exists 61%N. split; [|reflexivity]. simpl. tauto.
  - exists 61%N. split; [|reflexivity]. simpl. tauto.
Qed.

Lemma In_drop {A} (x : A) n l : In x (drop n l) -> In x l.
Proof.
  revert n. induction l as [|y l IH]; intros [|n]; simpl; auto.
  intros H. right. apply (IH n H).
Qed.

End PageFacts.
Import PageFacts.

(** X1. The [src] that [getThumbnail] gives to an image is never the
    empty string, whatever the work holds: every card of the grid has
    a non-empty image source. *)
Theorem getThumbnail_never_empty :
  forall v : SiteValue,
    Forall (fun c => truthy (cardSrc c) = true) (worksGrid v).
Proof.
  intros v. unfold worksGrid. apply Forall_map, Forall_true.
  intros work. cbn [workCard cardSrc]. unfold getThumbnail.
  destruct (img work) as [|c i] eqn:E; [|reflexivity].
  cbn [truthy]. destruct (getYoutubeId (url work)) as [g|]; [|reflexivity].
  destruct g; reflexivity.
Qed.

(** X2. A [url] that holds neither a slash nor an equals sign yields no
    identifier: the empty string, or a bare identifier of eleven
    characters, is not resolved. *)
Theorem getYoutubeId_needs_delimiter (url : jsstring) :
  Forall (fun c => memN c (u16 "/=") = false) url ->
  getYoutubeId url = None.
Proof.
  intros H. rewrite getYoutubeId_extract. unfold extract.
  assert (E : lastDelim url (runLen CsAny url) = None).
  { apply lastDelim_None. intros j _.
    destruct (delimLen (drop j url)) as [n|] eqn:En; [|reflexivity].
    apply Delim_delimLen in En as (d & t & Hd & HD & _).
    apply Delim_slash_or_equals in HD as (c & Hin & Hc).
    assert (Hu : In c url).
    { apply (In_drop c j). rewrite Hd. apply in_or_app. left. exact Hin. }
    rewrite List.Forall_forall in H. rewrite (H c Hu) in Hc. discriminate. }
  rewrite E. reflexivity.
Qed.

Lemma getYoutubeId_bare_identifier :
  Forall (fun c => memN c (u16 "/=") = false) (u16 "aqz-KE-bpKQ") /\
  getYoutubeId (u16 "aqz-KE-bpKQ") = None.
Proof.
  assert (H : Forall (fun c => memN c (u16 "/=") = false) (u16 "aqz-KE-bpKQ")).
  { repeat constructor. }
  split; [exact H | apply (getYoutubeId_needs_delimiter _ H)].
Defined.

(** X3. A card that shows a thumbnail resolved from its [url] opens
    that [url] on a click: [openWorkLink] shows its alert only on cards
    whose image is their own [img] or the placeholder. *)
Theorem resolved_card_opens_link (work : WorkItem) (ident : jsstring) :
  img work = [] -> getYoutubeId (url work) = Some ident ->
  cardSrc (workCard work) = thumbnailOf ident /\
  cardClick (workCard work)
  = WindowOpen (url work) (u16 "_blank") (u16 "noopener,noreferrer").
Proof.
  intros Hi Hy. cbn [workCard cardSrc cardClick]. split.
  - unfold getThumbnail. rewrite Hi, Hy. cbn [truthy].
    pose proof (getYoutubeId_length _ _ Hy) as Hl.
    destruct ident; [discriminate | reflexivity].
  - unfold openWorkLink. destruct (url work) as [|c u] eqn:E; [|reflexivity].
    vm_compute in Hy. discriminate.
Qed.

Lemma resolved_card_default_work :
  cardSrc (workCard (mkWork 1 (u16 "Visual Archive_1") []
                       (u16 "https://www.youtube.com/watch?v=aqz-KE-bpKQ")))
  = thumbnailOf (u16 "aqz-KE-bpKQ") /\
  cardClick (workCard (mkWork 1 (u16 "Visual Archive_1") []
                       (u16 "https://www.youtube.com/watch?v=aqz-KE-bpKQ")))
  = WindowOpen (u16 "https://www.youtube.com/watch?v=aqz-KE-bpKQ")
               (u16 "_blank") (u16 "noopener,noreferrer").
Proof.
  apply (resolved_card_opens_link
           (mkWork 1 (u16 "Visual Archive_1") []
              (u16 "https://www.youtube.com/watch?v=aqz-KE-bpKQ"))
           (u16 "aqz-KE-bpKQ")).
  - reflexivity.
  - vm_compute. reflexivity.
Defined.

(** X4. The text inputs of the editor never show an embedded image:
    what the portrait input and the image input of a work display does
    not start with [data:], and it is the stored value itself whenever
    that does not start with [data:]. *)
Theorem inputs_never_show_data_url :
  (forall e, startsWith (u16 "data:") (profileInputValue e) = false) /\
  (forall w, startsWith (u16 "data:") (workImgInputValue w) = false) /\
  (forall e, startsWith (u16 "data:") (profileImg e) = false ->
             profileInputValue e = profileImg e) /\
  (forall w, startsWith (u16 "data:") (img w) = false ->
             workImgInputValue w = img w).
Proof.
  unfold profileInputValue, workImgInputValue.
  split; [|split; [|split]].
  - intros e. destruct (startsWith (u16 "data:") (profileImg e)) eqn:E;
      [reflexivity | exact E].
  - intros w. destruct (startsWith (u16 "data:") (img w)) eqn:E;
      [reflexivity | exact E].
  - intros e ->. reflexivity.
  - intros w ->. reflexivity.
Qed.
(* ===================================================================== *)
(** * Further properties of sessions                                      *)
(* ===================================================================== *)

Module SessionFacts.

(** ** Reachable states *)

Lemma run_invariant (P : AppState -> Prop) :
  (forall s e, P s -> available s e = true -> P (fst (handle e s))) ->
  forall es s s', P s -> runEvents s es = Some s' -> P s'.
Proof.
  intros Hstep. induction es as [|e es IH]; intros s s' Hs; cbn [runEvents].
  - intros [= <-]. exact Hs.
  - unfold step. destruct (available s e) eqn:Ha; [|discriminate].
    apply IH, Hstep; assumption.
Qed.

Lemma reachable_invariant (P : AppState -> Prop) :
  (forall s, mounted s -> P s) ->
  (forall s e, P s -> available s e = true -> P (fst (handle e s))) ->
  forall s, reachable s -> P s.
Proof.
  intros H0 Hstep s (s0 & es & Hm & Hrun).
  apply (run_invariant P Hstep es s0 s (H0 s0 Hm) Hrun).
Qed.

Lemma mounted_wellFormed s : mounted s -> wellFormed s.
Proof.
  intros (stored & H). apply (wellFormed_load stored). tauto.
Qed.

Lemma reachable_wellFormed s : reachable s -> wellFormed s.
Proof.
  apply (reachable_invariant wellFormed mounted_wellFormed).
  intros s0 e H _. apply wellFormed_handle, H.
Qed.

(** What the load effect leaves of the initial state. *)
Lemma mounted_shape s :
  mounted s ->
  isAdminOpen s = false /\ isAuth s = false /\ passInput s = [] /\
  readers s = [] /\ data s = editingData s /\
  exists cs ws, heap s = mkHeap (defaultCareer ++ cs) (defaultWorks ++ ws).
Proof.
  intros (stored & H). unfold load in H.
  assert (Hi : forall n,
             isAdminOpen (notify n (initialState stored)) = false /\
             isAuth (notify n (initialState stored)) = false /\
             passInput (notify n (initialState stored)) = [] /\
             readers (notify n (initialState stored)) = [] /\
             data (notify n (initialState stored))
             = editingData (notify n (initialState stored)) /\
             exists cs ws, heap (notify n (initialState stored))
                           = mkHeap (defaultCareer ++ cs) (defaultWorks ++ ws)).
  { intros n. repeat split. exists [], []. reflexivity. }
  assert (H0 : isAdminOpen (initialState stored) = false /\
               isAuth (initialState stored) = false /\
               passInput (initialState stored) = [] /\
               readers (initialState stored) = [] /\
               data (initialState stored) = editingData (initialState stored) /\
               exists cs ws, heap (initialState stored)
                             = mkHeap (defaultCareer ++ cs) (defaultWorks ++ ws)).
  { repeat split. exists [], []. reflexivity. }
  destruct (storage (initialState stored)) as [saved|];
    [|destruct H as [[= <-]|[=]]; exact H0].
  destruct (truthy saved); [|destruct H as [[= <-]|[=]]; exact H0].
  destruct (JSON_parse saved) as [parsed|].
  - destruct (asSiteValue parsed) as [v|]; [|destruct H as [[=]|[=]]].
    unfold alloc in H. destruct H as [[=]|[= <-]].
    repeat split. exists (careerV v), (worksV v). reflexivity.
  - destruct H as [[= <-]|[=]]. apply Hi.
Qed.

(** ** The gate *)

Lemma readerDone_gate i b s :
  isAdminOpen (readerDone i b s) = isAdminOpen s /\
  isAuth (readerDone i b s) = isAuth s /\
  passInput (readerDone i b s) = passInput s /\
  storage (readerDone i b s) = storage s /\
  data (readerDone i b s) = data s /\
  notices (readerDone i b s) = notices s.
Proof.
  unfold readerDone. destruct (readers s !! i) as [r|]; [|auto 10].
  destruct (target r) as [|wid]; [auto 10|].
  destruct (swapThumbnail _ _ _ _). auto 10.
Qed.

Lemma updateCareerItem_gate idx f v s :
  let s' := fst (updateCareerItem idx f v s) in
  isAdminOpen s' = isAdminOpen s /\ isAuth s' = isAuth s /\
  passInput s' = passInput s /\ storage s' = storage s /\
  data s' = data s /\ notices s' = notices s.
Proof.
  cbn zeta. unfold updateCareerItem.
  destruct (career (editingData s) !! idx); auto 10.
Qed.

Lemma updateWorkField_gate idx f v s :
  let s' := fst (updateWorkField idx f v s) in
  isAdminOpen s' = isAdminOpen s /\ isAuth s' = isAuth s /\
  passInput s' = passInput s /\ storage s' = storage s /\
  data s' = data s /\ notices s' = notices s.
Proof.
  cbn zeta. unfold updateWorkField.
  destruct (works (editingData s) !! idx); auto 10.
Qed.

(** The only handler that sets [isAuth] is that of VERIFY, when the key
    input that it reads is the key. *)
Lemma isAuth_handle e s :
  isAuth (fst (handle e s)) = true ->
  isAuth s = true \/
  (e = PasswordSubmit /\ passInput s = secret /\
   fst (handle e s) = setIsAuth true s).
Proof.
  destruct e; cbn [handle fst]; try (intros H; left; exact H).
  - unfold handlePasswordSubmit. case_bool_decide; [auto|].
    intros Hx; left; exact Hx.
  - cbn; discriminate.
  - destruct (updateCareerItem_gate idx f v s) as (_ & -> & _). auto.
  - destruct (updateWorkField_gate idx f v s) as (_ & -> & _). auto.
  - unfold saveToLocal. destruct writable; cbn; [discriminate | auto].
  - unfold resetToDefault. destruct confirmed; cbn; [discriminate | auto].
  - destruct (readerDone_gate i base64 s) as (_ & -> & _). auto.
Qed.

(** ** The snapshot *)

Lemma storage_handle e s :
  touchesStorage e = false -> storage (fst (handle e s)) = storage s.
Proof.
  destruct e; cbn [handle fst touchesStorage]; try reflexivity.
  - intros _. unfold handlePasswordSubmit. case_bool_decide; reflexivity.
  - intros _. apply updateCareerItem_gate.
  - intros _. apply updateWorkField_gate.
  - destruct writable; [discriminate | reflexivity].
  - destruct confirmed; [discriminate | reflexivity].
  - intros _. apply readerDone_gate.
Qed.

(** ** The store only grows, but for the edits in place *)

Lemma swapThumbnail_extends wid b ws :
  forall h, exists extra,
    fst (swapThumbnail wid b h ws)
    = mkHeap (careerObjs h) (workObjs h ++ extra).
Proof.
  induction ws as [|l ws IH]; intros h; cbn [swapThumbnail].
  - exists []. cbn [fst]. rewrite app_nil_r. destruct h; reflexivity.
  - match goal with
    | |- context [match ?x with Some _ => _ | None => _ end] =>
        destruct x as [w|]
    end.
    + destruct (Z.eqb (id w) wid).
      * destruct (IH (mkHeap (careerObjs h)
                             (workObjs h ++ [assignWork WImg b w])))
          as [extra He].
        destruct (swapThumbnail wid b _ ws) as [h2 rest'].
        cbn [fst] in *. exists (assignWork WImg b w :: extra).
        rewrite He. cbn [careerObjs workObjs]. rewrite <- app_assoc.
        reflexivity.
      * destruct (IH h) as [extra He].
        destruct (swapThumbnail wid b h ws) as [h2 rest'].
        cbn [fst] in *. exists extra. exact He.
    + destruct (IH h) as [extra He].
      destruct (swapThumbnail wid b h ws) as [h2 rest'].
      cbn [fst] in *. exists extra. exact He.
Qed.

(** A handler that is no field input appends to the store at most. *)
Lemma heap_handle e s :
  editsInPlace e = false ->
  exists ws, heap (fst (handle e s))
             = mkHeap (careerObjs (heap s)) (workObjs (heap s) ++ ws).
Proof.
  assert (H0 : exists ws, heap s
                 = mkHeap (careerObjs (heap s)) (workObjs (heap s) ++ ws)).
  { exists []. rewrite app_nil_r. destruct (heap s); reflexivity. }
  destruct e; cbn [handle fst editsInPlace]; try discriminate; intros _;
    try exact H0.
  - unfold handlePasswordSubmit. case_bool_decide; exact H0.
  - exists [newWork now]. reflexivity.
  - unfold saveToLocal. destruct writable; exact H0.
  - unfold resetToDefault. destruct confirmed; exact H0.
  - unfold readerDone. destruct (readers s !! i) as [r|]; [|exact H0].
    destruct (target r) as [|wid]; [exact H0|].
    destruct (swapThumbnail_extends wid base64 (works (captured r)) (heap s))
      as [extra He].
    destruct (swapThumbnail _ _ _ _) as [h2 rest']. cbn [fst] in He.
    exists extra. exact He.
Qed.

Lemma content_extend h d ws :
  validSite h d ->
  content (mkHeap (careerObjs h) (workObjs h ++ ws)) d = content h d.
Proof.
  intros Hv. rewrite <- (content_grow h d [] ws Hv), app_nil_r. reflexivity.
Qed.

Lemma data_handle e s :
  setsData e = false -> data (fst (handle e s)) = data s.
Proof.
  destruct e; cbn [handle fst setsData]; try reflexivity; try discriminate.
  - intros _. unfold handlePasswordSubmit. case_bool_decide; reflexivity.
  - intros _. apply updateCareerItem_gate.
  - intros _. apply updateWorkField_gate.
  - destruct confirmed; [discriminate | reflexivity].
  - intros _. apply readerDone_gate.
Qed.

Lemma committed_handle e s :
  wellFormed s -> editsInPlace e = false -> setsData e = false ->
  data (fst (handle e s)) = data s /\
  committed (fst (handle e s)) = committed s.
Proof.
  intros (Hd & _) Hp Hs. pose proof (data_handle e s Hs) as Ed.
  split; [exact Ed|]. unfold committed. rewrite Ed.
  destruct (heap_handle e s Hp) as [ws ->]. apply content_extend, Hd.
Qed.

Lemma defaultsIntact_handle e s :
  editsInPlace e = false -> defaultsIntact (heap s) ->
  defaultsIntact (heap (fst (handle e s))).
Proof.
  intros Hp [Hc Hw]. destruct (heap_handle e s Hp) as [ws ->].
  split; cbn [careerObjs workObjs]; [exact Hc|].
  rewrite take_app_le; [exact Hw|].
  apply (f_equal length) in Hw. rewrite length_take in Hw.
  change (length defaultWorks) with 6 in Hw. lia.
Qed.

Lemma mounted_defaultsIntact s : mounted s -> defaultsIntact (heap s).
Proof.
  intros Hm. apply mounted_shape in Hm as (_ & _ & _ & _ & _ & cs & ws & ->).
  split; reflexivity.
Qed.

End SessionFacts.
Import SessionFacts.

(** X6. The editor is authenticated by the key only. Whatever the
    state, a handler leaves [isAuth] set only if it was set before, or
    if it is that of VERIFY and the key input that it reads is [0818],
    and it then does nothing else. So, over any events, [isAuth] set
    at the end and not at the start means that VERIFY was pressed in
    between on a key input that held the key. *)
Theorem isAuth_needs_the_key :
  (forall e s,
      isAuth s = false -> isAuth (fst (handle e s)) = true ->
      e = PasswordSubmit /\ passInput s = secret /\
      fst (handle e s) = setIsAuth true s) /\
  (forall es s s',
      runEvents s es = Some s' -> isAuth s = false -> isAuth s' = true ->
      exists es1 s1 es2,
        es = es1 ++ PasswordSubmit :: es2 /\
        runEvents s es1 = Some s1 /\
        isAuth s1 = false /\ passInput s1 = secret).
Proof.
  assert (H1 : forall e s,
             isAuth s = false -> isAuth (fst (handle e s)) = true ->
             e = PasswordSubmit /\ passInput s = secret /\
             fst (handle e s) = setIsAuth true s).
  { intros e s H0 H. destruct (isAuth_handle e s H) as [Hs|Hs]; [|exact Hs].
    rewrite H0 in Hs. discriminate. }
  split; [exact H1|].
  induction es as [|e es IH]; intros s s'; cbn [runEvents].
  - intros [= <-] H0 H. rewrite H0 in H. discriminate.
  - unfold step. destruct (available s e) eqn:Ha; [|discriminate].
    intros Hrun H0 H.
    destruct (isAuth (fst (handle e s))) eqn:Hn.
    + destruct (H1 e s H0 Hn) as (-> & Hp & _).
      exists [], s, es. repeat split; assumption.
    + destruct (IH _ _ Hrun Hn H) as (es1 & s1 & es2 & -> & Hr & Hs1 & Hp).
      exists (e :: es1), s1, es2. repeat split; try assumption.
      cbn [runEvents]. unfold step. rewrite Ha. exact Hr.
Qed.

Lemma isAuth_needs_the_key_on_unlock :
  exists s',
    runEvents (initialState None)
      [AdminTrigger; TypePass (u16 "0000"); PasswordSubmit;
       TypePass secret; PasswordSubmit; SetBio (u16 "B")] = Some s' /\
    isAuth s' = true /\
    exists es1 s1 es2,
      [AdminTrigger; TypePass (u16 "0000"); PasswordSubmit;
       TypePass secret; PasswordSubmit; SetBio (u16 "B")]
      = es1 ++ PasswordSubmit :: es2 /\
      runEvents (initialState None) es1 = Some s1 /\
      isAuth s1 = false /\ passInput s1 = secret.
Proof.
  eexists. split; [vm_compute; reflexivity|].
  split; [vm_compute; reflexivity|].
  eapply (proj2 isAuth_needs_the_key);
    [vm_compute; reflexivity | reflexivity | vm_compute; reflexivity].
Defined.

(** X7. The snapshot is written by a successful COMMIT ARCHIVE and
    deleted by a confirmed FACTORY RESET, and by nothing else: after
    any events among which there is neither, [localStorage] holds what
    it held before, so that the next mount loads the same data. *)
Theorem snapshot_untouched (es : list Event) (s s' : AppState) :
  forallb (fun e => negb (touchesStorage e)) es = true ->
  runEvents s es = Some s' ->
  storage s' = storage s /\
  load (initialState (storage s')) = load (initialState (storage s)).
Proof.
  intros Hes Hrun.
  assert (H : storage s' = storage s).
  { revert s Hrun. induction es as [|e es IH]; intros s; cbn [runEvents].
    - intros [= <-]. reflexivity.
    - cbn [forallb] in Hes. apply andb_true_iff in Hes as [He Hes].
      unfold step. destruct (available s e); [|discriminate]. intros Hrun.
      rewrite (IH Hes _ Hrun). apply storage_handle.
      destruct (touchesStorage e); [discriminate | reflexivity]. }
  rewrite H. auto.
Qed.

Lemma snapshot_untouched_by_cancelled_session :
  exists s',
    runEvents (initialState None)
      (unlock ++ [SetBio (u16 "B"); AddWork 7; Commit false; CloseAdmin])
    = Some s' /\
    storage s' = None /\
    load (initialState (storage s')) = load (initialState None).
Proof.
  eexists. split; [vm_compute; reflexivity|].
  apply (snapshot_untouched
           (unlock ++ [SetBio (u16 "B"); AddWork 7; Commit false; CloseAdmin])
           (initialState None)); vm_compute; reflexivity.
Defined.

(** X8. What the page shows changes through the field inputs of the
    career items and of the works, through COMMIT ARCHIVE and through a
    confirmed FACTORY RESET only: any other events (the key form, the
    bio, the portrait, adding and removing works, choosing files and
    the completion of their reads, closing the modal) leave the
    committed [SiteData] and its content as they were. *)
Theorem committed_frame (es : list Event) (s s' : AppState) :
  reachable s ->
  forallb (fun e => negb (editsInPlace e || setsData e)) es = true ->
  runEvents s es = Some s' ->
  data s' = data s /\ committed s' = committed s.
Proof.
  intros Hr. apply reachable_wellFormed in Hr.
  revert s Hr. induction es as [|e es IH]; intros s Hwf Hes; cbn [runEvents].
  - intros [= <-]. auto.
  - cbn [forallb] in Hes. apply andb_true_iff in Hes as [He Hes].
    apply negb_true_iff, orb_false_iff in He as [He1 He2].
    unfold step. destruct (available s e); [|discriminate]. intros Hrun.
    destruct (IH _ (wellFormed_handle e s Hwf) Hes Hrun) as [-> ->].
    apply committed_handle; assumption.
Qed.

Lemma committed_frame_upload_session :
  exists s',
    runEvents (initialState None)
      (unlock ++ [ChooseFile (TWork 1); AddWork 7; RemoveWork 2;
                  ReaderDone 0 (u16 "data:image/png;base64,AAAA");
                  SetBio (u16 "B"); CloseAdmin]) = Some s' /\
    data s' = data (initialState None) /\
    committed s' = committed (initialState None).
Proof.
  eexists. split; [vm_compute; reflexivity|].
  apply (committed_frame
           (unlock ++ [ChooseFile (TWork 1); AddWork 7; RemoveWork 2;
                       ReaderDone 0 (u16 "data:image/png;base64,AAAA");
                       SetBio (u16 "B"); CloseAdmin])
           (initialState None)).
  - exists (initialState None), []. split; [|reflexivity].
    exists None. left. reflexivity.
  - vm_compute. reflexivity.
  - vm_compute. reflexivity.
Defined.

(** X9. FACTORY RESET restores the built-in content as long as no field
    input of a career item or of a work has been used since the mount:
    after any other events, commits and uploads included, a confirmed
    reset leaves the content of the source text on the page and in the
    working copy, no snapshot, and the modal closed. *)
Theorem reset_restores_default (s0 s : AppState) (es : list Event) :
  mounted s0 ->
  forallb (fun e => negb (editsInPlace e)) es = true ->
  runEvents s0 es = Some s ->
  committed (resetToDefault true s) = Some defaultValue /\
  working (resetToDefault true s) = Some defaultValue /\
  storage (resetToDefault true s) = None /\
  gate (resetToDefault true s) = Closed.
Proof.
  intros Hm Hes Hrun.
  assert (Hi : defaultsIntact (heap s)).
  { pose proof (mounted_defaultsIntact s0 Hm) as H0. clear Hm.
    revert s0 H0 Hrun. induction es as [|e es IH]; intros s0 H0; cbn [runEvents].
    - intros [= <-]. exact H0.
    - cbn [forallb] in Hes. apply andb_true_iff in Hes as [He Hes].
      apply negb_true_iff in He.
      unfold step. destruct (available s0 e); [|discriminate].
      apply (IH Hes). apply defaultsIntact_handle; assumption. }
  destruct Hi as [Hc Hw].
  pose proof (resetToDefault_content s Hc Hw) as H.
  split; [exact H|]. split; [exact H|]. split; reflexivity.
Qed.

Lemma reset_restores_default_after_commit :
  exists s,
    runEvents (initialState None)
      (unlock ++ [SetBio (u16 "B"); AddWork 7; Commit true] ++ unlock) = Some s /\
    committed s <> Some defaultValue /\
    committed (resetToDefault true s) = Some defaultValue /\
    working (resetToDefault true s) = Some defaultValue /\
    storage (resetToDefault true s) = None /\
    gate (resetToDefault true s) = Closed.
Proof.
  eexists. split; [vm_compute; reflexivity|].
  split; [vm_compute; discriminate|].
  apply (reset_restores_default (initialState None) _
           (unlock ++ [SetBio (u16 "B"); AddWork 7; Commit true] ++ unlock)).
  - exists None. left. reflexivity.
  - vm_compute. reflexivity.
  - vm_compute. reflexivity.
Defined.
(* ===================================================================== *)
(** * Further properties of the editor's handlers                         *)
(* ===================================================================== *)

Module EditorFacts.

(** ** Arrays that hold no object twice *)

Lemma swapThumbnail_fresh wid b ws :
  forall h,
    Forall (fun l => l < length (workObjs h)) ws -> NoDup ws ->
    NoDup (snd (swapThumbnail wid b h ws)) /\
    Forall (fun l' => In l' ws \/ length (workObjs h) <= l')
           (snd (swapThumbnail wid b h ws)).
Proof.
  induction ws as [|l ws IH]; intros h Hv Hnd; cbn [swapThumbnail].
  - cbn [snd]. split; constructor.
  - apply list.Forall_cons in Hv as [Hl Hv].
    apply list.NoDup_cons in Hnd as [Hnotin Hnd].
    assert (Hcons : forall h1 l0,
               length (workObjs h) <= length (workObjs h1) ->
               (l0 = l \/ l0 = length (workObjs h)) ->
               (l0 = length (workObjs h) ->
                length (workObjs h) < length (workObjs h1)) ->
               NoDup (snd (swapThumbnail wid b h1 ws)) /\
               Forall (fun l' => In l' ws \/ length (workObjs h1) <= l')
                      (snd (swapThumbnail wid b h1 ws)) ->
               NoDup (l0 :: snd (swapThumbnail wid b h1 ws)) /\
               Forall (fun l' => In l' (l :: ws) \/ length (workObjs h) <= l')
                      (l0 :: snd (swapThumbnail wid b h1 ws))).
    { intros h1 l0 Hle Hl0 Hlt [Hn Hf]. split.
      - apply list.NoDup_cons. split; [|exact Hn].
        intros Hin. apply list_elem_of_In in Hin.
        rewrite List.Forall_forall in Hf. destruct (Hf _ Hin) as [Hin'|Hge].
        + destruct Hl0 as [->| ->].
          * apply Hnotin, list_elem_of_In, Hin'.
          * rewrite List.Forall_forall in Hv. specialize (Hv _ Hin'). simpl in Hv. lia.
        + destruct Hl0 as [->| ->]; [lia|]. specialize (Hlt eq_refl). lia.
      - apply list.Forall_cons. split.
        + destruct Hl0 as [->| ->]; [left; left; reflexivity | right; lia].
        + eapply list.Forall_impl; [exact Hf|]. intros x [Hx|Hx]; simpl.
          * left. right. exact Hx.
          * right. lia. }
    assert (Hv1 : forall w, Forall (fun l => l < length (workObjs
                   (mkHeap (careerObjs h) (workObjs h ++ [w])))) ws).
    { intros w. eapply list.Forall_impl; [exact Hv|]. intros x Hx.
      cbn [workObjs]. rewrite length_app. simpl in *. lia. }
    match goal with
    | |- context [match ?x with Some _ => _ | None => _ end] =>
        destruct x as [w|]
    end.
    + destruct (Z.eqb (id w) wid).
      * specialize (IH _ (Hv1 (assignWork WImg b w)) Hnd).
        specialize (Hcons (mkHeap (careerObjs h)
                             (workObjs h ++ [assignWork WImg b w]))
                          (length (workObjs h))).
        destruct (swapThumbnail wid b _ ws) as [h2 rest']. cbn [snd] in *.
        apply Hcons; [| right; reflexivity | | exact IH];
          cbn [workObjs]; rewrite length_app; simpl; lia.
      * specialize (IH h Hv Hnd). specialize (Hcons h l).
        destruct (swapThumbnail wid b h ws) as [h2 rest']. cbn [snd] in *.
        apply Hcons; [lia | left; reflexivity | intros ->; lia | exact IH].
    + specialize (IH h Hv Hnd). specialize (Hcons h l).
      destruct (swapThumbnail wid b h ws) as [h2 rest']. cbn [snd] in *.
      apply Hcons; [lia | left; reflexivity | intros ->; lia | exact IH].
Qed.

Lemma NoDup_delete_list {A} (l : list A) i : NoDup l -> NoDup (delete i l).
Proof.
  intros H. eapply sublist_NoDup; [exact H | apply sublist_delete].
Qed.

Lemma mounted_unshared s : mounted s -> unshared s.
Proof.
  intros (stored & H). unfold load in H.
  assert (H0 : forall n, unshared (initialState stored) /\
                         unshared (notify n (initialState stored))).
  { intros n. unfold unshared, distinctRefs. cbn.
    repeat split; try apply (NoDup_seq 0 3); try apply (NoDup_seq 0 6);
      constructor. }
  destruct (storage (initialState stored)) as [saved|];
    [|destruct H as [[= <-]|[=]]; apply (H0 parseDiagnostic)].
  destruct (truthy saved);
    [|destruct H as [[= <-]|[=]]; apply (H0 parseDiagnostic)].
  destruct (JSON_parse saved) as [parsed|].
  - destruct (asSiteValue parsed) as [v|]; [|destruct H as [[=]|[=]]].
    unfold alloc in H. destruct H as [[=]|[= <-]].
    unfold unshared, distinctRefs. cbn.
    repeat split; try constructor; apply NoDup_seq.
  - destruct H as [[= <-]|[=]]. apply (H0 parseDiagnostic).
Qed.

Lemma unshared_handle e s :
  wellFormed s -> unshared s -> unshared (fst (handle e s)).
Proof.
  intros (Hvd & Hve & Hvr & _) Hu. pose proof Hu as (Hd & He & Hr).
  destruct e; cbn [handle fst]; try exact Hu.
  - (* AdminTrigger *) repeat split; cbn; try apply Hd; exact Hr.
  - (* PasswordSubmit *)
    unfold handlePasswordSubmit. case_bool_decide; exact Hu.
  - (* UpdateCareerItem *)
    unfold updateCareerItem. destruct (career (editingData s) !! idx); [|exact Hu].
    repeat split; cbn; try apply Hd; try apply He; exact Hr.
  - (* UpdateWorkField *)
    unfold updateWorkField. destruct (works (editingData s) !! idx); [|exact Hu].
    repeat split; cbn; try apply Hd; try apply He; exact Hr.
  - (* AddWork *)
    repeat split; cbn; try apply Hd; try apply He; try exact Hr.
    apply list.NoDup_app. split; [apply He|]. split; [|apply list.NoDup_singleton].
    intros x Hx Hx'. apply list_elem_of_singleton in Hx'. subst x.
    destruct Hve as [_ Hw]. rewrite list.Forall_forall in Hw.
    specialize (Hw _ Hx). simpl in Hw. lia.
  - (* RemoveWork *)
    repeat split; try apply Hd; try apply He; try exact Hr.
    rewrite removeWork_works. apply NoDup_delete_list, He.
  - (* Commit *)
    unfold saveToLocal. destruct writable; cbn [fst];
      (repeat split; cbn; try apply He; exact Hr).
  - (* FactoryReset *)
    unfold resetToDefault. destruct confirmed; [|exact Hu].
    repeat split; cbn; try exact Hr;
      try apply (NoDup_seq 0 3); apply (NoDup_seq 0 6).
  - (* ChooseFile *)
    repeat split; cbn; try apply Hd; try apply He.
    apply Forall_app. split; [exact Hr|]. constructor; [exact He | constructor].
  - (* ReaderDone *)
    unfold readerDone. destruct (readers s !! i) as [r|] eqn:Er; [|exact Hu].
    assert (Hcap : distinctRefs (captured r)).
    { rewrite list.Forall_forall in Hr. apply Hr.
      apply (list_elem_of_lookup_2 _ i), Er. }
    assert (Hvcap : validSite (heap s) (captured r)).
    { rewrite list.Forall_forall in Hvr. apply Hvr.
      apply (list_elem_of_lookup_2 _ i), Er. }
    assert (Hr' : Forall (fun r => distinctRefs (captured r))
                         (delete i (readers s))).
    { apply Forall_delete, Hr. }
    destruct (target r) as [|wid].
    + repeat split; cbn; try apply Hd; try apply Hcap; exact Hr'.
    + pose proof (swapThumbnail_fresh wid base64 (works (captured r)) (heap s)
                    (proj2 Hvcap) (proj2 Hcap)) as [Hn _].
      destruct (swapThumbnail _ _ _ _) as [h2 rest']. cbn [snd] in Hn.
      repeat split; cbn; try apply Hd; try apply Hcap; try exact Hr'.
      exact Hn.
Qed.

Lemma reachable_unshared s : reachable s -> wellFormed s /\ unshared s.
Proof.
  apply (reachable_invariant (fun s => wellFormed s /\ unshared s)).
  - intros s0 Hm. split; [apply mounted_wellFormed | apply mounted_unshared];
      exact Hm.
  - intros s0 e [Hwf Hu] _. split;
      [apply wellFormed_handle | apply unshared_handle]; assumption.
Qed.

(** ** An assignment through one reference of an array *)

Lemma mapM_alter {A} (g : A -> A) (objs : list A) (ls : list loc) idx l xs :
  NoDup ls -> ls !! idx = Some l ->
  mapM (fun l' => objs !! l') ls = Some xs ->
  mapM (fun l' => alter g l objs !! l') ls = Some (alter g idx xs).
Proof.
  intros Hnd Hl. rewrite !mapM_Some. intros H.
  apply Forall2_same_length_lookup. split.
  - rewrite length_alter. apply (Forall2_length _ _ _ H) || (eapply Forall2_length; exact H).
  - intros i l' y Hi Hy.
    destruct (Forall2_lookup_l _ _ _ _ _ H Hi) as (x & Hx & Hobj).
    cbv beta in Hobj.
    destruct (decide (i = idx)) as [->|Hne].
    + assert (l' = l) as -> by congruence.
      rewrite list_lookup_alter_eq, Hx in Hy. cbn in Hy. injection Hy as <-.
      rewrite list_lookup_alter_eq. exact (f_equal (fmap g) Hobj).
    + rewrite list_lookup_alter_ne in Hy by congruence.
      assert (y = x) as -> by congruence.
      rewrite list_lookup_alter_ne; [exact Hobj|].
      intros ->. apply Hne. symmetry. apply (NoDup_lookup _ _ _ _ Hnd Hl Hi).
Qed.

(** ** [swapThumbnail] on contents *)

Lemma swapThumbnail_Forall2 wid b ws :
  forall h objs,
    Forall2 (fun l y => workObjs h !! l = Some y) ws objs ->
    Forall2 (fun l y => workObjs (fst (swapThumbnail wid b h ws)) !! l = Some y)
            (snd (swapThumbnail wid b h ws)) (withThumbnail wid b objs).
Proof.
  induction ws as [|l ws IH]; intros h objs H.
  - inversion H; subst. constructor.
  - inversion H as [|l0 w ws0 objs' Hw Hrest]; subst. cbn [swapThumbnail].
    rewrite Hw. cbn [withThumbnail map].
    destruct (Z.eqb (id w) wid).
    + set (h1 := mkHeap (careerObjs h) (workObjs h ++ [assignWork WImg b w])).
      assert (H1 : Forall2 (fun l y => workObjs h1 !! l = Some y) ws objs').
      { eapply list.Forall2_impl; [exact Hrest|]. intros x y Hx. subst h1.
        cbn [workObjs]. apply lookup_app_l_Some, Hx. }
      specialize (IH h1 objs' H1).
      destruct (swapThumbnail_extends wid b ws h1) as [extra He].
      destruct (swapThumbnail wid b h1 ws) as [h2 rest']. cbn [fst snd] in *.
      constructor; [|exact IH].
      rewrite He. subst h1. cbn [workObjs careerObjs].
      rewrite <- app_assoc. rewrite lookup_app_r by lia.
      rewrite Nat.sub_diag. reflexivity.
    + specialize (IH h objs' Hrest).
      destruct (swapThumbnail_extends wid b ws h) as [extra He].
      destruct (swapThumbnail wid b h ws) as [h2 rest']. cbn [fst snd] in *.
      constructor; [|exact IH].
      rewrite He. cbn [workObjs]. apply lookup_app_l_Some, Hw.
Qed.

Lemma delete_snoc {A} (l : list A) x : delete (length l) (l ++ [x]) = l.
Proof.
  induction l as [|y l IH]; [reflexivity|]. cbn. f_equal. exact IH.
Qed.

Lemma site_eta d : mkSite (profileImg d) (bio d) (career d) (works d) = d.
Proof. destruct d; reflexivity. Qed.

End EditorFacts.
Import EditorFacts.

(** X11. A field input of a work changes that field of that entry and
    nothing else of the working copy: in every state that the component
    reaches, after typing [v] into the field [f] of the entry [idx] the
    working content is the former one with [f] of entry [idx] set to
    [v]; the other entries, their number, their order and every [id]
    are as before. *)
Theorem updateWorkField_content (s s' : AppState) (idx : nat) (f : WorkField)
        (v : jsstring) (w0 : SiteValue) :
  reachable s -> working s = Some w0 ->
  step s (UpdateWorkField idx f v) = Some s' ->
  working s' = Some (withWorks (alter (assignWork f v) idx (worksV w0)) w0) /\
  (exists w', working s' = Some w' /\ ids w' = ids w0 /\
              forall j, j <> idx -> worksV w' !! j = worksV w0 !! j).
Proof.
  intros Hr Hw. apply reachable_unshared in Hr as [_ (_ & [_ Hnd] & _)].
  unfold step. destruct (available s _) eqn:Ha; [|discriminate].
  cbn [available] in Ha. apply andb_true_iff in Ha as [_ Hidx].
  apply bool_decide_eq_true_1 in Hidx.
  apply lookup_lt_is_Some_2 in Hidx as [l Hl].
  cbn [handle]. unfold updateWorkField. rewrite Hl. cbn [fst]. intros [= <-].
  apply content_Some in Hw as (Hc & Hws & Hp & Hb).
  assert (E : working
                (setEditingData
                   (mkSite (profileImg (editingData s)) (bio (editingData s))
                      (career (editingData s)) (works (editingData s)))
                   (setHeap
                      (mkHeap (careerObjs (heap s))
                         (alter (assignWork f v) l (workObjs (heap s)))) s))
              = Some (withWorks (alter (assignWork f v) idx (worksV w0)) w0)).
  { unfold working, content.
    cbn [heap editingData setEditingData setHeap careerObjs workObjs career
         works profileImg bio].
    rewrite Hc, (mapM_alter _ _ _ idx l (worksV w0) Hnd Hl Hws).
    unfold withWorks. rewrite Hp, Hb. reflexivity. }
  split; [exact E|]. eexists. split; [exact E|]. split.
  - unfold ids, withWorks. cbn [worksV]. apply list_eq. intros j.
    rewrite !list_lookup_fmap. destruct (decide (j = idx)) as [->|Hne].
    + rewrite list_lookup_alter_eq. destruct (worksV w0 !! idx) as [w|]; [|reflexivity].
      cbn. destruct f; reflexivity.
    + rewrite list_lookup_alter_ne by congruence. reflexivity.
  - intros j Hj. unfold withWorks. cbn [worksV].
    apply list_lookup_alter_ne. congruence.
Qed.

Lemma updateWorkField_content_default :
  exists s s',
    runEvents (initialState None) unlock = Some s /\
    step s (UpdateWorkField 2 WUrl (u16 "https://youtu.be/aqz-KE-bpKQ"))
    = Some s' /\
    working s'
    = Some (withWorks
              (alter (assignWork WUrl (u16 "https://youtu.be/aqz-KE-bpKQ")) 2
                     defaultWorks) defaultValue).
Proof.
  eexists. eexists.
  split; [vm_compute; reflexivity|].
  split; [vm_compute; reflexivity|].
  eapply (updateWorkField_content _ _ 2 WUrl _ defaultValue).
  - exists (initialState None), unlock.
    split; [exists None; left; reflexivity | vm_compute; reflexivity].
  - vm_compute. reflexivity.
  - vm_compute. reflexivity.
Defined.

(** X12. A field input of a career item changes that field of that item
    and nothing else of the working copy: the other items, their number
    and order, the works, the bio and the portrait are as before. *)
Theorem updateCareerItem_content (s s' : AppState) (idx : nat)
        (f : CareerField) (v : jsstring) (w0 : SiteValue) :
  reachable s -> working s = Some w0 ->
  step s (UpdateCareerItem idx f v) = Some s' ->
  working s'
  = Some (mkValue (profileImgV w0) (bioV w0)
            (alter (assignCareer f v) idx (careerV w0)) (worksV w0)) /\
  length (alter (assignCareer f v) idx (careerV w0)) = length (careerV w0) /\
  (forall j, j <> idx ->
             alter (assignCareer f v) idx (careerV w0) !! j = careerV w0 !! j).
Proof.
  intros Hr Hw. apply reachable_unshared in Hr as [_ (_ & [Hnd _] & _)].
  unfold step. destruct (available s _) eqn:Ha; [|discriminate].
  cbn [available] in Ha. apply andb_true_iff in Ha as [_ Hidx].
  apply bool_decide_eq_true_1 in Hidx.
  apply lookup_lt_is_Some_2 in Hidx as [l Hl].
  cbn [handle]. unfold updateCareerItem. rewrite Hl. cbn [fst]. intros [= <-].
  apply content_Some in Hw as (Hc & Hws & Hp & Hb).
  split; [|split].
  - unfold working, content.
    cbn [heap editingData setEditingData setHeap careerObjs workObjs career
         works profileImg bio].
    rewrite Hws, (mapM_alter _ _ _ idx l (careerV w0) Hnd Hl Hc).
    rewrite Hp, Hb. reflexivity.
  - apply length_alter.
  - intros j Hj. apply list_lookup_alter_ne. congruence.
Qed.

Lemma updateCareerItem_content_default :
  exists s s',
    runEvents (initialState None) unlock = Some s /\
    step s (UpdateCareerItem 1 CRole (u16 "Producer")) = Some s' /\
    working s'
    = Some (mkValue defaultProfileImg defaultBio
              (alter (assignCareer CRole (u16 "Producer")) 1 defaultCareer)
              defaultWorks).
Proof.
  eexists. eexists.
  split; [vm_compute; reflexivity|].
  split; [vm_compute; reflexivity|].
  eapply (updateCareerItem_content _ _ 1 CRole _ defaultValue).
  - exists (initialState None), unlock.
    split; [exists None; left; reflexivity | vm_compute; reflexivity].
  - vm_compute. reflexivity.
  - vm_compute. reflexivity.
Defined.

(** X13. SWAP THUMBNAIL addresses works by [id], not by position: when
    the read completes, the working copy becomes the content that the
    reader captured with the image set in every work whose [id] is the
    target's (in all of them when an [id] occurs twice) and in no
    other; such a work then shows the uploaded image, whatever its
    [url]; the page is left as it was. *)
Theorem thumbnail_upload_by_id (s : AppState) (i : nat) (base64 : jsstring)
        (r : Reader) (wid : Z) (v : SiteValue) :
  reachable s -> readers s !! i = Some r -> target r = TWork wid ->
  content (heap s) (captured r) = Some v ->
  working (readerDone i base64 s)
  = Some (withWorks (withThumbnail wid base64 (worksV v)) v) /\
  committed (readerDone i base64 s) = committed s /\
  (truthy base64 = true ->
   Forall (fun w => getThumbnail w = if Z.eqb (id w) wid then base64
                                     else getThumbnail w)
          (withThumbnail wid base64 (worksV v))) /\
  ids (withWorks (withThumbnail wid base64 (worksV v)) v) = ids v.
Proof.
  intros Hr Hi Ht Hv. apply reachable_wellFormed in Hr.
  split; [|split; [|split]].
  - unfold readerDone. rewrite Hi, Ht.
    apply content_Some in Hv as (Hc & Hws & Hp & Hb).
    apply mapM_Some in Hws.
    pose proof (swapThumbnail_Forall2 wid base64 _ _ _ Hws) as H2.
    destruct (swapThumbnail_extends wid base64 (works (captured r)) (heap s))
      as [extra He].
    destruct (swapThumbnail _ _ _ _) as [h2 rest']. cbn [fst snd] in *.
    apply mapM_Some in H2.
    unfold working, content.
    cbn [heap editingData setEditingData setHeap setReaders career works
         profileImg bio].
    assert (Hcar : careerObjs h2 = careerObjs (heap s))
      by (rewrite He; reflexivity).
    rewrite H2, Hcar, Hc.
    unfold withWorks. rewrite Hp, Hb. reflexivity.
  - change (committed (fst (handle (ReaderDone i base64) s)) = committed s).
    apply committed_handle; [exact Hr | reflexivity | reflexivity].
  - intros Hb. unfold withThumbnail. apply Forall_map, Forall_true.
    intros w. destruct (Z.eqb (id w) wid) eqn:E.
    + cbn [assignWork id]. rewrite E. unfold getThumbnail. cbn [img].
      rewrite Hb. reflexivity.
    + rewrite E. reflexivity.
  - unfold ids, withWorks, withThumbnail. cbn [worksV]. rewrite map_map.
    apply map_ext. intros w. destruct (Z.eqb (id w) wid); reflexivity.
Qed.

Lemma thumbnail_upload_duplicate_ids :
  exists s,
    runEvents (initialState None)
      (unlock ++ [AddWork 7; AddWork 7; ChooseFile (TWork 7)]) = Some s /\
    working (readerDone 0 (u16 "data:image/png;base64,AAAA") s)
    = Some (withWorks
              (defaultWorks
               ++ [mkWork 7 (u16 "New Archive")
                          (u16 "data:image/png;base64,AAAA") [];
                   mkWork 7 (u16 "New Archive")
                          (u16 "data:image/png;base64,AAAA") []])
              defaultValue) /\
    committed (readerDone 0 (u16 "data:image/png;base64,AAAA") s)
    = Some defaultValue.
Proof.
  eexists. split; [vm_compute; reflexivity|].
  match goal with
  | |- working (readerDone _ ?b ?s) = _ /\ _ =>
      destruct (thumbnail_upload_by_id s 0 b
                  (mkReader (mkSite defaultProfileImg defaultBio [0; 1; 2]
                                    [0; 1; 2; 3; 4; 5; 6; 7]) (TWork 7))
                  7
                  (withWorks (defaultWorks ++ [newWork 7; newWork 7])
                             defaultValue))
        as (H1 & H2 & _)
  end.
  - exists (initialState None),
      (unlock ++ [AddWork 7; AddWork 7; ChooseFile (TWork 7)]).
    split; [exists None; left; reflexivity | vm_compute; reflexivity].
  - vm_compute. reflexivity.
  - reflexivity.
  - vm_compute. reflexivity.
  - split; [exact H1 | exact H2].
Defined.

(** X14. Removing the entry that CREATE NEW ENTRY has just appended
    gives the working copy back: its works hold the same objects as
    before, and its content is the former one. *)
Theorem addWork_then_removeWork (now : Z) (s : AppState) (v : SiteValue) :
  working s = Some v ->
  works (editingData (removeWork (length (worksV v)) (addWork now s)))
  = works (editingData s) /\
  working (removeWork (length (worksV v)) (addWork now s)) = Some v.
Proof.
  intros Hw.
  assert (Hval : validSite (heap s) (editingData s)).
  { apply content_valid. exists v. exact Hw. }
  pose proof (content_Some _ _ _ Hw) as (_ & Hws & _).
  apply length_mapM in Hws.
  assert (E : works (editingData (removeWork (length (worksV v)) (addWork now s)))
              = works (editingData s)).
  { rewrite removeWork_works. cbn [addWork editingData setEditingData setHeap works].
    rewrite <- Hws. apply delete_snoc. }
  split; [exact E|].
  assert (Ed : editingData (removeWork (length (worksV v)) (addWork now s))
               = editingData s).
  { transitivity
      (mkSite (profileImg (editingData s)) (bio (editingData s))
         (career (editingData s))
         (works (editingData (removeWork (length (worksV v)) (addWork now s)))));
      [reflexivity|].
    rewrite E. apply site_eta. }
  unfold working. rewrite Ed.
  change (heap (removeWork (length (worksV v)) (addWork now s)))
    with (mkHeap (careerObjs (heap s)) (workObjs (heap s) ++ [newWork now])).
  rewrite content_extend by exact Hval. exact Hw.
Qed.

Lemma addWork_then_removeWork_default :
  working (initialState None) = Some defaultValue /\
  works (editingData (removeWork 6 (addWork 7 (initialState None))))
  = works (editingData (initialState None)) /\
  working (removeWork 6 (addWork 7 (initialState None))) = Some defaultValue.
Proof.
  split; [vm_compute; reflexivity|].
  apply (addWork_then_removeWork 7 (initialState None) defaultValue).
  vm_compute. reflexivity.
Defined.

(** X15. An upload of the portrait whose read completes before anything
    else happens is the same as typing the data URL into the portrait
    input: the two leave the same state. *)
Theorem profile_upload_is_setProfileImage :
  forall (base64 : jsstring) (s : AppState),
    readerDone (length (readers s)) base64 (handleFileUpload true TProfile s)
    = setProfileImage base64 s.
Proof.
  intros base64 s. unfold readerDone, handleFileUpload.
  cbn [readers setReaders].
  rewrite lookup_app_r by lia. rewrite Nat.sub_diag. cbn [lookup list_lookup].
  cbn [target captured]. rewrite delete_snoc.
  destruct s; reflexivity.
Qed.
(* ===================================================================== *)
(** * Further properties of [JSON.parse]: text after a value             *)
(* ===================================================================== *)

Module PrefixFacts.

Lemma skipWs_app s x : skipWs s <> [] -> skipWs (s ++ x) = skipWs s ++ x.
Proof.
  induction s as [|c s IH]; [contradiction|]. cbn [skipWs app].
  destruct (isWs c); [exact IH | reflexivity].
Qed.

Lemma consFst_app {A} c (r r' : option (jsstring * A)) str x (f : A -> A) :
  (forall str', r = Some (str', x) -> r' = Some (str', f x)) ->
  consFst c r = Some (str, x) -> consFst c r' = Some (str, f x).
Proof.
  intros H. destruct r as [[s0 x0]|]; [|discriminate]. cbn [consFst].
  intros [= <- <-]. rewrite (H s0 eq_refl). reflexivity.
Qed.

Lemma parseChars_app s x str r :
  parseChars s = Some (str, r) -> parseChars (s ++ x) = Some (str, r ++ x).
Proof.
  remember (length s) as n eqn:Hn. revert s str r Hn.
  induction n as [n IH] using lt_wf_ind. intros s str r -> H.
  destruct s as [|c s]; [discriminate|]. cbn [parseChars app] in *.
  destruct (c =? 34)%N; [injection H as <- <-; reflexivity|].
  destruct (c =? 92)%N.
  - destruct s as [|e s1]; [discriminate|]. cbn [app].
    destruct (e =? 117)%N.
    + destruct s1 as [|h1 [|h2 [|h3 [|h4 s2]]]]; try discriminate. cbn [app].
      destruct (hex4 h1 h2 h3 h4); [|discriminate].
      revert H. apply (consFst_app _ _ _ _ _ (fun r => r ++ x)).
      intros str'. apply (IH (length s2)); [simpl; lia | reflexivity].
    + destruct (unescape e); [|discriminate].
      revert H. apply (consFst_app _ _ _ _ _ (fun r => r ++ x)).
      intros str'. apply (IH (length s1)); [simpl; lia | reflexivity].
  - destruct (c <? 32)%N; [discriminate|].
    revert H. apply (consFst_app _ _ _ _ _ (fun r => r ++ x)).
    intros str'. apply (IH (length s)); [simpl; lia | reflexivity].
Qed.

Lemma stripPrefix_app l s x r :
  stripPrefix l s = Some r -> stripPrefix l (s ++ x) = Some (r ++ x).
Proof.
  revert s. induction l as [|a l IH]; intros [|c s]; cbn [stripPrefix app];
    try discriminate; try (intros [= <-]; reflexivity).
  destruct (c =? a)%N; [apply IH | discriminate].
Qed.

Lemma spanDigits_app s x u r :
  spanDigits s = (u, r) -> r <> [] -> spanDigits (s ++ x) = (u, r ++ x).
Proof.
  revert u r. induction s as [|c s IH]; intros u r; cbn [spanDigits app].
  - intros [= <- <-] H. contradiction.
  - destruct (digitOf c) as [d|].
    + destruct (spanDigits s) as [u' r'] eqn:E. intros [= <- <-] Hr.
      rewrite (IH _ _ eq_refl Hr). reflexivity.
    + intros [= <- <-] _. reflexivity.
Qed.

Lemma skipFraction_app s x b r :
  skipFraction s = Some (b, r) -> r <> [] ->
  skipFraction (s ++ x) = Some (b, r ++ x).
Proof.
  destruct s as [|c s]; cbn [skipFraction app].
  - intros [= <- <-] H. contradiction.
  - destruct (c =? 46)%N; [|intros [= <- <-] _; reflexivity].
    destruct (spanDigits s) as [u r'] eqn:E.
    destruct (isNil u) eqn:Hu; [discriminate|]. intros [= <- <-] Hr.
    rewrite (spanDigits_app _ x _ _ E Hr), Hu. reflexivity.
Qed.

Lemma skipSign_app s x : s <> [] -> skipSign (s ++ x) = skipSign s ++ x.
Proof.
  destruct s as [|c s]; [contradiction|]. intros _. cbn [skipSign app].
  destruct ((c =? 43)%N || (c =? 45)%N); reflexivity.
Qed.

Lemma skipExponent_app s x b r :
  skipExponent s = Some (b, r) -> r <> [] ->
  skipExponent (s ++ x) = Some (b, r ++ x).
Proof.
  destruct s as [|c s]; cbn [skipExponent app].
  - intros [= <- <-] H. contradiction.
  - destruct ((c =? 101)%N || (c =? 69)%N); [|intros [= <- <-] _; reflexivity].
    destruct (spanDigits (skipSign s)) as [u r'] eqn:E.
    destruct (isNil u) eqn:Hu; [discriminate|]. intros [= <- <-] Hr.
    assert (Hs : s <> []).
    { intros ->. cbn in E. injection E as _ <-. contradiction. }
    rewrite (skipSign_app _ x Hs), (spanDigits_app _ x _ _ E Hr), Hu.
    reflexivity.
Qed.

Lemma takeMinus_app s x :
  s <> [] -> takeMinus (s ++ x) = (fst (takeMinus s), snd (takeMinus s) ++ x).
Proof.
  destruct s as [|c s]; [contradiction|]. intros _. cbn [takeMinus app].
  destruct (c =? 45)%N; reflexivity.
Qed.

(** A number that something follows is read the same whatever comes
    after that. *)
Lemma parseNumber_app s x j r :
  parseNumber s = Some (j, r) -> r <> [] ->
  parseNumber (s ++ x) = Some (j, r ++ x).
Proof.
  intros H Hr.
  assert (Hs : s <> []) by (intros ->; discriminate H).
  unfold parseNumber in *. rewrite (takeMinus_app _ x Hs).
  destruct (takeMinus s) as [neg s1]. cbn [fst snd].
  destruct (spanDigits s1) as [u s2] eqn:E1.
  destruct (intPartOk u) eqn:Hu; [|discriminate].
  destruct (skipFraction s2) as [[frac s3]|] eqn:E2; [|discriminate].
  destruct (skipExponent s3) as [[ex s4]|] eqn:E3; [|discriminate].
  assert (H4 : s4 = r) by (destruct (frac || ex); congruence). subst s4.
  assert (H3 : s3 <> []).
  { intros ->. cbn in E3. injection E3 as _ <-. contradiction. }
  assert (H2 : s2 <> []).
  { intros ->. cbn in E2. injection E2 as _ <-. contradiction. }
  rewrite (spanDigits_app _ x _ _ E1 H2), Hu.
  rewrite (skipFraction_app _ x _ _ E2 H3).
  rewrite (skipExponent_app _ x _ _ E3 Hr).
  destruct (frac || ex); injection H as <-; [|reflexivity].
  rewrite !length_app.
  replace (length s + length x - (length r + length x))
    with (length s - length r) by lia.
  rewrite take_app_le by lia. reflexivity.
Qed.

Lemma parseNumber_number s j r :
  parseNumber s = Some (j, r) ->
  match j with JNum _ | JNumLit _ => True | _ => False end.
Proof.
  unfold parseNumber. destruct (takeMinus s) as [neg s1].
  destruct (spanDigits s1) as [u s2]. destruct (intPartOk u); [|discriminate].
  destruct (skipFraction s2) as [[frac s3]|]; [|discriminate].
  destruct (skipExponent s3) as [[ex s4]|]; [|discriminate].
  destruct (frac || ex); intros [= <- _]; exact I.
Qed.

(** What a value reads does not depend on the text after it, when the
    value is closed by a character of its own (a string, a literal, an
    array, an object) or something follows it. *)
Lemma parse_app f :
  (forall s x v r,
      parseValue f s = POk v r ->
      r <> [] \/ match v with JNum _ | JNumLit _ => False | _ => True end ->
      parseValue f (s ++ x) = POk v (r ++ x)) /\
  (forall s x vs r,
      parseElems f s = POk vs r -> parseElems f (s ++ x) = POk vs (r ++ x)) /\
  (forall s x ms r,
      parseMembers f s = POk ms r ->
      parseMembers f (s ++ x) = POk ms (r ++ x)).
Proof.
  induction f as [|f (IHv & IHe & IHm)].
  { repeat split; intros; discriminate. }
  assert (Hcont : forall (r : jsstring) x c r',
             skipWs r = c :: r' -> r <> [] /\ skipWs (r ++ x) = c :: r' ++ x).
  { intros r x c r' E. split; [intros ->; discriminate|].
    rewrite skipWs_app by (rewrite E; discriminate). rewrite E. reflexivity. }
  split; [|split].
  - intros s x v r. rewrite !parseValue_S.
    destruct (skipWs s) as [|c rest] eqn:Es; [discriminate|].
    destruct (Hcont _ x _ _ Es) as [_ ->].
    destruct (c =? 123)%N.
    { destruct (skipWs rest) as [|c' rest'] eqn:Er; [discriminate|].
      destruct (Hcont _ x _ _ Er) as [_ ->].
      destruct (c' =? 125)%N; [intros [= <- <-] _; reflexivity|].
      destruct (parseMembers f rest) as [ms r0| |] eqn:Em; try discriminate.
      cbn [bindP]. intros [= <- <-] _. rewrite (IHm _ x _ _ Em). reflexivity. }
    destruct (c =? 91)%N.
    { destruct (skipWs rest) as [|c' rest'] eqn:Er; [discriminate|].
      destruct (Hcont _ x _ _ Er) as [_ ->].
      destruct (c' =? 93)%N; [intros [= <- <-] _; reflexivity|].
      destruct (parseElems f rest) as [vs r0| |] eqn:Ee; try discriminate.
      cbn [bindP]. intros [= <- <-] _. rewrite (IHe _ x _ _ Ee). reflexivity. }
    destruct (c =? 34)%N.
    { destruct (parseChars rest) as [[str r0]|] eqn:Ec; [|discriminate].
      rewrite (parseChars_app _ x _ _ Ec). cbn. intros [= <- <-] _. reflexivity. }
    destruct (c =? 116)%N.
    { destruct (stripPrefix (u16 "rue") rest) as [r0|] eqn:Ep; [|discriminate].
      rewrite (stripPrefix_app _ _ x _ Ep). cbn. intros [= <- <-] _. reflexivity. }
    destruct (c =? 102)%N.
    { destruct (stripPrefix (u16 "alse") rest) as [r0|] eqn:Ep; [|discriminate].
      rewrite (stripPrefix_app _ _ x _ Ep). cbn. intros [= <- <-] _. reflexivity. }
    destruct (c =? 110)%N.
    { destruct (stripPrefix (u16 "ull") rest) as [r0|] eqn:Ep; [|discriminate].
      rewrite (stripPrefix_app _ _ x _ Ep). cbn. intros [= <- <-] _. reflexivity. }
    destruct (parseNumber (c :: rest)) as [[j r0]|] eqn:En; [|discriminate].
    cbn [ofOption]. intros [= <- <-] Hside.
    assert (Hr : r0 <> []).
    { destruct Hside as [Hr|Hv]; [exact Hr|].
      pose proof (parseNumber_number _ _ _ En) as Hj.
      destruct j; contradiction. }
    change (c :: rest ++ x) with ((c :: rest) ++ x).
    rewrite (parseNumber_app _ x _ _ En Hr). reflexivity.
  - intros s x vs r. rewrite !parseElems_S.
    destruct (parseValue f s) as [v r0| |] eqn:Ev; try discriminate.
    cbn [bindP].
    destruct (skipWs r0) as [|c r'] eqn:Er; [discriminate|].
    destruct (Hcont _ x _ _ Er) as [Hne Hsk].
    rewrite (IHv _ x _ _ Ev (or_introl Hne)). cbn [bindP]. rewrite Hsk.
    destruct (c =? 44)%N.
    { destruct (parseElems f r') as [vs0 r1| |] eqn:Ee; try discriminate.
      cbn [bindP]. intros [= <- <-]. rewrite (IHe _ x _ _ Ee). reflexivity. }
    destruct (c =? 93)%N; [|discriminate]. intros [= <- <-]. reflexivity.
  - intros s x ms r. rewrite !parseMembers_S.
    destruct (skipWs s) as [|q s1] eqn:Es; [discriminate|].
    destruct (Hcont _ x _ _ Es) as [_ ->].
    destruct (q =? 34)%N; [|discriminate].
    destruct (parseChars s1) as [[k s2]|] eqn:Ec; [|discriminate].
    rewrite (parseChars_app _ x _ _ Ec). cbn [ofOption bindP].
    destruct (skipWs s2) as [|colon s3] eqn:E2; [discriminate|].
    destruct (Hcont _ x _ _ E2) as [_ ->].
    destruct (colon =? 58)%N; [|discriminate].
    destruct (parseValue f s3) as [v r0| |] eqn:Ev; try discriminate.
    cbn [bindP].
    destruct (skipWs r0) as [|c r'] eqn:Er; [discriminate|].
    destruct (Hcont _ x _ _ Er) as [Hne Hsk].
    rewrite (IHv _ x _ _ Ev (or_introl Hne)). cbn [bindP]. rewrite Hsk.
    destruct (c =? 44)%N.
    { destruct (parseMembers f r') as [ms0 r1| |] eqn:Em; try discriminate.
      cbn [bindP]. intros [= <- <-]. rewrite (IHm _ x _ _ Em). reflexivity. }
    destruct (c =? 125)%N; [|discriminate]. intros [= <- <-]. reflexivity.
Qed.

(** A text that starts with a brace reads as an object, if at all. *)
Lemma parseValue_object_head f s v r :
  parseValue f (123%N :: s) = POk v r ->
  match v with JObj _ => True | _ => False end.
Proof.
  destruct f as [|f]; [discriminate|]. rewrite parseValue_S.
  change (skipWs (123%N :: s)) with (123%N :: s).
  change (123 =? 123)%N with true. cbv iota.
  destruct (skipWs s) as [|c' rest']; [discriminate|].
  destruct (c' =? 125)%N; [intros [= <- _]; exact I|].
  destruct (parseMembers f s) as [ms r0| |]; try discriminate.
  cbn [bindP]. intros [= <- _]. exact I.
Qed.

Lemma JSON_stringify_head v : exists t, JSON_stringify v = 123%N :: t.
Proof. unfold JSON_stringify, objectText. eauto. Qed.

(** No proper prefix of a snapshot is a JSON text. *)
Lemma JSON_parse_truncated v n :
  n < length (JSON_stringify v) -> JSON_parse (take n (JSON_stringify v)) = None.
Proof.
  intros Hn. set (t := JSON_stringify v) in *.
  destruct (JSON_parse (take n t)) as [j|] eqn:E; [exfalso|reflexivity].
  unfold JSON_parse in E.
  set (F := 2 * length (take n t) + 1) in E.
  destruct (parseValue F (take n t)) as [j0 r| |] eqn:Ep; try discriminate.
  destruct (skipWs r) eqn:Er; [|discriminate].
  assert (Hobj : match j0 with JNum _ | JNumLit _ => False | _ => True end).
  { destruct n as [|n].
    - rewrite take_0 in Ep. vm_compute in Ep. discriminate.
    - destruct (JSON_stringify_head v) as [t' Ht]. fold t in Ht.
      rewrite Ht in Ep. cbn [take] in Ep.
      apply parseValue_object_head in Ep. destruct j0; try contradiction; exact I. }
  assert (Hx0 : drop n t <> []).
  { intros E0. apply (f_equal length) in E0. rewrite length_drop in E0.
    cbn [length] in E0. lia. }
  pose proof (proj1 (parse_app F) _ (drop n t) _ _ Ep (or_intror Hobj)) as Hx.
  rewrite take_drop in Hx.
  set (G := Nat.max F (12 + length (careerV v) + length (worksV v))).
  assert (HG : parseValue G t = POk j0 (r ++ drop n t)).
  { rewrite (parseValue_mono F G t); [exact Hx | unfold G; lia |].
    rewrite Hx. discriminate. }
  unfold t in HG. rewrite parseValue_stringify in HG by (unfold G; lia).
  injection HG as _ HG. symmetry in HG. apply app_eq_nil in HG as [_ HG].
  exact (Hx0 HG).
Qed.

End PrefixFacts.
Import PrefixFacts.

(** X16. A snapshot that was cut short is never loaded in part: no
    proper prefix of a text that [saveToLocal] writes is accepted by
    [JSON.parse], so that a mount over such a prefix keeps the built-in
    default, and reports the failure on the console unless the prefix
    is empty. *)
Theorem truncated_snapshot_rejected (v : SiteValue) (n : nat) :
  n < length (JSON_stringify v) ->
  JSON_parse (take n (JSON_stringify v)) = None /\
  exists s,
    load (initialState (Some (take n (JSON_stringify v)))) = KeptDefault s /\
    committed s = Some defaultValue /\
    notices s = if Nat.eqb n 0 then [] else [parseDiagnostic].
Proof.
  intros Hn. pose proof (JSON_parse_truncated v n Hn) as Hp.
  split; [exact Hp|]. unfold load. cbn [storage initialState].
  destruct n as [|n].
  - rewrite take_0. cbn [truthy]. eexists. split; [reflexivity|].
    split; reflexivity.
  - destruct (JSON_stringify_head v) as [t' Ht]. rewrite Ht in *.
    cbn [take truthy]. cbn [take] in Hp. rewrite Hp.
    eexists. split; [reflexivity|]. split; reflexivity.
Qed.

Lemma truncated_default_snapshot_rejected :
  JSON_parse (take 200 (JSON_stringify defaultValue)) = None /\
  exists s,
    load (initialState (Some (take 200 (JSON_stringify defaultValue))))
    = KeptDefault s /\
    committed s = Some defaultValue /\
    notices s = [parseDiagnostic].
Proof.
  apply (truncated_snapshot_rejected defaultValue 200).
  apply Nat.ltb_lt. vm_compute. reflexivity.
Defined.
(* ===================================================================== *)
(** * The [id]s of the works                                              *)
(* ===================================================================== *)

Module IdFacts.

Lemma workIds_content h d v : content h d = Some v -> workIds h d = Some (ids v).
Proof.
  intros H. apply content_Some in H as (_ & Hw & _).
  unfold workIds. rewrite Hw. reflexivity.
Qed.

Lemma mapM_keys {A B} (key : B -> Z) (f f' : A -> option B) ls :
  (forall x, option_map key (f' x) = option_map key (f x)) ->
  option_map (map key) (mapM f' ls) = option_map (map key) (mapM f ls).
Proof.
  intros H. induction ls as [|a ls IH]; [reflexivity|]. cbn [mapM].
  specialize (H a). destruct (f' a) as [y'|], (f a) as [y|];
    cbn in *; try discriminate; [|reflexivity].
  destruct (mapM f' ls) as [k'|], (mapM f ls) as [k|];
    cbn in *; try discriminate; [|reflexivity].
  congruence.
Qed.

(** An assignment to a field leaves every [id] as it is. *)
Lemma workIds_alter c f v l objs d :
  workIds (mkHeap c (alter (assignWork f v) l objs)) d
  = workIds (mkHeap c objs) d.
Proof.
  unfold workIds. cbn [workObjs]. apply mapM_keys. intros l0.
  rewrite list_lookup_alter. destruct (decide (l = l0)) as [->|_]; [|reflexivity].
  unfold loc in *. destruct (objs !! l0) as [w|]; [|reflexivity].
  destruct f; reflexivity.
Qed.

Lemma workIds_extend h d ws :
  Forall (fun l => l < length (workObjs h)) (works d) ->
  workIds (mkHeap (careerObjs h) (workObjs h ++ ws)) d = workIds h d.
Proof.
  intros H. unfold workIds. cbn [workObjs].
  rewrite mapM_lookup_app by exact H. reflexivity.
Qed.

(** No handler changes the [id]s that an existing [SiteData] holds. *)
Lemma workIds_handle e s d :
  validSite (heap s) d ->
  workIds (heap (fst (handle e s))) d = workIds (heap s) d.
Proof.
  intros [_ Hv]. destruct (editsInPlace e) eqn:Ep.
  - destruct e; try discriminate Ep; cbn [handle].
    + unfold updateCareerItem.
      destruct (career (editingData s) !! idx); reflexivity.
    + unfold updateWorkField.
      destruct (works (editingData s) !! idx) as [l|]; [|reflexivity].
      cbn [fst heap setEditingData setHeap].
      rewrite workIds_alter. destruct (heap s); reflexivity.
  - destruct (heap_handle e s Ep) as [ws ->]. apply workIds_extend, Hv.
Qed.

Lemma distinctIdsIn_handle e s d :
  validSite (heap s) d -> distinctIdsIn (heap s) d ->
  distinctIdsIn (heap (fst (handle e s))) d.
Proof.
  intros Hv H zs. rewrite (workIds_handle e s d Hv). apply H.
Qed.

Lemma withThumbnail_ids wid b ws :
  map id (withThumbnail wid b ws) = map id ws.
Proof.
  unfold withThumbnail. rewrite map_map. apply map_ext.
  intros w. destruct (Z.eqb (id w) wid); reflexivity.
Qed.

Lemma NoDup_snoc_fresh (zs : list Z) z : NoDup zs -> ~ In z zs -> NoDup (zs ++ [z]).
Proof.
  intros Hn Hz. apply list.NoDup_app. split; [exact Hn|].
  split; [|apply list.NoDup_singleton].
  intros x Hx Hx'. apply list_elem_of_singleton in Hx'. subst x.
  apply Hz, list_elem_of_In, Hx.
Qed.

(** Every handler keeps the [id]s distinct, when the clock value of a
    new entry is fresh. *)
Lemma distinctIds_handle e s :
  wellFormed s -> distinctIds s -> freshStamp s e ->
  distinctIds (fst (handle e s)).
Proof.
  intros Hwf (Hd & He & Hr & Hdef) Hfresh.
  pose proof Hwf as (Vd & Ve & Vr & Vdef).
  set (s' := fst (handle e s)).
  assert (Pd : distinctIdsIn (heap s') (data s))
    by (apply distinctIdsIn_handle; assumption).
  assert (Pe : distinctIdsIn (heap s') (editingData s))
    by (apply distinctIdsIn_handle; assumption).
  assert (Pdef : distinctIdsIn (heap s') DEFAULT_DATA)
    by (apply distinctIdsIn_handle; assumption).
  assert (Pr : Forall (fun r => distinctIdsIn (heap s') (captured r))
                      (readers s)).
  { rewrite list.Forall_forall in Hr, Vr. apply list.Forall_forall.
    intros r Hin. apply distinctIdsIn_handle; auto. }
  subst s'. destruct e; cbn [handle fst] in *;
    try (repeat split; assumption).
  - (* PasswordSubmit *)
    unfold handlePasswordSubmit in *. case_bool_decide;
      repeat split; assumption.
  - (* UpdateCareerItem *)
    unfold updateCareerItem in *.
    destruct (career (editingData s) !! idx); repeat split; assumption.
  - (* UpdateWorkField *)
    unfold updateWorkField in *.
    destruct (works (editingData s) !! idx); repeat split; assumption.
  - (* AddWork *)
    repeat split; try assumption.
    intros zs. unfold workIds.
    cbn [addWork heap editingData setEditingData setHeap works workObjs].
    destruct (wellFormed_contents s Hwf) as [_ [w Hw]].
    pose proof (content_Some _ _ _ Hw) as (_ & Hws & _).
    rewrite (mapM_snoc _ _ (worksV w) _ (newWork now)).
    + cbn [option_map]. intros [= <-]. rewrite map_app. cbn [map newWork id].
      apply NoDup_snoc_fresh.
      * apply He. apply workIds_content, Hw.
      * apply (Hfresh w Hw).
    + rewrite mapM_lookup_app by apply Ve. exact Hws.
    + rewrite lookup_app_r by lia. rewrite Nat.sub_diag. reflexivity.
  - (* RemoveWork *)
    repeat split; try assumption.
    intros zs. unfold workIds. rewrite removeWork_works.
    cbn [removeWork heap setEditingData].
    destruct (wellFormed_contents s Hwf) as [_ [w Hw]].
    pose proof (content_Some _ _ _ Hw) as (_ & Hws & _).
    rewrite (mapM_delete _ _ _ idx Hws). cbn [option_map]. intros [= <-].
    eapply sublist_NoDup.
    + apply He. apply workIds_content, Hw.
    + apply (fmap_sublist id), sublist_delete.
  - (* Commit *)
    unfold saveToLocal in *. destruct writable; repeat split; assumption.
  - (* FactoryReset *)
    unfold resetToDefault in *. destruct confirmed; repeat split; assumption.
  - (* ChooseFile *)
    repeat split; try assumption. cbn [readers setReaders handleFileUpload].
    apply Forall_app. split; [exact Pr|]. constructor; [exact Pe | constructor].
  - (* ReaderDone *)
    unfold readerDone in *.
    destruct (readers s !! i) as [r|] eqn:Er; [|repeat split; assumption].
    assert (Hcap : distinctIdsIn (heap s) (captured r)).
    { rewrite list.Forall_forall in Hr. apply Hr.
      apply (list_elem_of_lookup_2 _ i), Er. }
    assert (Vcap : validSite (heap s) (captured r)).
    { rewrite list.Forall_forall in Vr. apply Vr.
      apply (list_elem_of_lookup_2 _ i), Er. }
    destruct (target r) as [|wid].
    + cbn [heap setEditingData setReaders readers data editingData] in *.
      repeat split; try assumption; apply Forall_delete, Pr.
    + destruct (proj1 (mapM_lookup_valid _ _) (proj2 Vcap)) as [objs Hobjs].
      pose proof (swapThumbnail_Forall2 wid base64 _ (heap s) objs
                    (proj1 (mapM_Some _ _ _) Hobjs)) as H2.
      destruct (swapThumbnail wid base64 (heap s) (works (captured r)))
        as [h2 rest']. cbn [fst snd] in H2.
      cbn [heap setEditingData setHeap setReaders readers data editingData] in *.
      repeat split; try assumption; try (apply Forall_delete, Pr).
      intros zs. unfold workIds.
      cbn [heap editingData setEditingData setHeap setReaders works].
      rewrite (proj2 (mapM_Some _ _ _) H2). cbn [option_map].
      rewrite withThumbnail_ids. intros [= <-].
      apply Hcap. unfold workIds. rewrite Hobjs. reflexivity.
Qed.

Lemma mounted_distinctIds s :
  mounted s -> (forall v, committed s = Some v -> NoDup (ids v)) ->
  distinctIds s.
Proof.
  intros Hm Hc.
  pose proof (mounted_wellFormed s Hm) as Hwf.
  destruct (wellFormed_contents s Hwf) as [[v Hv] _].
  pose proof (mounted_shape s Hm) as (_ & _ & _ & Hr & Hde & cs & ws & Hh).
  assert (Hd : distinctIdsIn (heap s) (data s)).
  { intros zs Hz. rewrite (workIds_content _ _ _ Hv) in Hz.
    injection Hz as <-. apply Hc, Hv. }
  repeat split; [exact Hd | rewrite <- Hde; exact Hd | rewrite Hr; constructor|].
  intros zs. rewrite Hh. unfold workIds. cbn. intros [= <-].
  change (NoDup (map Z.of_nat (seq 1 6))).
  apply NoDup_fmap_2; [intros x y; lia | apply NoDup_seq].
Qed.

End IdFacts.
Import IdFacts.

(** X17. The [id]s of the works, which are the [key]s of the grid, stay
    pairwise distinct: when those of the mounted data are distinct and
    every CREATE NEW ENTRY happens at a clock value that is the [id] of
    no work of the working copy, the committed data and the working
    copy hold pairwise distinct [id]s after any events, removals, field
    edits, uploads, commits and resets included. *)
Theorem ids_stay_distinct (s0 s : AppState) (es : list Event) :
  mounted s0 ->
  (forall v, committed s0 = Some v -> NoDup (ids v)) ->
  freshRun s0 es ->
  runEvents s0 es = Some s ->
  exists c w,
    committed s = Some c /\ working s = Some w /\
    NoDup (ids c) /\ NoDup (ids w).
Proof.
  intros Hm Hc Hfresh Hrun.
  pose proof (mounted_distinctIds s0 Hm Hc) as Hd.
  pose proof (mounted_wellFormed s0 Hm) as Hwf. clear Hm Hc.
  assert (H : wellFormed s /\ distinctIds s).
  { revert s0 Hd Hwf Hfresh Hrun.
    induction es as [|e es IH]; intros s0 Hd Hwf Hfresh; cbn [runEvents].
    - intros [= <-]. auto.
    - cbn [freshRun] in Hfresh. destruct Hfresh as [Hf Hrest].
      unfold step in *. destruct (available s0 e); [|discriminate].
      apply IH; [apply distinctIds_handle | apply wellFormed_handle |];
        assumption. }
  destruct H as [Hwf' (Hd1 & Hd2 & _)].
  destruct (wellFormed_contents s Hwf') as [[c Hcs] [w Hws]].
  exists c, w. repeat split; try assumption.
  - apply Hd1, workIds_content, Hcs.
  - apply Hd2, workIds_content, Hws.
Qed.

Lemma ids_stay_distinct_default_session :
  exists s,
    runEvents (initialState None)
      (unlock ++ [AddWork 7; RemoveWork 0; ChooseFile (TWork 7); AddWork 8;
                  ReaderDone 0 (u16 "data:image/png;base64,AAAA");
                  Commit true]) = Some s /\
    exists c w,
      committed s = Some c /\ working s = Some w /\
      NoDup (ids c) /\ NoDup (ids w).
Proof.
  eexists. split; [vm_compute; reflexivity|].
  apply (ids_stay_distinct (initialState None) _
           (unlock ++ [AddWork 7; RemoveWork 0; ChooseFile (TWork 7); AddWork 8;
                       ReaderDone 0 (u16 "data:image/png;base64,AAAA");
                       Commit true])).
  - exists None. left. reflexivity.
  - intros v [= <-]. change (NoDup (map Z.of_nat (seq 1 6))).
    apply NoDup_fmap_2; [intros x y; lia | apply NoDup_seq].
  - vm_compute.
    repeat (split; [try exact I|]);
      try (intros w [= <-]; intuition discriminate);
      exact I.
  - vm_compute. reflexivity.
Defined.
(* ===================================================================== *)
(** * Further properties of the render after the load                    *)
(* ===================================================================== *)

Module RenderFacts.

Lemma renderJob_Some job : exists o, renderJob job = Some o.
Proof.
  unfold renderJob.
  destruct (getField (Parsed job) "date") as [d|]; [|eauto].
  destruct (getField (Parsed job) "title") as [t|]; [|eauto].
  destruct (getField (Parsed job) "role") as [r|]; [|eauto].
  destruct (renderChild d), (renderChild t); cbn; eauto.
Qed.

Lemma renderItems_renderJob_Some v : exists o, renderItems renderJob v = Some o.
Proof.
  destruct v as [|j]; [cbn; eauto|]. destruct j; cbn [renderItems]; eauto.
  induction items as [|job items [o IH]]; cbn [fold_right]; [eauto|].
  rewrite IH. destruct (renderJob_Some job) as [[|] ->]; cbn; eauto.
Qed.

(** A value that is no object with the two arrays cannot be rendered. *)
Lemma renderPage_hasLists parsed :
  hasLists parsed = false -> renderPage parsed = Some RenderThrows.
Proof.
  intros H. unfold renderPage.
  destruct parsed as [| | | | |items|ms]; try reflexivity.
  cbn [getField]. cbn [hasLists] in H.
  destruct (renderChild _); [|reflexivity]. cbn [andThen].
  destruct (ownMember (u16 "career") ms) as [c|]; [|reflexivity].
  destruct c as [| | | | |cs|]; try reflexivity.
  destruct (renderItems_renderJob_Some (Parsed (JArr cs))) as [[|] ->];
    [|reflexivity].
  cbn [andThen].
  destruct (ownMember (u16 "works") ms) as [w|]; [|reflexivity].
  destruct w; try reflexivity. discriminate H.
Qed.

(** A value that a [SiteValue] describes has the two arrays. *)
Lemma asSiteValue_hasLists parsed v :
  asSiteValue parsed = Some v -> hasLists parsed = true.
Proof.
  unfold asSiteValue. intros E.
  repeat match type of E with
         | context [match ?x with _ => _ end] =>
             is_var x; destruct x; try discriminate E
         end.
  match type of E with
  | (if ?b then _ else _) = _ => destruct b eqn:Hb; [|discriminate E]
  end.
  unfold isKey in Hb. rewrite !andb_true_iff in Hb.
  destruct Hb as [[[H1 H2] H3] H4].
  apply bool_decide_eq_true_1 in H1, H2, H3, H4. subst. reflexivity.
Qed.

End RenderFacts.
Import RenderFacts.

(** X18. A snapshot that [JSON.parse] accepts is stored whatever it
    holds, and the page cannot be rendered from a value that is no
    object with an array under [career] and an array under [works]:
    with [null], a boolean, a number, a string, an array, or an object
    that lacks one of the two arrays as snapshot, the load effect
    returns without a diagnostic and the render that follows throws. *)
Theorem snapshot_without_lists_crashes (text : jsstring) (parsed : JSON) :
  JSON_parse text = Some parsed ->
  hasLists parsed = false ->
  load (initialState (Some text))
  = LoadedOther (initialState (Some text)) parsed /\
  notices (initialState (Some text)) = [] /\
  renderAfter (load (initialState (Some text))) = Some RenderThrows.
Proof.
  intros Hp Hl.
  assert (Hs : asSiteValue parsed = None).
  { destruct (asSiteValue parsed) as [v|] eqn:E; [|reflexivity].
    rewrite (asSiteValue_hasLists _ _ E) in Hl. discriminate. }
  assert (Ht : truthy text = true).
  { destruct text; [discriminate Hp | reflexivity]. }
  assert (E : load (initialState (Some text))
              = LoadedOther (initialState (Some text)) parsed).
  { unfold load. cbn [storage initialState]. rewrite Ht, Hp, Hs. reflexivity. }
  rewrite E. split; [reflexivity|]. split; [reflexivity|].
  apply renderPage_hasLists, Hl.
Qed.

Lemma snapshot_array_crashes :
  JSON_parse (u16 "[1, 2]") = Some (JArr [JNum 1; JNum 2]) /\
  load (initialState (Some (u16 "[1, 2]")))
  = LoadedOther (initialState (Some (u16 "[1, 2]"))) (JArr [JNum 1; JNum 2]) /\
  notices (initialState (Some (u16 "[1, 2]"))) = [] /\
  renderAfter (load (initialState (Some (u16 "[1, 2]")))) = Some RenderThrows.
Proof.
  assert (H : JSON_parse (u16 "[1, 2]") = Some (JArr [JNum 1; JNum 2]))
    by (vm_compute; reflexivity).
  split; [exact H|].
  apply (snapshot_without_lists_crashes _ _ H). reflexivity.
Defined.
